(** * PostLang: the compiler pipeline and the plain-text analyzer

    A shallow embedding of [src/compiler.ts] and [src/analyzer.ts].

    JavaScript strings are sequences of UTF-16 code units, so a string is a
    [list N]; [length] is the [.length] property.  The two module-level
    regular expressions carrying the [g] flag ([EMOJI_REGEX] in the compiler,
    [EMOJI_RE] in the analyzer) own a mutable [lastIndex]; every function that
    calls [.test] on them takes the current [lastIndex] and returns the new
    one. *)

From Stdlib Require Import List NArith ZArith Arith Lia Bool String Ascii DecimalString.
Import ListNotations.

Set Implicit Arguments.

(* ================================================================== *)
(** ** JavaScript strings *)

Definition jsstring := list N.

(** An ASCII literal as a JavaScript string. *)
Definition js (s : string) : jsstring :=
  map N_of_ascii (list_ascii_of_string s).

Arguments js s%_string.

(** The double quote, which a literal above cannot hold. *)
Definition dq : jsstring := [34%N].

(** The line feed. *)
Definition nl : jsstring := [10%N].

Local Open Scope N_scope.

Fixpoint streq (a b : jsstring) : bool :=
  match a, b with
  | [], [] => true
  | x :: a', y :: b' => (x =? y) && streq a' b'
  | _, _ => false
  end.

(** [a.length] of an array. *)
Definition size {A : Type} (l : list A) : N := N.of_nat (List.length l).

(** [s.length] of a string. *)
Definition len (s : jsstring) : N := size s.

(** Template-literal rendering of a non-negative integer.  Exact for the
    integers a double holds exactly and prints in plain decimal (below 1e21);
    every length is in that range. *)
Definition dec (n : N) : jsstring :=
  js (NilZero.string_of_uint (N.to_uint n)).

(** WhiteSpace and LineTerminator code units: what [trim] strips and what
    [\s] matches. *)
Definition isWhiteSpace (c : N) : bool :=
  ((9 <=? c) && (c <=? 13)) || (c =? 32) || (c =? 160) || (c =? 0x1680)
  || ((0x2000 <=? c) && (c <=? 0x200A)) || (c =? 0x2028) || (c =? 0x2029)
  || (c =? 0x202F) || (c =? 0x205F) || (c =? 0x3000) || (c =? 0xFEFF).

Fixpoint trimStart (s : jsstring) : jsstring :=
  match s with
  | c :: s' => if isWhiteSpace c then trimStart s' else s
  | [] => []
  end.

Definition trimEnd (s : jsstring) : jsstring := rev (trimStart (rev s)).

Definition trim (s : jsstring) : jsstring := trimEnd (trimStart s).

(** [s.split('\n')]: never empty, [''.split('\n')] is [['']]. *)
Fixpoint split_nl (s : jsstring) : list jsstring :=
  match s with
  | [] => [[]]
  | c :: s' =>
      if c =? 10 then [] :: split_nl s'
      else match split_nl s' with
           | l :: ls => (c :: l) :: ls
           | [] => [[c]]
           end
  end.

(** [lines.join(sep)] *)
Fixpoint join (sep : jsstring) (ls : list jsstring) : jsstring :=
  match ls with
  | [] => []
  | [l] => l
  | l :: ls' => l ++ sep ++ join sep ls'
  end.

Fixpoint startsWith (s p : jsstring) {struct p} : bool :=
  match p with
  | [] => true
  | x :: p' =>
      match s with
      | y :: s' => (x =? y) && startsWith s' p'
      | [] => false
      end
  end.

Definition endsWith (s p : jsstring) : bool := startsWith (rev s) (rev p).

(** [s.includes(p)] *)
Fixpoint includes (s p : jsstring) : bool :=
  startsWith s p ||
  match s with
  | [] => false
  | _ :: s' => includes s' p
  end.

(** [(s.match(/!/g) || []).length] *)
Definition count_exclamation (s : jsstring) : N :=
  len (filter (fun c => c =? 33) s).

(** [toLowerCase] on one code unit of the Latin-1 range (Basic Latin and
    Latin-1 Supplement capitals move by 32); code units above U+00FF are kept
    as they are.  This is the lower-casing of the code on the strings of
    [exact_text] below, and not beyond: the code maps U+212A to [k], U+0130
    to two units, and so on.  A statement that reads a lower-cased text
    carries [exact_text] or [exact_document] as a hypothesis. *)
Definition lower_unit (c : N) : N :=
  if ((65 <=? c) && (c <=? 90))
     || ((0xC0 <=? c) && (c <=? 0xDE) && negb (c =? 0xD7))
  then c + 32 else c.

Definition toLowerCase (s : jsstring) : jsstring := map lower_unit s.

(** The code units on which [lower_unit] is the case mapping of the code,
    whatever stands around them: the Latin-1 range, the symbols U+2600 to
    U+27BF, the first halves U+D83C and U+D83D of the pairs for U+1F000 to
    U+1F7FF, and the second halves of pairs.  None of the units above U+00FF
    among them has a case, alone or in a pair, and no unit of the list takes
    part in a mapping that looks at its neighbours. *)
Definition exact_case (c : N) : bool :=
  (c <=? 0xFF) || ((0x2600 <=? c) && (c <=? 0x27BF))
  || ((0xD83C <=? c) && (c <=? 0xD83D))
  || ((0xDC00 <=? c) && (c <=? 0xDFFF)).

Definition exact_text (s : jsstring) : bool := forallb exact_case s.

(** The integers up to 2^53, which a double holds exactly: on a string of
    digits with such a value [parseInt] returns that value. *)
Definition MAX_EXACT : N := 9007199254740992.

(** [parseInt(digits, 10)] on a string of decimal digits.  The code returns
    a double: the value below is the one of the code up to [MAX_EXACT], and a
    statement that reads the value of a limit carries that bound. *)
Definition parseInt (s : jsstring) : N :=
  fold_left (fun acc c => 10 * acc + (c - 48)) s 0.

(* ================================================================== *)
(** ** Regular expressions

    The patterns of the source only repeat single-character classes, so the
    syntax has [Star] and [Plus] over a class.  Matching is the backtracking
    search of ECMAScript: greedy quantifiers, ordered alternation, and the
    continuation decides whether a choice stands.  Capture groups are never
    nested and never under an alternative; they are collected left to
    right. *)

Inductive regex : Type :=
| Eps : regex
| Class : (N -> bool) -> regex
| Seq : regex -> regex -> regex
| Alt : regex -> regex -> regex
| Opt : regex -> regex
| Star : (N -> bool) -> regex
| Plus : (N -> bool) -> regex
| Group : regex -> regex.

Declare Scope regex_scope.
Delimit Scope regex_scope with re.
Bind Scope regex_scope with regex.
Infix ";;" := Seq (at level 61, right associativity) : regex_scope.

Section Matcher.
Variable A : Type.

(** Continuation: the rest of the input and the captures so far. *)
Definition cont := jsstring -> list jsstring -> option A.

(** Greedy repetition of a class: take one more unit when possible, and
    fall back to stopping here when the continuation refuses. *)
Fixpoint star_k (p : N -> bool) (s : jsstring) (caps : list jsstring)
         (k : cont) : option A :=
  match s with
  | c :: s' =>
      if p c then
        match star_k p s' caps k with
        | Some r => Some r
        | None => k s caps
        end
      else k s caps
  | [] => k s caps
  end.

Fixpoint match_k (r : regex) (s : jsstring) (caps : list jsstring)
         (k : cont) : option A :=
  match r with
  | Eps => k s caps
  | Class p =>
      match s with
      | c :: s' => if p c then k s' caps else None
      | [] => None
      end
  | Seq r1 r2 => match_k r1 s caps (fun s' caps' => match_k r2 s' caps' k)
  | Alt r1 r2 =>
      match match_k r1 s caps k with
      | Some x => Some x
      | None => match_k r2 s caps k
      end
  | Opt r1 =>
      match match_k r1 s caps k with
      | Some x => Some x
      | None => k s caps
      end
  | Star p => star_k p s caps k
  | Plus p =>
      match s with
      | c :: s' => if p c then star_k p s' caps k else None
      | [] => None
      end
  | Group r1 =>
      match_k r1 s caps
        (fun s' caps' =>
           k s' (caps' ++ [firstn (List.length s - List.length s') s]))
  end.
End Matcher.

(** A pattern anchored with [^]: the captures and the unmatched rest. *)
Definition exec_start (r : regex) (s : jsstring)
  : option (list jsstring * jsstring) :=
  match_k r s [] (fun rest caps => Some (caps, rest)).

(** [pattern.test(s)] for a pattern with no anchor and no [g] flag. *)
Fixpoint test (r : regex) (s : jsstring) : bool :=
  match match_k r s [] (fun _ _ => Some tt) with
  | Some _ => true
  | None =>
      match s with
      | [] => false
      | _ :: s' => test r s'
      end
  end.

(** [s.replace(/^.../, '')] *)
Definition strip_prefix (r : regex) (s : jsstring) : jsstring :=
  match exec_start r s with
  | Some (_, rest) => rest
  | None => s
  end.

(** Character classes. *)
Definition chr (a : ascii) : N -> bool := fun c => c =? N_of_ascii a.
Definition lit (a : ascii) : regex := Class (chr a).
Definition notc (a : ascii) : N -> bool := fun c => negb (c =? N_of_ascii a).
Definition digit : N -> bool := fun c => (48 <=? c) && (c <=? 57).
Definition word : N -> bool := fun c =>
  ((97 <=? c) && (c <=? 122)) || ((65 <=? c) && (c <=? 90))
  || digit c || (c =? 95).
Definition nonspace : N -> bool := fun c => negb (isWhiteSpace c).

Arguments chr a%_char.
Arguments lit a%_char.
Arguments notc a%_char.

(** A literal run of characters. *)
Fixpoint lits (s : string) : regex :=
  match s with
  | EmptyString => Eps
  | String a s' => Seq (lit a) (lits s')
  end.

(** A letter under the [i] flag (no [u] flag): either case of an ASCII
    letter; other characters only match themselves. *)
Definition chr_i (a : ascii) : N -> bool := fun c =>
  let x := N_of_ascii a in
  (c =? x)
  || (((97 <=? x) && (x <=? 122)) && (c =? x - 32))
  || (((65 <=? x) && (x <=? 90)) && (c =? x + 32)).

Fixpoint lits_i (s : string) : regex :=
  match s with
  | EmptyString => Eps
  | String a s' => Seq (Class (chr_i a)) (lits_i s')
  end.

Arguments lits s%_string.
Arguments chr_i a%_char.
Arguments lits_i s%_string.

Local Open Scope regex_scope.

(** The patterns of [parse].  In the comments below [Q] stands for the
    double-quote character of the source pattern. *)

(** [Q([^Q]+)Q]: a double-quoted string with one capture. *)
Definition quoted : regex :=
  Class (fun c => (c =? 34)) ;; Group (Plus (fun c => negb (c =? 34)))
  ;; Class (fun c => (c =? 34)).

(** [/^\^\s*(\w+)\s*(\d+)/] *)
Definition re_limit : regex :=
  lit "^" ;; Star isWhiteSpace ;; Group (Plus word) ;; Star isWhiteSpace
  ;; Group (Plus digit).

(** [/^#\s*Q([^Q]+)Q/] *)
Definition re_title : regex := lit "#" ;; Star isWhiteSpace ;; quoted.

(** [/^!\s*Q([^Q]+)Q/] *)
Definition re_claim : regex := lit "!" ;; Star isWhiteSpace ;; quoted.

(** [/^\+\s*([^|]+)\|\s*Q([^Q]+)Q/] *)
Definition re_evidence : regex :=
  lit "+" ;; Star isWhiteSpace ;; Group (Plus (notc "|")) ;; lit "|"
  ;; Star isWhiteSpace ;; quoted.

(** [/^>\s*Q([^Q]+)Q/] *)
Definition re_insight : regex := lit ">" ;; Star isWhiteSpace ;; quoted.

(** [/^\?\s*Q([^Q]+)Q/] *)
Definition re_context : regex := lit "?" ;; Star isWhiteSpace ;; quoted.

(** [/^\*\s*Q([^Q]+)Q/] *)
Definition re_credential : regex := lit "*" ;; Star isWhiteSpace ;; quoted.

(** [/^@\s*Q([^Q]+)Q\s*\|\s*(\S+)\s*\|\s*Q([^Q]+)Q/] *)
Definition re_source : regex :=
  lit "@" ;; Star isWhiteSpace ;; quoted ;; Star isWhiteSpace ;; lit "|"
  ;; Star isWhiteSpace ;; Group (Plus nonspace) ;; Star isWhiteSpace
  ;; lit "|" ;; Star isWhiteSpace ;; quoted.

(** [/^https?:\/\//] *)
Definition re_scheme : regex := lits "http" ;; Opt (lit "s") ;; lits "://".

(** [/^www\./] *)
Definition re_www : regex := lits "www.".

Local Close Scope regex_scope.


(* ================================================================== *)
(** ** Data model of [compiler.ts] *)

(** [interface PostLangLimits]: every key is optional. *)
Module PostLangLimits.
Record t : Type := mk {
  title : option N;
  claim : option N;
  evidence : option N;
  insight : option N;
  context : option N;
  total : option N
}.

(** The object literal [{}]. *)
Definition empty : t := mk None None None None None None.

(** [{ ...a, ...b }]: the keys of [b] override those of [a]. *)
Definition over (a b : option N) : option N :=
  match b with Some v => Some v | None => a end.

Definition spread (a : t) (b : option t) : t :=
  match b with
  | None => a
  | Some b =>
      mk (over (title a) (title b)) (over (claim a) (claim b))
         (over (evidence a) (evidence b)) (over (insight a) (insight b))
         (over (context a) (context b)) (over (total a) (total b))
  end.
End PostLangLimits.

Module EvidenceItem.
Record t : Type := mk { value : jsstring; context : jsstring }.
End EvidenceItem.

Module Source.
Record t : Type := mk {
  title : jsstring;
  url : jsstring;
  credibility : jsstring
}.
End Source.

(** [interface PostLangAST] *)
Module PostLangAST.
Record t : Type := mk {
  title : jsstring;
  claim : jsstring;
  evidence : list EvidenceItem.t;
  insight : jsstring;
  context : option jsstring;
  credential : option jsstring;
  source : Source.t;
  limits : option PostLangLimits.t
}.
End PostLangAST.

(** [Partial<PostLangAST>]: [None] is [undefined]. *)
Module Partial.
Record t : Type := mk {
  title : option jsstring;
  claim : option jsstring;
  evidence : option (list EvidenceItem.t);
  insight : option jsstring;
  context : option jsstring;
  credential : option jsstring;
  source : option Source.t;
  limits : option PostLangLimits.t
}.

Definition set_title v a :=
  mk (Some v) (claim a) (evidence a) (insight a) (context a)
     (credential a) (source a) (limits a).
Definition set_claim v a :=
  mk (title a) (Some v) (evidence a) (insight a) (context a)
     (credential a) (source a) (limits a).
Definition set_evidence v a :=
  mk (title a) (claim a) (Some v) (insight a) (context a)
     (credential a) (source a) (limits a).
Definition set_insight v a :=
  mk (title a) (claim a) (evidence a) (Some v) (context a)
     (credential a) (source a) (limits a).
Definition set_context v a :=
  mk (title a) (claim a) (evidence a) (insight a) (Some v)
     (credential a) (source a) (limits a).
Definition set_credential v a :=
  mk (title a) (claim a) (evidence a) (insight a) (context a)
     (Some v) (source a) (limits a).
Definition set_source v a :=
  mk (title a) (claim a) (evidence a) (insight a) (context a)
     (credential a) (Some v) (limits a).
Definition set_limits v a :=
  mk (title a) (claim a) (evidence a) (insight a) (context a)
     (credential a) (source a) (Some v).
End Partial.

(** [ast as PostLangAST]: the cast reads the required fields. *)
Definition as_PostLangAST (a : Partial.t) : option PostLangAST.t :=
  match Partial.title a, Partial.claim a, Partial.evidence a,
        Partial.insight a, Partial.source a with
  | Some t, Some c, Some e, Some i, Some s =>
      Some (PostLangAST.mk t c e i (Partial.context a) (Partial.credential a)
                           s (Partial.limits a))
  | _, _, _, _, _ => None
  end.

Definition DEFAULT_LIMITS : PostLangLimits.t :=
  PostLangLimits.mk (Some 80) (Some 150) (Some 60) (Some 120) (Some 100)
                    (Some 700).

Record CompileResult : Type := mkCompileResult {
  success : bool;
  output : option jsstring;
  errors : list jsstring;
  warnings : list jsstring
}.


Definition BANNED_PHRASES : list jsstring :=
  [ js "game-changer"; js "game changer"; js "revolutionary";
    js "groundbreaking"; js "exciting"; js "thrilled"; js "delighted";
    js "proud to announce"; js "thrilled to announce"; js "excited to share";
    js "let me tell you"; js "here's the thing"; js "in today's world";
    js "in this day and age"; js "at the end of the day";
    js "it goes without saying"; js "needless to say"; js "leverage";
    js "synergy"; js "paradigm shift"; js "disruptive";
    js "innovative solution"; js "cutting-edge"; js "state-of-the-art";
    js "best-in-class"; js "world-class"; js "next-level"; js "deep dive";
    js "unpack"; js "circle back"; js "move the needle" ].

(* ================================================================== *)
(** ** The emoji pattern and its [lastIndex] *)

(** The class of [EMOJI_REGEX] (and of [EMOJI_RE]), on code points. *)
Definition emoji_cp (cp : N) : bool :=
  ((0x1F600 <=? cp) && (cp <=? 0x1F64F))%N
  || ((0x1F300 <=? cp) && (cp <=? 0x1F5FF))%N
  || ((0x1F680 <=? cp) && (cp <=? 0x1F6FF))%N
  || ((0x1F1E0 <=? cp) && (cp <=? 0x1F1FF))%N
  || ((0x2600 <=? cp) && (cp <=? 0x26FF))%N
  || ((0x2700 <=? cp) && (cp <=? 0x27BF))%N.

Definition is_lead (c : N) : bool := ((0xD800 <=? c) && (c <=? 0xDBFF))%N.
Definition is_trail (c : N) : bool := ((0xDC00 <=? c) && (c <=? 0xDFFF))%N.

Definition code_point (hi lo : N) : N :=
  (0x10000 + (hi - 0xD800) * 0x400 + (lo - 0xDC00))%N.

(** Under the [u] flag the input is read by code points.  [scan_emoji s pos]
    looks for the first code point of the class in [s], whose first unit has
    index [pos], and returns the index after it. *)
Fixpoint scan_emoji (s : jsstring) (pos : nat) : option nat :=
  match s with
  | [] => None
  | c :: s' =>
      match s' with
      | d :: s'' =>
          if is_lead c && is_trail d then
            if emoji_cp (code_point c d) then Some (pos + 2)%nat
            else scan_emoji s'' (pos + 2)%nat
          else if emoji_cp c then Some (pos + 1)%nat
          else scan_emoji s' (pos + 1)%nat
      | [] => if emoji_cp c then Some (pos + 1)%nat else None
      end
  end.

(** Is index [i] of [s] the second half of a surrogate pair? *)
Definition inside_pair (s : jsstring) (i : nat) : bool :=
  match i with
  | O => false
  | S j =>
      match skipn j s with
      | c :: d :: _ => is_lead c && is_trail d
      | _ => false
      end
  end.

(** [re.test(s)] for a pattern with the flags [gu]: the search starts at
    [lastIndex] (at the code point holding that index); a match stores the
    index after it in [lastIndex], a failure stores 0. *)
Definition emoji_test (s : jsstring) (lastIndex : nat) : bool * nat :=
  if (List.length s <? lastIndex)%nat then (false, O)
  else
    let start := if inside_pair s lastIndex then pred lastIndex
                 else lastIndex in
    match scan_emoji (skipn start s) start with
    | Some e => (true, e)
    | None => (false, O)
    end.

(* ================================================================== *)
(** ** [PostLangCompiler.parse] *)

Definition RECOGNISED_KEYS : list jsstring :=
  [ js "title"; js "claim"; js "evidence"; js "insight"; js "context";
    js "total" ].

(** [ast.limits[key] = value] for one of the six keys. *)
Definition set_limit (key : jsstring) (v : N) (l : PostLangLimits.t)
  : PostLangLimits.t :=
  let '(PostLangLimits.mk t c e i x o) := l in
  if streq key (js "title") then PostLangLimits.mk (Some v) c e i x o
  else if streq key (js "claim") then PostLangLimits.mk t (Some v) e i x o
  else if streq key (js "evidence") then PostLangLimits.mk t c (Some v) i x o
  else if streq key (js "insight") then PostLangLimits.mk t c e (Some v) x o
  else if streq key (js "context") then PostLangLimits.mk t c e i (Some v) o
  else if streq key (js "total") then PostLangLimits.mk t c e i x (Some v)
  else l.

Definition invalid (lineNum : N) (kind usage : jsstring) : jsstring :=
  js "Line " ++ dec lineNum ++ js ": Invalid " ++ kind ++ js ". Use " ++ usage.

Definition usage_title : jsstring := js "# " ++ dq ++ js "Your title" ++ dq.
Definition usage_claim : jsstring := js "! " ++ dq ++ js "Your claim" ++ dq.
Definition usage_evidence : jsstring :=
  js "+ value | " ++ dq ++ js "context" ++ dq.
Definition usage_insight : jsstring :=
  js "> " ++ dq ++ js "Your insight" ++ dq.
Definition usage_source : jsstring :=
  js "@ " ++ dq ++ js "Title" ++ dq ++ js " | url | " ++ dq
  ++ js "why this source is credible" ++ dq.

(** The state of the loop of [parse]: the document and the errors so far. *)
Definition parse_state : Type := (Partial.t * list jsstring)%type.

(** The [^] branch. *)
Definition parse_limit (line : jsstring) (st : parse_state) : parse_state :=
  let '(ast, errs) := st in
  match exec_start re_limit line with
  | Some ([k; v], _) =>
      let limits := match Partial.limits ast with
                    | Some l => l
                    | None => PostLangLimits.empty
                    end in
      let key := toLowerCase k in
      let value := parseInt v in
      (Partial.set_limits
         (if existsb (streq key) RECOGNISED_KEYS
          then set_limit key value limits else limits) ast, errs)
  | _ => st
  end.

(** [ast.evidence!.push(item)] *)
Definition push_evidence (item : EvidenceItem.t) (ast : Partial.t)
  : Partial.t :=
  Partial.set_evidence
    (match Partial.evidence ast with Some l => l | None => [] end ++ [item])
    ast.

(** One turn of the loop, on line [lines[i]] with [lineNum = i + 1]. *)
Definition parse_line (lineNum : N) (raw : jsstring) (st : parse_state)
  : parse_state :=
  let '(ast, errs) := st in
  let line := trim raw in
  match line with
  | [] => st
  | firstChar :: _ =>
      if startsWith line (js "//") then st
      else if chr "^" firstChar then parse_limit line st
      else if chr "#" firstChar then
        match exec_start re_title line with
        | Some ([t], _) => (Partial.set_title t ast, errs)
        | _ => (ast, errs ++ [invalid lineNum (js "title") usage_title])
        end
      else if chr "!" firstChar then
        match exec_start re_claim line with
        | Some ([c], _) => (Partial.set_claim c ast, errs)
        | _ => (ast, errs ++ [invalid lineNum (js "claim") usage_claim])
        end
      else if chr "+" firstChar then
        match exec_start re_evidence line with
        | Some ([v; c], _) =>
            (push_evidence (EvidenceItem.mk (trim v) c) ast, errs)
        | _ => (ast, errs ++ [invalid lineNum (js "evidence") usage_evidence])
        end
      else if chr ">" firstChar then
        match exec_start re_insight line with
        | Some ([i], _) => (Partial.set_insight i ast, errs)
        | _ => (ast, errs ++ [invalid lineNum (js "insight") usage_insight])
        end
      else if chr "?" firstChar then
        match exec_start re_context line with
        | Some ([c], _) => (Partial.set_context c ast, errs)
        | _ => st
        end
      else if chr "*" firstChar then
        match exec_start re_credential line with
        | Some ([c], _) => (Partial.set_credential c ast, errs)
        | _ => st
        end
      else if chr "@" firstChar then
        match exec_start re_source line with
        | Some ([t; u; c], _) =>
            (Partial.set_source (Source.mk t u c) ast, errs)
        | _ => (ast, errs ++ [invalid lineNum (js "source") usage_source])
        end
      else st
  end.

(** The loop over [lines], from index [i]. *)
Fixpoint parse_lines (i : N) (lines : list jsstring) (st : parse_state)
  : parse_state :=
  match lines with
  | [] => st
  | l :: rest => parse_lines (i + 1) rest (parse_line (i + 1) l st)
  end.

(** [const ast = { evidence: [] }] *)
Definition initial_ast : Partial.t :=
  Partial.mk None None (Some []) None None None None None.

Definition parse (source : jsstring) : parse_state :=
  parse_lines 0 (split_nl source) (initial_ast, []).

(* ================================================================== *)
(** ** [PostLangCompiler.validate] *)

(** Truthiness of an optional string: [undefined] and [''] are falsy. *)
Definition truthy (o : option jsstring) : bool :=
  match o with
  | Some (_ :: _) => true
  | _ => false
  end.

(** [n > limit]: a comparison with [undefined] is false. *)
Definition exceeds (n : N) (limit : option N) : bool :=
  match limit with
  | Some l => l <? n
  | None => false
  end.

(** A limit inside a template literal. *)
Definition show (limit : option N) : jsstring :=
  match limit with
  | Some l => dec l
  | None => js "undefined"
  end.

Definition when (b : bool) (msg : jsstring) : list jsstring :=
  if b then [msg] else [].

Definition exceeds_msg (sym : jsstring) (limit : option N) (n : N)
  : jsstring :=
  sym ++ js " exceeds " ++ show limit ++ js " chars (has " ++ dec n ++ js ")".

Definition missing_title : jsstring := js "Missing # (title)".
Definition missing_claim : jsstring := js "Missing ! (claim)".
Definition missing_evidence : jsstring := js "Missing + (evidence)".
Definition missing_insight : jsstring := js "Missing > (insight)".
Definition missing_source : jsstring := js "Missing @ (source)".
Definition too_many_evidence : jsstring := js "+ limited to 5 items maximum".
Definition emoji_msg : jsstring := js "Emojis are not allowed".

Definition banned_msg (phrase : jsstring) : jsstring :=
  js "Banned phrase: " ++ dq ++ phrase ++ dq.

Definition exclamation_msg (n : N) : jsstring :=
  js "Exclamation marks not allowed (found " ++ dec n ++ js ")".

Definition evidence_is_empty (e : option (list EvidenceItem.t)) : bool :=
  match e with
  | Some (_ :: _) => false
  | _ => true
  end.

(** Required fields *)
Definition required_errors (ast : Partial.t) : list jsstring :=
  when (negb (truthy (Partial.title ast))) missing_title
  ++ when (negb (truthy (Partial.claim ast))) missing_claim
  ++ when (evidence_is_empty (Partial.evidence ast)) missing_evidence
  ++ when (negb (truthy (Partial.insight ast))) missing_insight
  ++ when (match Partial.source ast with Some _ => false | None => true end)
          missing_source.

(** Title validation *)
Definition title_errors (limits : PostLangLimits.t) (ast : Partial.t)
  : list jsstring :=
  match Partial.title ast with
  | Some (c :: t') =>
      let t := c :: t' in
      when (exceeds (len t) (PostLangLimits.title limits))
           (exceeds_msg (js "#") (PostLangLimits.title limits) (len t))
      ++ when (endsWith t (js "?")) (js "# cannot be a question")
      ++ when (includes t (js "!")) (js "# cannot contain exclamation marks")
  | _ => []
  end.

(** A string field checked against its limit when it is truthy. *)
Definition field_length (sym : jsstring) (field : option jsstring)
           (limit : option N) : list jsstring :=
  match field with
  | Some (c :: s') =>
      let s := c :: s' in
      when (exceeds (len s) limit) (exceeds_msg sym limit (len s))
  | _ => []
  end.

(** The loop over the evidence items; [i] is the index of the first item
    of [evs]. *)
Fixpoint evidence_item_errors (limit : option N) (i : N)
         (evs : list EvidenceItem.t) : list jsstring :=
  match evs with
  | [] => []
  | ev :: rest =>
      let evText := EvidenceItem.value ev ++ js " " ++ EvidenceItem.context ev in
      when (exceeds (len evText) limit)
           (js "+ item " ++ dec (i + 1) ++ js " exceeds " ++ show limit
            ++ js " chars (has " ++ dec (len evText) ++ js ")")
      ++ evidence_item_errors limit (i + 1) rest
  end.

(** Evidence validation *)
Definition evidence_errors (limits : PostLangLimits.t) (ast : Partial.t)
  : list jsstring :=
  match Partial.evidence ast with
  | Some evs =>
      when (5 <? size evs) too_many_evidence
      ++ evidence_item_errors (PostLangLimits.evidence limits) 0 evs
  | None => []
  end.

(** [.filter(Boolean)] on strings that may be [undefined]. *)
Fixpoint filter_Boolean (l : list (option jsstring)) : list jsstring :=
  match l with
  | [] => []
  | Some (c :: s) :: l' => (c :: s) :: filter_Boolean l'
  | _ :: l' => filter_Boolean l'
  end.

(** The text scanned for emojis, banned phrases and exclamation marks. *)
Definition allText (ast : Partial.t) : jsstring :=
  toLowerCase
    (join (js " ")
       (filter_Boolean
          ([Partial.title ast; Partial.claim ast; Partial.insight ast;
            Partial.context ast]
           ++ match Partial.evidence ast with
              | Some evs => map (fun e => Some (EvidenceItem.context e)) evs
              | None => []
              end))).

Definition banned_errors (text : jsstring) : list jsstring :=
  flat_map (fun phrase => when (includes text (toLowerCase phrase))
                               (banned_msg phrase))
           BANNED_PHRASES.

Record Validation : Type := mkValidation {
  v_errors : list jsstring;
  v_warnings : list jsstring
}.

(** [validate(ast)], with the [lastIndex] of [EMOJI_REGEX] before and
    after. *)
Definition validate (ast : Partial.t) (lastIndex : nat) : Validation * nat :=
  let limits := PostLangLimits.spread DEFAULT_LIMITS (Partial.limits ast) in
  let text := allText ast in
  let '(emoji, lastIndex') := emoji_test text lastIndex in
  let exclamationCount := count_exclamation text in
  (mkValidation
     (required_errors ast
      ++ title_errors limits ast
      ++ field_length (js "!") (Partial.claim ast) (PostLangLimits.claim limits)
      ++ evidence_errors limits ast
      ++ field_length (js ">") (Partial.insight ast)
                      (PostLangLimits.insight limits)
      ++ when emoji emoji_msg
      ++ banned_errors text
      ++ when (0 <? exclamationCount) (exclamation_msg exclamationCount))
     (field_length (js "?") (Partial.context ast)
                   (PostLangLimits.context limits)),
   lastIndex').

(* ================================================================== *)
(** ** [PostLangCompiler.generate] *)

Definition generate (ast : PostLangAST.t) : jsstring :=
  let displayUrl :=
    strip_prefix re_www
      (strip_prefix re_scheme (Source.url (PostLangAST.source ast))) in
  join nl
    ([PostLangAST.title ast ++ js "."; []]
     ++ (match PostLangAST.context ast with
         | Some (c :: s) => [c :: s; []]
         | _ => []
         end)
     ++ [PostLangAST.claim ast ++ js "."; []]
     ++ (match PostLangAST.evidence ast with
         | [] => []
         | evs =>
             [js "Results:"]
             ++ map (fun ev => js "- " ++ EvidenceItem.value ev ++ js " "
                                  ++ EvidenceItem.context ev) evs
             ++ [[]]
         end)
     ++ [PostLangAST.insight ast ++ js "."; []]
     ++ (match PostLangAST.credential ast with
         | Some (c :: s) => [js "[" ++ (c :: s) ++ js "]"; []]
         | _ => []
         end)
     ++ [js "Source: " ++ Source.title (PostLangAST.source ast);
         js "[" ++ Source.credibility (PostLangAST.source ast) ++ js "]";
         displayUrl]).

(* ================================================================== *)
(** ** [PostLangCompiler.compile] *)

Definition total_msg (limit : option N) (n : N) : jsstring :=
  js "Output exceeds " ++ show limit ++ js " chars (has " ++ dec n ++ js ")".

(** [compile(source)], with the [lastIndex] of [EMOJI_REGEX] before and
    after.  [generate] is typed on complete documents; the cast in front of
    it answers [None] on a document that lacks a required member, a branch
    that [compile_returns] below shows is never taken, since [validate] has
    reported such a document. *)
Definition compile (source : jsstring) (lastIndex : nat)
  : option CompileResult * nat :=
  let '(ast, parseErrors) := parse source in
  match parseErrors with
  | _ :: _ => (Some (mkCompileResult false None parseErrors []), lastIndex)
  | [] =>
      let '(v, lastIndex') := validate ast lastIndex in
      match v_errors v with
      | _ :: _ =>
          (Some (mkCompileResult false None (v_errors v) (v_warnings v)),
           lastIndex')
      | [] =>
          match as_PostLangAST ast with
          | None => (None, lastIndex')
          | Some full =>
              let output := generate full in
              let limits :=
                PostLangLimits.spread DEFAULT_LIMITS (Partial.limits ast) in
              if exceeds (len output) (PostLangLimits.total limits) then
                (Some (mkCompileResult false None
                         [total_msg (PostLangLimits.total limits) (len output)]
                         (v_warnings v)),
                 lastIndex')
              else
                (Some (mkCompileResult true (Some output) [] (v_warnings v)),
                 lastIndex')
          end
      end
  end.

(* ================================================================== *)
(** ** [PostLangAnalyzer.analyze] *)

Record Structure : Type := mkStructure {
  hasTitle : bool;
  hasClaim : bool;
  hasEvidence : bool;
  evidenceCount : N;
  hasInsight : bool;
  hasSource : bool
}.

Record AnalysisResult : Type := mkAnalysisResult {
  valid : bool;
  score : Z;
  structure : Structure;
  issues : list jsstring;
  a_warnings : list jsstring;
  suggestions : list jsstring
}.

(** The list [BANNED] of the analyzer, a second copy of the compiler's. *)
Definition BANNED : list jsstring := BANNED_PHRASES.

(** [/\d+%|\d+x|\d+\.\d+/] *)
Definition evidencePattern : regex :=
  Alt (Plus digit ;; lit "%")
      (Alt (Plus digit ;; lit "x") (Plus digit ;; lit "." ;; Plus digit)).

(** The class of [bulletPattern] as the file spells it: a hyphen, U+00E2,
    U+20AC, U+00A2 and an asterisk. *)
Definition bullet_class (c : N) : bool :=
  (c =? 0x2D) || (c =? 0xE2) || (c =? 0x20AC) || (c =? 0xA2) || (c =? 0x2A).

(** [bulletPattern], anchored at the start of the string. *)
Definition bulletPattern : regex := Class bullet_class ;; Class isWhiteSpace.

Definition test_start (r : regex) (s : jsstring) : bool :=
  match exec_start r s with
  | Some _ => true
  | None => false
  end.

(** [/https?:\/\/|arxiv\.org|github\.com|Source:/i] *)
Definition urlPattern : regex :=
  Alt (lits_i "http" ;; Opt (Class (chr_i "s")) ;; lits_i "://")
      (Alt (lits_i "arxiv.org") (Alt (lits_i "github.com") (lits_i "Source:"))).

(** The condition of the evidence loop. *)
Definition is_evidence_line (line : jsstring) : bool :=
  test evidencePattern line || test_start bulletPattern (trim line).

Definition is_blank (l : jsstring) : bool :=
  match trim l with
  | [] => true
  | _ :: _ => false
  end.

Local Open Scope Z_scope.

(** [analyze(text)], with the [lastIndex] of [EMOJI_RE] before and after.
    The source pushes onto [issues], [warnings] and [suggestions] and lowers
    [score] as it goes; each list below is the pushes in source order and the
    score is 100 less the penalties, clamped at the end. *)
Definition analyze (text : jsstring) (lastIndex : nat)
  : AnalysisResult * nat :=
  let lines := filter (fun l => negb (is_blank l)) (split_nl text) in
  let lowerText := toLowerCase text in
  let firstLen := match lines with
                  | l :: _ => len (trim l)
                  | [] => 0%N
                  end in
  let no_lines := match lines with [] => true | _ :: _ => false end in
  let title_ok := negb no_lines && (0 <? firstLen)%N && (firstLen <=? 100)%N in
  let title_long := negb no_lines && negb title_ok && (100 <? firstLen)%N in
  let count := size (filter is_evidence_line lines) in
  let has_evidence := (0 <? count)%N in
  let has_source := test urlPattern text in
  let has_claim := (2 <=? size lines)%N in
  let nonTagLines :=
    filter (fun l => negb (startsWith l (js "#")) && negb (test urlPattern l))
           lines in
  let has_insight := (3 <=? size nonTagLines)%N in
  let banned := filter (fun phrase => includes lowerText phrase) BANNED in
  let '(emoji, lastIndex') := emoji_test text lastIndex in
  let exclamationCount := count_exclamation text in
  let question := match lines with
                  | l :: _ => endsWith (trim l) (js "?")
                  | [] => false
                  end in
  let long := (1300 <? len text)%N in
  let issues :=
    when title_long (js "First line too long for a title (>100 chars)")
    ++ when no_lines (js "No title detected")
    ++ when (negb has_evidence) (js "No evidence/data points detected")
    ++ when (negb has_source) (js "No source/attribution detected")
    ++ when (negb has_claim) (js "Post too short - no clear claim detected")
    ++ map (fun phrase => js "Contains banned phrase: " ++ dq ++ phrase ++ dq)
           banned
    ++ when emoji (js "Contains emojis")
    ++ when (0 <? exclamationCount)%N
            (js "Contains " ++ dec exclamationCount
             ++ js " exclamation mark(s)")
    ++ when question (js "Title is a question (avoid clickbait)") in
  let warnings :=
    when (has_evidence && (count <? 2)%N)
         (js "Only 1 evidence point - consider adding more")
    ++ when (negb has_insight) (js "No clear insight/takeaway detected")
    ++ when long (js "Post is long (" ++ dec (len text)
                  ++ js " chars) - consider trimming") in
  let suggestions :=
    when (negb has_evidence)
         (js "Add specific numbers or percentages to support claims")
    ++ when (negb has_source) (js "Add a source URL or citation")
    ++ when (negb has_insight)
            (js "Add a concluding insight before the source") in
  let penalty (b : bool) (p : Z) : Z := if b then p else 0 in
  let score :=
    100
    - penalty title_long 10
    - penalty no_lines 15
    - penalty (negb has_evidence) 20
    - penalty (has_evidence && (count <? 2)%N) 5
    - penalty (negb has_source) 15
    - penalty (negb has_claim) 10
    - penalty (negb has_insight) 5
    - 10 * Z.of_nat (List.length banned)
    - penalty emoji 10
    - penalty (0 <? exclamationCount)%N (Z.of_N exclamationCount * 5)
    - penalty question 10
    - penalty long 5 in
  (mkAnalysisResult
     (match issues with [] => true | _ :: _ => false end)
     (Z.max 0 (Z.min 100 score))
     (mkStructure title_ok has_claim has_evidence count has_insight has_source)
     issues warnings suggestions,
   lastIndex').

Local Close Scope Z_scope.

(* ================================================================== *)
(** ** Named parts of a document, and the documents of the scenarios *)

(** The limit a key has once the defaults are merged in, as [validate] and
    [compile] read it. *)
Definition effective (ast : Partial.t) : PostLangLimits.t :=
  PostLangLimits.spread DEFAULT_LIMITS (Partial.limits ast).

(** [limits[key]] *)
Definition get_limit (key : jsstring) (l : PostLangLimits.t) : option N :=
  if streq key (js "title") then PostLangLimits.title l
  else if streq key (js "claim") then PostLangLimits.claim l
  else if streq key (js "evidence") then PostLangLimits.evidence l
  else if streq key (js "insight") then PostLangLimits.insight l
  else if streq key (js "context") then PostLangLimits.context l
  else if streq key (js "total") then PostLangLimits.total l
  else None.

(** What the [^] branch of the loop reads off a line: the lower-cased key and
    the value, when the line reaches that branch and the pattern matches. *)
Definition directive (raw : jsstring) : option (jsstring * N) :=
  match trim raw with
  | [] => None
  | firstChar :: rest =>
      if startsWith (firstChar :: rest) (js "//") then None
      else if chr "^" firstChar then
        match exec_start re_limit (firstChar :: rest) with
        | Some ([k; v], _) => Some (toLowerCase k, parseInt v)
        | _ => None
        end
      else None
  end.

(** The number of evidence items of a document. *)
Definition evidence_count (ast : Partial.t) : nat :=
  match Partial.evidence ast with
  | Some evs => List.length evs
  | None => O
  end.

(** The same document under another [limits] member. *)
Definition with_limits (l : option PostLangLimits.t) (ast : Partial.t)
  : Partial.t :=
  Partial.mk (Partial.title ast) (Partial.claim ast) (Partial.evidence ast)
             (Partial.insight ast) (Partial.context ast)
             (Partial.credential ast) (Partial.source ast) l.


(** A phrase occurs, whatever the case of the letters around it, in one of
    the five kinds of prose field. *)
Definition occurs_in (phrase : jsstring) (field : option jsstring) : Prop :=
  exists s, field = Some s /\ includes (toLowerCase s) phrase = true.

Definition occurs_in_prose (phrase : jsstring) (ast : Partial.t) : Prop :=
  occurs_in phrase (Partial.title ast)
  \/ occurs_in phrase (Partial.claim ast)
  \/ occurs_in phrase (Partial.insight ast)
  \/ occurs_in phrase (Partial.context ast)
  \/ exists evs ev, Partial.evidence ast = Some evs /\ In ev evs
       /\ includes (toLowerCase (EvidenceItem.context ev)) phrase = true.

Definition quote (s : jsstring) : jsstring := dq ++ s ++ dq.

(** The first four lines of the minimal post. *)
Definition minimal_head : list jsstring :=
  [ js "# " ++ quote (js "Title");
    js "! " ++ quote (js "Claim");
    js "+ 10% | " ++ quote (js "improvement");
    js "> " ++ quote (js "Insight") ].

(** The minimal post with a source of a title and a URL. *)
Definition minimal_two_segment : jsstring :=
  join nl (minimal_head
           ++ [js "@ " ++ quote (js "Source") ++ js " | https://example.com"]).

(** The minimal post with the credibility segment on the source. *)
Definition minimal_three_segment : jsstring :=
  join nl (minimal_head
           ++ [js "@ " ++ quote (js "Source") ++ js " | https://example.com | "
               ++ quote (js "peer reviewed")]).

Definition minimal_ast : PostLangAST.t :=
  PostLangAST.mk (js "Title") (js "Claim")
    [EvidenceItem.mk (js "10%") (js "improvement")] (js "Insight") None None
    (Source.mk (js "Source") (js "https://example.com") (js "peer reviewed"))
    None.

Definition minimal_output : jsstring :=
  join nl [ js "Title."; []; js "Claim."; []; js "Results:";
            js "- 10% improvement"; []; js "Insight."; [];
            js "Source: Source"; js "[peer reviewed]"; js "example.com" ].

(** A post whose title holds U+2600, and is otherwise the minimal one. *)
Definition sunny : jsstring :=
  join nl [ js "# " ++ quote (js "Sunny " ++ [0x2600]);
            js "! " ++ quote (js "Claim");
            js "+ 10% | " ++ quote (js "improvement");
            js "> " ++ quote (js "Insight");
            js "@ " ++ quote (js "Source") ++ js " | https://example.com | "
            ++ quote (js "peer reviewed") ].

Definition sunny_output : jsstring :=
  join nl [ js "Sunny " ++ [0x2600] ++ js "."; []; js "Claim."; [];
            js "Results:"; js "- 10% improvement"; []; js "Insight."; [];
            js "Source: Source"; js "[peer reviewed]"; js "example.com" ].

(** The minimal post with a context of 15 characters under a context limit
    of 5. *)
Definition long_context : jsstring :=
  join nl [ js "^ context 5";
            js "? " ++ quote (js "Background info");
            minimal_three_segment ].

(** A parsed document: the minimal post under another title and with
    other credential and source members. *)
Definition document (title : jsstring) (credential : option jsstring)
           (source : Source.t) : Partial.t :=
  Partial.mk (Some title) (Some (js "Claim"))
             (Some [EvidenceItem.mk (js "10%") (js "improvement")])
             (Some (js "Insight")) None credential (Some source) None.

Definition plain_source : Source.t :=
  Source.mk (js "Source") (js "https://example.com") (js "peer reviewed").


(** Messages are told apart by their first code unit, and the two kinds of
    evidence message by their third. *)
Definition first_unit (m : jsstring) : N := hd 0 m.
Definition third_unit (m : jsstring) : N := nth 2 m 0.

Definition all_first (c : N) (l : list jsstring) : Prop :=
  forall m, In m l -> first_unit m = c.

(** A post near the limits of its fields: a claim of 150 characters, five
    evidence items of 53 and an insight of 120, under the limit directives
    given first. *)
Definition wordy (directives : list jsstring) : jsstring :=
  join nl
    (directives
     ++ [ js "# " ++ quote (js "Title");
          js "! " ++ quote (repeat 97 150) ]
     ++ repeat (js "+ 1% | " ++ quote (repeat 99 50)) 5
     ++ [ js "> " ++ quote (repeat 98 120);
          js "@ " ++ quote (js "Source") ++ js " | https://example.com | "
          ++ quote (js "peer reviewed") ]).

(** The limits object a [^] line writes into. *)
Definition limits_or_empty (ast : Partial.t) : PostLangLimits.t :=
  match Partial.limits ast with
  | Some l => l
  | None => PostLangLimits.empty
  end.

(** A code unit that is neither in the emoji class nor the first half of a
    surrogate pair. *)
Definition plain (c : N) : bool := negb (emoji_cp c) && negb (is_lead c).

(** The non-blank lines of a text, as [analyze] takes them. *)
Definition nonblank_lines (text : jsstring) : list jsstring :=
  filter (fun l => negb (is_blank l)) (split_nl text).


(** Every capture group of a pattern wraps a [+] repetition. *)
Fixpoint plus_groups (r : regex) : bool :=
  match r with
  | Group (Plus _) => true
  | Group _ => false
  | Seq a b | Alt a b => plus_groups a && plus_groups b
  | Opt a => plus_groups a
  | Eps | Class _ | Star _ | Plus _ => true
  end.

(** No string member of a document is the empty string. *)
Definition no_empty_field (ast : Partial.t) : Prop :=
  Partial.title ast <> Some [] /\ Partial.claim ast <> Some []
  /\ Partial.insight ast <> Some [] /\ Partial.context ast <> Some [].

(** The minimal post with a context of 700 characters under a context
    limit of 5. *)
Definition huge_context : jsstring :=
  join nl [ js "^ context 5";
            js "? " ++ quote (repeat 100 700);
            minimal_three_segment ].

(* ================================================================== *)
(** ** Lines taken alone *)

(** The lines of a source with their numbers: [lines[i]] has number
    [i + 1]. *)
Fixpoint number_from (i : N) (lines : list jsstring)
  : list (N * jsstring) :=
  match lines with
  | [] => []
  | l :: rest => (i + 1, l) :: number_from (i + 1) rest
  end.

(** What one turn of the loop of [parse] does on a fresh state. *)
Definition line_alone (n : N) (raw : jsstring) : parse_state :=
  parse_line n raw (initial_ast, []).

(** The errors a line brings. *)
Definition line_errors (n : N) (raw : jsstring) : list jsstring :=
  snd (line_alone n raw).

(** The evidence items a line brings. *)
Definition line_evidence (raw : jsstring) : list EvidenceItem.t :=
  match Partial.evidence (fst (line_alone 0 raw)) with
  | Some evs => evs
  | None => []
  end.

(** The symbol, the name and the usage text of the five directives whose
    mismatch is an error. *)
Definition ERROR_KINDS : list (N * jsstring * jsstring) :=
  [ (35, js "title", usage_title); (33, js "claim", usage_claim);
    (43, js "evidence", usage_evidence); (62, js "insight", usage_insight);
    (64, js "source", usage_source) ].

(** The eight symbols a directive can start with. *)
Definition SYMBOLS : list N := [94; 35; 33; 43; 62; 63; 42; 64].

(** Lines of no effect: blank lines, comments, lines that start with no
    symbol, and limit, context or credential lines that do not match their
    pattern. *)
Definition ignorable (raw : jsstring) : bool :=
  match trim raw with
  | [] => true
  | c :: rest =>
      startsWith (c :: rest) (js "//")
      || negb (existsb (N.eqb c) SYMBOLS)
      || (chr "^" c && negb (test_start re_limit (c :: rest)))
      || (chr "?" c && negb (test_start re_context (c :: rest)))
      || (chr "*" c && negb (test_start re_credential (c :: rest)))
  end.

(** The five string members that a directive sets, each by its own
    symbol. *)
Inductive singular : Type :=
| Title | Claim | Insight | Context | Credential.

Definition member (m : singular) (ast : Partial.t) : option jsstring :=
  match m with
  | Title => Partial.title ast
  | Claim => Partial.claim ast
  | Insight => Partial.insight ast
  | Context => Partial.context ast
  | Credential => Partial.credential ast
  end.

(** The classes of the capture groups of a pattern, left to right, for a
    pattern whose groups wrap a [+] repetition and sit under no
    alternative. *)
Fixpoint group_classes (r : regex) : list (N -> bool) :=
  match r with
  | Group (Plus p) => [p]
  | Seq a b => group_classes a ++ group_classes b
  | _ => []
  end.

Fixpoint no_group (r : regex) : bool :=
  match r with
  | Group _ => false
  | Seq a b | Alt a b => no_group a && no_group b
  | Opt a => no_group a
  | Eps | Class _ | Star _ | Plus _ => true
  end.

Fixpoint sequenced (r : regex) : bool :=
  match r with
  | Group (Plus _) => true
  | Group _ => false
  | Seq a b => sequenced a && sequenced b
  | Alt a b => no_group a && no_group b
  | Opt a => no_group a
  | Eps | Class _ | Star _ | Plus _ => true
  end.

(** A capture of a group over the class [p]: at least one unit, all of
    them in [p]. *)
Definition captured (p : N -> bool) (c : jsstring) : Prop :=
  c <> [] /\ forallb p c = true.

Definition no_quote (s : jsstring) : bool :=
  forallb (fun c => negb (c =? 34)) s.

(** What [parse] guarantees of the strings it stores. *)
Definition text_ok (o : option jsstring) : Prop :=
  forall s, o = Some s -> s <> [] /\ no_quote s = true.

Definition item_ok (ev : EvidenceItem.t) : Prop :=
  forallb (notc "|") (EvidenceItem.value ev) = true
  /\ trim (EvidenceItem.value ev) = EvidenceItem.value ev
  /\ EvidenceItem.context ev <> []
  /\ no_quote (EvidenceItem.context ev) = true.

Definition source_ok (src : Source.t) : Prop :=
  (Source.title src <> [] /\ no_quote (Source.title src) = true)
  /\ (Source.url src <> [] /\ forallb nonspace (Source.url src) = true)
  /\ (Source.credibility src <> []
      /\ no_quote (Source.credibility src) = true).

Definition well_formed (ast : Partial.t) : Prop :=
  text_ok (Partial.title ast) /\ text_ok (Partial.claim ast)
  /\ text_ok (Partial.insight ast) /\ text_ok (Partial.context ast)
  /\ text_ok (Partial.credential ast)
  /\ (forall evs ev, Partial.evidence ast = Some evs -> In ev evs ->
                     item_ok ev)
  /\ (forall src, Partial.source ast = Some src -> source_ok src).

(** A string holds an emoji of the class: a single unit of the class, or a
    surrogate pair whose code point is in the class. *)
Definition has_emoji (s : jsstring) : Prop :=
  (exists pre c post, s = pre ++ c :: post /\ emoji_cp c = true)
  \/ (exists pre hi lo post,
        s = pre ++ hi :: lo :: post /\ is_lead hi = true
        /\ is_trail lo = true /\ emoji_cp (code_point hi lo) = true).

(** The members that [validate] joins into the scanned text. *)
Definition scanned (ast : Partial.t) : list jsstring :=
  filter_Boolean
    ([Partial.title ast; Partial.claim ast; Partial.insight ast;
      Partial.context ast]
     ++ match Partial.evidence ast with
        | Some evs => map (fun e => Some (EvidenceItem.context e)) evs
        | None => []
        end).

(** The text of an evidence item that [validate] measures. *)
Definition evText (ev : EvidenceItem.t) : jsstring :=
  EvidenceItem.value ev ++ js " " ++ EvidenceItem.context ev.

(** What a document must satisfy for [validate] to report no error, when
    [EMOJI_REGEX] is entered with [lastIndex]. *)
Definition acceptable (ast : Partial.t) (lastIndex : nat) : Prop :=
  (truthy (Partial.title ast) = true /\ truthy (Partial.claim ast) = true
   /\ truthy (Partial.insight ast) = true /\ Partial.source ast <> None
   /\ (1 <= evidence_count ast <= 5)%nat)
  /\ (forall t, Partial.title ast = Some t ->
                exceeds (len t) (PostLangLimits.title (effective ast)) = false
                /\ endsWith t (js "?") = false)
  /\ (forall c, Partial.claim ast = Some c ->
                exceeds (len c) (PostLangLimits.claim (effective ast)) = false)
  /\ (forall evs ev, Partial.evidence ast = Some evs -> In ev evs ->
                     exceeds (len (evText ev))
                             (PostLangLimits.evidence (effective ast)) = false)
  /\ (forall i, Partial.insight ast = Some i ->
                exceeds (len i) (PostLangLimits.insight (effective ast))
                = false)
  /\ fst (emoji_test (allText ast) lastIndex) = false
  /\ (forall p, In p BANNED_PHRASES -> includes (allText ast) p = false)
  /\ count_exclamation (allText ast) = 0.

(** [displayUrl] of [generate]. *)
Definition displayUrl (url : jsstring) : jsstring :=
  strip_prefix re_www (strip_prefix re_scheme url).

(** The array [lines] of [generate] before it is joined. *)
Definition output_lines (ast : PostLangAST.t) : list jsstring :=
  [PostLangAST.title ast ++ js "."; []]
  ++ (match PostLangAST.context ast with
      | Some (c :: s) => [c :: s; []]
      | _ => []
      end)
  ++ [PostLangAST.claim ast ++ js "."; []]
  ++ (match PostLangAST.evidence ast with
      | [] => []
      | evs =>
          [js "Results:"]
          ++ map (fun ev => js "- " ++ EvidenceItem.value ev ++ js " "
                               ++ EvidenceItem.context ev) evs
          ++ [[]]
      end)
  ++ [PostLangAST.insight ast ++ js "."; []]
  ++ (match PostLangAST.credential ast with
      | Some (c :: s) => [js "[" ++ (c :: s) ++ js "]"; []]
      | _ => []
      end)
  ++ [js "Source: " ++ Source.title (PostLangAST.source ast);
      js "[" ++ Source.credibility (PostLangAST.source ast) ++ js "]";
      displayUrl (Source.url (PostLangAST.source ast))].

(** A string with no line feed. *)
Definition single_line (s : jsstring) : bool :=
  forallb (fun c => negb (c =? 10)) s.

Definition single_line_opt (o : option jsstring) : bool :=
  match o with
  | Some s => single_line s
  | None => true
  end.

(** A complete document none of whose strings holds a line feed. *)
Definition single_lines (ast : PostLangAST.t) : bool :=
  single_line (PostLangAST.title ast) && single_line (PostLangAST.claim ast)
  && forallb (fun ev => single_line (EvidenceItem.value ev)
                        && single_line (EvidenceItem.context ev))
             (PostLangAST.evidence ast)
  && single_line (PostLangAST.insight ast)
  && single_line_opt (PostLangAST.context ast)
  && single_line_opt (PostLangAST.credential ast)
  && single_line (Source.title (PostLangAST.source ast))
  && single_line (Source.url (PostLangAST.source ast))
  && single_line (Source.credibility (PostLangAST.source ast)).

(** A parsed document none of whose strings holds a line feed. *)
Definition single_lines_parsed (ast : Partial.t) : Prop :=
  (forall m, single_line_opt (member m ast) = true)
  /\ (forall evs, Partial.evidence ast = Some evs ->
        forallb (fun ev => single_line (EvidenceItem.value ev)
                           && single_line (EvidenceItem.context ev)) evs
        = true)
  /\ (forall src, Partial.source ast = Some src ->
        single_line (Source.title src) && single_line (Source.url src)
        && single_line (Source.credibility src) = true).

(** What a text must satisfy for [analyze] to raise no issue, when
    [EMOJI_RE] is entered with [lastIndex]. *)
Definition analysis_clean (text : jsstring) (lastIndex : nat) : Prop :=
  (exists l rest,
     nonblank_lines text = l :: rest /\ len (trim l) <= 100
     /\ endsWith (trim l) (js "?") = false)
  /\ 2 <= size (nonblank_lines text)
  /\ 1 <= size (filter is_evidence_line (nonblank_lines text))
  /\ test urlPattern text = true
  /\ (forall p, In p BANNED -> includes (toLowerCase text) p = false)
  /\ fst (emoji_test text lastIndex) = false
  /\ count_exclamation text = 0.

(** The lines that [analyze] counts towards an insight. *)
Definition nonTagLines (text : jsstring) : list jsstring :=
  filter (fun l => negb (startsWith l (js "#")) && negb (test urlPattern l))
         (nonblank_lines text).

(** The minimal post with a credential that holds an exclamation mark. *)
Definition exclaiming : jsstring :=
  join nl [ js "* " ++ quote (js "Award winner!"); minimal_three_segment ].

Definition exclaiming_ast : PostLangAST.t :=
  PostLangAST.mk (js "Title") (js "Claim")
    [EvidenceItem.mk (js "10%") (js "improvement")] (js "Insight") None
    (Some (js "Award winner!")) plain_source None.

(* ================================================================== *)
(** ** [index.ts]: the convenience functions *)

Module Index.

(** The result of [validate(source)]. *)
Record ValidateResult : Type := mkValidateResult {
  valid : bool;
  errors : list jsstring;
  warnings : list jsstring
}.

(** [compile(source)], [parse(source)] and [analyze(text)] hand over to the
    shared compiler and analyzer. *)
Definition compile (source : jsstring) (lastIndex : nat)
  : option CompileResult * nat :=
  compile source lastIndex.

Definition parse (source : jsstring) : parse_state := parse source.

Definition analyze (text : jsstring) (lastIndex : nat)
  : AnalysisResult * nat :=
  analyze text lastIndex.

(** [validate(source)]: parse, then the validator; the output is not
    generated, so the total limit is not looked at. *)
Definition validate (source : jsstring) (lastIndex : nat)
  : ValidateResult * nat :=
  let '(ast, parseErrors) := parse source in
  match parseErrors with
  | _ :: _ => (mkValidateResult false parseErrors [], lastIndex)
  | [] =>
      let '(v, lastIndex') := validate ast lastIndex in
      (mkValidateResult
         (match v_errors v with [] => true | _ :: _ => false end)
         (v_errors v) (v_warnings v),
       lastIndex')
  end.

End Index.

(* ================================================================== *)
(** ** [cli.ts]: the command line *)

Module Cli.

(** What a run of the program shows from outside: the arguments of the
    [console.log] calls and of the [console.error] calls, in order, the file
    written if any (path and content), and the code of [process.exit] ([None]
    when the function returns without calling it). *)
Record Run : Type := mkRun {
  stdout : list jsstring;
  stderr : list jsstring;
  written : option (jsstring * jsstring);
  exit : option N
}.

(** What the program reads from outside: the files that exist with their
    text, the standard input, and the version of [package.json]. *)
Record Env : Type := mkEnv {
  files : jsstring -> option jsstring;
  stdin : jsstring;
  version : jsstring
}.

(** The marks of the reports: U+2713, U+2717, U+26A0, U+2192, U+2014. *)
Definition tick : jsstring := [0x2713].
Definition cross : jsstring := [0x2717].
Definition warning_sign : jsstring := [0x26A0].
Definition arrow : jsstring := [0x2192].
Definition em_dash : jsstring := [0x2014].

(** [cond ? tick : absent] *)
Definition present (cond : bool) (absent : jsstring) : jsstring :=
  if cond then tick else absent.

(** A number in a template string. *)
Definition dec_Z (z : Z) : jsstring :=
  if (z <? 0)%Z then js "-" ++ dec (Z.to_N (- z)) else dec (Z.to_N z).

(** [list.forEach((x) => console.log(prefix + x))] under a heading, followed
    by an empty line, when the list is not empty. *)
Definition block (heading prefix : jsstring) (items : list jsstring)
  : list jsstring :=
  match items with
  | [] => []
  | _ :: _ => [heading] ++ map (fun x => prefix ++ x) items ++ [[]]
  end.

(** A line of the character counts, printed when the member is truthy. *)
Definition chars (label : jsstring) (o : option jsstring) : list jsstring :=
  match o with
  | Some v => when (truthy o) (label ++ dec (len v) ++ js " chars")
  | None => []
  end.

(** The text of [printUsage]. *)
Definition usage : jsstring :=
  join nl
    [ [];
      js "PostLang - A DSL for writing LinkedIn posts that don't suck";
      [];
      js "Usage:";
      js "  postlang <input.post> [output.txt]    Compile to LinkedIn post";
      js "  postlang --validate <input.post>      Validate PostLang syntax";
      js "  postlang --analyze <input.txt>        Analyze plain text post";
      js "  postlang --stdin                      Read from stdin";
      [];
      js "Options:";
      js "  --validate    Check PostLang syntax only";
      js "  --analyze     Check if plain text follows PostLang rules";
      js "  --stdin       Read from stdin instead of file";
      js "  --help, -h    Show this help";
      js "  --version     Show version";
      [];
      js "Examples:";
      js "  postlang posts/my-post.post";
      js "  postlang posts/my-post.post output/post.txt";
      js "  postlang --validate posts/my-post.post";
      js "  postlang --analyze output/linkedin-post.txt";
      js "  cat posts/my-post.post | postlang --stdin";
      [] ].

(** [runValidate(source)]: the report of [compile], with the structure read
    off a second [parse].  [None] stands for [compile] not returning. *)
Definition runValidate (source : jsstring) (lastIndex : nat) : option Run :=
  match fst (Index.compile source lastIndex) with
  | None => None
  | Some result =>
      let ast := fst (parse source) in
      let head :=
        [ js "PostLang Validation Report";
          js "==========================" ++ nl ] in
      let shape :=
        [ js "Structure:";
          js "  # Title:      " ++ present (truthy (Partial.title ast)) cross;
          js "  ! Claim:      " ++ present (truthy (Partial.claim ast)) cross;
          js "  + Evidence:   "
          ++ dec (match Partial.evidence ast with
                  | Some ev => size ev
                  | None => 0
                  end)
          ++ js " items";
          js "  > Insight:    "
          ++ present (truthy (Partial.insight ast)) cross;
          js "  ? Context:    "
          ++ present (truthy (Partial.context ast)) em_dash;
          js "  * Credential: "
          ++ present (truthy (Partial.credential ast)) em_dash;
          js "  @ Source:     "
          ++ present (match Partial.source ast with
                      | Some _ => true
                      | None => false
                      end) cross;
          [] ] in
      let counts :=
        if truthy (Partial.title ast) || truthy (Partial.claim ast)
           || truthy (Partial.insight ast)
        then
          [js "Character Counts:"]
          ++ chars (js "  # Title:    ") (Partial.title ast)
          ++ chars (js "  ! Claim:    ") (Partial.claim ast)
          ++ chars (js "  > Insight:  ") (Partial.insight ast)
          ++ chars (js "  ? Context:  ") (Partial.context ast)
          ++ chars (js "  Total:      ") (output result)
          ++ [[]]
        else [] in
      let warned :=
        block (js "Warnings:") (js "  " ++ warning_sign ++ js " ")
              (warnings result) in
      let report := head ++ shape ++ counts ++ warned in
      match errors result with
      | _ :: _ =>
          Some (mkRun
                  (report
                   ++ block (js "Errors:") (js "  " ++ cross ++ js " ")
                            (errors result)
                   ++ [js "Status: INVALID"])
                  [] None (Some 1))
      | [] => Some (mkRun (report ++ [js "Status: VALID"]) [] None None)
      end
  end.

(** The mark beside the score. *)
Definition scoreEmoji (score : Z) : jsstring :=
  if (80 <=? score)%Z then tick
  else if (60 <=? score)%Z then warning_sign
  else cross.

(** [runAnalyze(text)] *)
Definition runAnalyze (text : jsstring) (lastIndex : nat) : Run :=
  let result := fst (Index.analyze text lastIndex) in
  let st := structure result in
  let head :=
    [ js "LinkedIn Post Analysis";
      js "======================" ++ nl;
      js "Score: " ++ dec_Z (score result) ++ js "/100 "
      ++ scoreEmoji (score result) ++ nl ] in
  let shape :=
    [ js "Structure:";
      js "  Title:      " ++ present (hasTitle st) cross;
      js "  Claim:      " ++ present (hasClaim st) cross;
      js "  Evidence:   " ++ dec (evidenceCount st) ++ js " items "
      ++ present (hasEvidence st) cross;
      js "  Insight:    " ++ present (hasInsight st) cross;
      js "  Source:     " ++ present (hasSource st) cross;
      [] ] in
  let lists :=
    block (js "Issues:") (js "  " ++ cross ++ js " ") (issues result)
    ++ block (js "Warnings:") (js "  " ++ warning_sign ++ js " ")
             (a_warnings result)
    ++ block (js "Suggestions:") (js "  " ++ arrow ++ js " ")
             (suggestions result) in
  if valid result
  then mkRun (head ++ shape ++ lists
              ++ [js "Status: VALID PostLang structure"])
             [] None None
  else mkRun (head ++ shape ++ lists
              ++ [js "Status: Does NOT follow PostLang rules"])
             [] None (Some 1).

(** [args.includes(flag)] *)
Definition given (args : list jsstring) (flag : jsstring) : bool :=
  existsb (fun a => streq a flag) args.

(** [(a) => !a.startsWith('--')] *)
Definition nonFlag (a : jsstring) : bool := negb (startsWith a (js "--")).

(** [x || null] on a string that may be missing. *)
Definition or_null (o : option jsstring) : option jsstring :=
  if truthy o then o else None.

(** [main()], in a new process: the emoji patterns are at index 0, and each
    mode calls [compile] or [analyze] once.  Reading a path of [files] is
    taken to succeed. *)
Definition main (args : list jsstring) (env : Env) : option Run :=
  if match args with [] => true | _ :: _ => false end
     || given args (js "--help") || given args (js "-h")
  then Some (mkRun [usage] [] None (Some 0))
  else if given args (js "--version")
  then Some (mkRun [js "postlang v" ++ version env] [] None (Some 0))
  else
    let validateMode := given args (js "--validate") in
    let analyzeMode := given args (js "--analyze") in
    let stdinMode := given args (js "--stdin") in
    let input : Run + jsstring * option jsstring :=
      if stdinMode then inr (stdin env, None)
      else
        let inputFile := find nonFlag args in
        if negb (truthy inputFile)
        then inl (mkRun [] [js "Error: No input file specified"] None
                        (Some 1))
        else
          let nonFlagArgs := filter nonFlag args in
          let outputFile := or_null (nth_error nonFlagArgs 1) in
          match inputFile with
          | None => inl (mkRun [] [js "Error: No input file specified"] None
                               (Some 1))
          | Some path =>
              match files env path with
              | None =>
                  inl (mkRun [] [js "Error: File not found: " ++ path] None
                             (Some 1))
              | Some text => inr (text, outputFile)
              end
          end in
    match input with
    | inl stop => Some stop
    | inr (source, outputFile) =>
        if validateMode then runValidate source 0
        else if analyzeMode then Some (runAnalyze source 0)
        else
          match fst (Index.compile source 0) with
          | None => None
          | Some result =>
              let warned :=
                block (js "Warnings:") (js "  - ") (warnings result) in
              if negb (success result)
              then Some (mkRun []
                           (warned
                            ++ [js "Compilation failed:"]
                            ++ map (fun e => js "  - " ++ e) (errors result))
                           None (Some 1))
              else
                match outputFile, output result with
                | Some path, Some out =>
                    if truthy outputFile
                    then Some (mkRun [js "Compiled to: " ++ path] warned
                                     (Some (path, out)) None)
                    else Some (mkRun [out] warned None None)
                | Some path, None => None
                | None, Some out => Some (mkRun [out] warned None None)
                | None, None => Some (mkRun [js "undefined"] warned None None)
                end
          end
    end.

End Cli.



(* ================================================================== *)
(** ** The range of the case mapping, and further named parts *)

(** Every scanned member of a document is in the range of [exact_text]. *)
Definition exact_document (ast : Partial.t) : bool :=
  forallb exact_text (scanned ast).


(** The trimmed line begins with a character of the class of [bulletPattern]
    and a white-space character. *)
Definition bullet_line (line : jsstring) : bool :=
  match trim line with
  | c :: w :: _ => bullet_class c && isWhiteSpace w
  | _ => false
  end.

(** A text of three lines, with a hyphen and an asterisk as markers; the same
    with U+2022; and a title followed by a hyphen and a space. *)
Definition dashed_text : jsstring :=
  js "Title" ++ nl ++ js "- first point" ++ nl ++ js "  * second point".

Definition dotted_text : jsstring :=
  js "Title" ++ nl ++ 0x2022 :: js " first point" ++ nl
  ++ 0x2022 :: js " second point".

Definition bare_marker_text : jsstring := js "Title" ++ nl ++ js "- ".

(** The structure [analyze] looks for is all there, and nothing but the
    style of the text can cost points. *)
Definition well_structured (text : jsstring) (lastIndex : nat) : Prop :=
  (exists l rest,
     nonblank_lines text = l :: rest /\ len (trim l) <= 100
     /\ endsWith (trim l) (js "?") = false)
  /\ 2 <= size (nonblank_lines text)
  /\ 2 <= size (filter is_evidence_line (nonblank_lines text))
  /\ test urlPattern text = true
  /\ 3 <= size (nonTagLines text)
  /\ fst (emoji_test text lastIndex) = false
  /\ len text <= 1300.

(** A text with the whole structure, one banned phrase and two exclamation
    marks. *)
Definition loud_text : jsstring :=
  join nl [ js "Title"; js "An exciting claim!!"; js "- 10% faster";
            js "- 20% cheaper"; js "Source: the paper" ].

(** The minimal post under a total limit of 500. *)
Definition capped_minimal : jsstring :=
  minimal_three_segment ++ nl ++ js "^ total 500".

(* ================================================================== *)
(** * Properties *)

Unset Implicit Arguments.

(** ** Lists of messages *)

Lemma in_when (b : bool) (msg m : jsstring) :
  In m (when b msg) <-> b = true /\ msg = m.
Proof.
  destruct b; simpl; intuition congruence.
Qed.

Lemma all_first_nil c : all_first c [].
Proof. intros m []. Qed.

Lemma all_first_when c b msg : first_unit msg = c -> all_first c (when b msg).
Proof.
  intros H m Hin. apply in_when in Hin. destruct Hin as [_ <-]. exact H.
Qed.

Lemma all_first_app c l1 l2 :
  all_first c l1 -> all_first c l2 -> all_first c (l1 ++ l2).
Proof.
  intros H1 H2 m Hin. apply in_app_or in Hin. destruct Hin; auto.
Qed.

Create HintDb msgs.
#[local] Hint Resolve all_first_nil all_first_when all_first_app : msgs.

Lemma required_first ast : all_first 77 (required_errors ast).
Proof.
  unfold required_errors. auto 10 with msgs.
Qed.

Lemma title_first limits ast : all_first 35 (title_errors limits ast).
Proof.
  unfold title_errors. destruct (Partial.title ast) as [[|c t]|]; auto 10 with msgs.
Qed.

Lemma field_length_first c sym field limit :
  all_first c (field_length (c :: sym) field limit).
Proof.
  unfold field_length. destruct field as [[|x s]|]; auto with msgs.
Qed.

Lemma evidence_item_first limit evs :
  forall i, all_first 43 (evidence_item_errors limit i evs).
Proof.
  induction evs as [|ev rest IH]; intros i; simpl; auto with msgs.
Qed.

Lemma evidence_first limits ast : all_first 43 (evidence_errors limits ast).
Proof.
  unfold evidence_errors. destruct (Partial.evidence ast);
    auto using evidence_item_first with msgs.
Qed.

Lemma banned_first text : all_first 66 (banned_errors text).
Proof.
  unfold banned_errors. intros m Hin. apply in_flat_map in Hin.
  destruct Hin as [p [_ Hin]]. apply in_when in Hin. destruct Hin as [_ <-].
  reflexivity.
Qed.

Lemma evidence_item_third limit evs :
  forall i m, In m (evidence_item_errors limit i evs) -> third_unit m = 105.
Proof.
  induction evs as [|ev rest IH]; intros i m Hin; simpl in Hin.
  - destruct Hin.
  - apply in_app_or in Hin. destruct Hin as [Hin|Hin].
    + apply in_when in Hin. destruct Hin as [_ <-]. reflexivity.
    + eapply IH; eauto.
Qed.

(** The errors of [validate], block by block in the order of the pushes. *)
Lemma validate_errors ast li :
  v_errors (fst (validate ast li)) =
  required_errors ast
  ++ title_errors (effective ast) ast
  ++ field_length (js "!") (Partial.claim ast)
                  (PostLangLimits.claim (effective ast))
  ++ evidence_errors (effective ast) ast
  ++ field_length (js ">") (Partial.insight ast)
                  (PostLangLimits.insight (effective ast))
  ++ when (fst (emoji_test (allText ast) li)) emoji_msg
  ++ banned_errors (allText ast)
  ++ when (0 <? count_exclamation (allText ast))
          (exclamation_msg (count_exclamation (allText ast))).
Proof.
  unfold validate, effective. destruct (emoji_test (allText ast) li).
  reflexivity.
Qed.

Lemma validate_warnings ast li :
  v_warnings (fst (validate ast li)) =
  field_length (js "?") (Partial.context ast)
               (PostLangLimits.context (effective ast)).
Proof.
  unfold validate, effective. destruct (emoji_test (allText ast) li).
  reflexivity.
Qed.

(** A message whose first unit is [c] is an error of [validate] only through
    the blocks that push messages starting with [c]. *)
Lemma validate_error_cases ast li m :
  In m (v_errors (fst (validate ast li))) ->
  (first_unit m = 77 /\ In m (required_errors ast))
  \/ (first_unit m = 35 /\ In m (title_errors (effective ast) ast))
  \/ first_unit m = 33
  \/ (first_unit m = 43 /\ In m (evidence_errors (effective ast) ast))
  \/ first_unit m = 62
  \/ first_unit m = 69
  \/ (first_unit m = 66 /\ In m (banned_errors (allText ast))).
Proof.
  rewrite validate_errors. rewrite !in_app_iff.
  intros [H|[H|[H|[H|[H|[H|[H|H]]]]]]].
  - left. split; [apply (required_first _ _ H) | exact H].
  - right; left. split; [apply (title_first _ _ _ H) | exact H].
  - right; right; left.
    exact (field_length_first 33 [] _ _ _ H).
  - right; right; right; left. split; [apply (evidence_first _ _ _ H) | exact H].
  - do 4 right; left. exact (field_length_first 62 [] _ _ _ H).
  - do 5 right; left. apply in_when in H. destruct H as [_ <-]. reflexivity.
  - do 6 right. split; [apply (banned_first _ _ H) | exact H].
  - do 5 right; left. apply in_when in H. destruct H as [_ <-]. reflexivity.
Qed.

Lemma evidence_is_empty_count ast :
  evidence_is_empty (Partial.evidence ast) = true <-> evidence_count ast = O.
Proof.
  unfold evidence_count. destruct (Partial.evidence ast) as [[|ev evs]|];
    simpl; intuition congruence.
Qed.

Lemma in_required ast m :
  In m (required_errors ast) <->
  (truthy (Partial.title ast) = false /\ m = missing_title)
  \/ (truthy (Partial.claim ast) = false /\ m = missing_claim)
  \/ (evidence_count ast = O /\ m = missing_evidence)
  \/ (truthy (Partial.insight ast) = false /\ m = missing_insight)
  \/ (Partial.source ast = None /\ m = missing_source).
Proof.
  unfold required_errors. rewrite !in_app_iff, !in_when, !negb_true_iff.
  rewrite evidence_is_empty_count.
  destruct (Partial.source ast); intuition congruence.
Qed.

(** A message starting with [M] is an error exactly when the block of the
    required fields pushes it. *)
Lemma missing_in_validate ast li m :
  first_unit m = 77 ->
  In m (v_errors (fst (validate ast li))) <-> In m (required_errors ast).
Proof.
  intros Hm. split.
  - intros H. apply validate_error_cases in H.
    destruct H as [[_ H]|[[H _]|[H|[[H _]|[H|[H|[H _]]]]]]];
      try exact H; rewrite Hm in H; discriminate H.
  - intros H. rewrite validate_errors. apply in_or_app. now left.
Qed.

(** Two closed messages that differ are told apart by evaluation. *)
Ltac distinct :=
  match goal with
  | H : _ = _ |- _ => solve [vm_compute in H; discriminate H]
  end.

(** One of the five equivalences between a missing-field message and the
    absence of its field. *)
Ltac missing_field :=
  rewrite missing_in_validate by reflexivity; rewrite in_required;
  split;
  [ let H := fresh "H" in
    intros H;
    repeat (destruct H as [[H ?]|H]; [try distinct; try assumption|]);
    destruct H as [H ?]; try distinct; try assumption
  | let H := fresh "H" in intros H; intuition auto ].

Lemma in_evidence_errors_too_many limits ast :
  In too_many_evidence (evidence_errors limits ast) <->
  (5 < evidence_count ast)%nat.
Proof.
  unfold evidence_errors, evidence_count.
  destruct (Partial.evidence ast) as [evs|]; simpl.
  - rewrite in_app_iff, in_when. unfold size. split.
    + intros [[H _]|H].
      * apply N.ltb_lt in H. lia.
      * apply evidence_item_third in H. vm_compute in H. discriminate H.
    + intros H. left. split; [apply N.ltb_lt; lia | reflexivity].
  - split; [intros [] | lia].
Qed.

(** ** What the matcher captures *)

Lemma star_k_inv (A : Type) p s : forall caps (k : cont A) x,
  star_k p s caps k = Some x ->
  exists s', k s' caps = Some x /\ (List.length s' <= List.length s)%nat.
Proof.
  induction s as [|c s IH]; intros caps k x H; simpl in H.
  - exists []. auto.
  - destruct (p c).
    + destruct (star_k p s caps k) as [y|] eqn:E.
      * injection H as <-. destruct (IH _ _ _ E) as [s' [Hk Hl]].
        exists s'. simpl. split; [exact Hk | lia].
      * exists (c :: s). auto.
    + exists (c :: s). auto.
Qed.

(** A successful match hands its continuation the old captures followed by
    new ones, none of them empty when every group wraps a [+]. *)
Lemma match_k_inv (A : Type) r : plus_groups r = true ->
  forall s caps (k : cont A) x,
    match_k r s caps k = Some x ->
    exists s' new,
      k s' (caps ++ new) = Some x /\ Forall (fun c => c <> []) new.
Proof.
  induction r as [|p|r1 IH1 r2 IH2|r1 IH1 r2 IH2|r1 IH1|p|p|r1 IH1];
    intros Hg s caps k x H; simpl in H.
  - exists s, []. rewrite app_nil_r. auto.
  - destruct s as [|c s]; [discriminate|]. destruct (p c); [|discriminate].
    exists s, []. rewrite app_nil_r. auto.
  - simpl in Hg. apply andb_true_iff in Hg. destruct Hg as [Hg1 Hg2].
    destruct (IH1 Hg1 _ _ _ _ H) as [s1 [n1 [H1 F1]]].
    destruct (IH2 Hg2 _ _ _ _ H1) as [s2 [n2 [H2 F2]]].
    exists s2, (n1 ++ n2). rewrite app_assoc. split; [exact H2|].
    apply Forall_app. auto.
  - simpl in Hg. apply andb_true_iff in Hg. destruct Hg as [Hg1 Hg2].
    destruct (match_k r1 s caps k) as [y|] eqn:E.
    + injection H as <-. eauto.
    + eauto.
  - simpl in Hg. destruct (match_k r1 s caps k) as [y|] eqn:E.
    + injection H as <-. eauto.
    + exists s, []. rewrite app_nil_r. auto.
  - apply star_k_inv in H. destruct H as [s' [H _]].
    exists s', []. rewrite app_nil_r. auto.
  - destruct s as [|c s]; [discriminate|]. destruct (p c); [|discriminate].
    apply star_k_inv in H. destruct H as [s' [H _]].
    exists s', []. rewrite app_nil_r. auto.
  - destruct r1 as [| | | | | |p|]; try discriminate Hg. simpl in H.
    destruct s as [|c s]; [discriminate|]. destruct (p c); [|discriminate].
    apply star_k_inv in H. destruct H as [s' [H Hl]].
    exists s', [firstn (List.length (c :: s) - List.length s') (c :: s)].
    split; [exact H|]. constructor; [|constructor].
    simpl List.length.
    destruct (S (List.length s) - List.length s')%nat eqn:E; [lia|].
    discriminate.
Qed.

Lemma exec_start_nonempty r s caps rest :
  plus_groups r = true -> exec_start r s = Some (caps, rest) ->
  Forall (fun c => c <> []) caps.
Proof.
  intros Hg H. unfold exec_start in H.
  destruct (match_k_inv _ r Hg _ _ _ _ H) as [s' [new [Hk F]]].
  injection Hk as <- _. exact F.
Qed.

Lemma parse_line_no_empty n raw st :
  no_empty_field (fst st) -> no_empty_field (fst (parse_line n raw st)).
Proof.
  destruct st as [ast errs]. unfold parse_line. intros Hinv.
  destruct (trim raw) as [|c rest]; [exact Hinv|].
  destruct (startsWith (c :: rest) (js "//")); [exact Hinv|].
  destruct (chr "^" c).
  { unfold parse_limit.
    destruct (exec_start re_limit (c :: rest))
      as [[[|? [|? [|? ?]]] ?]|]; exact Hinv. }
  repeat match goal with
         | |- context [if chr ?a c then _ else _] => destruct (chr a c)
         end;
    try exact Hinv;
    match goal with
    | |- context [exec_start ?r ?s] =>
        let E := fresh "E" in
        destruct (exec_start r s) as [[[|? [|? [|? [|? ?]]]] ?]|] eqn:E;
          try exact Hinv;
          pose proof (exec_start_nonempty r _ _ _ eq_refl E) as F
    end;
    try exact Hinv;
    inversion F; subst;
    destruct Hinv as [Ia [Ib [Ic Id]]];
    repeat split; simpl; try assumption; congruence.
Qed.

Lemma parse_lines_no_empty lines : forall i st,
  no_empty_field (fst st) -> no_empty_field (fst (parse_lines i lines st)).
Proof.
  induction lines as [|l lines IH]; intros i st H; simpl; [exact H|].
  apply IH. now apply parse_line_no_empty.
Qed.

(** [parse] never stores an empty string: a string member of a parsed
    document is falsy only when it is [undefined]. *)
Lemma parse_no_empty source : no_empty_field (fst (parse source)).
Proof.
  unfold parse. apply parse_lines_no_empty.
  repeat split; discriminate.
Qed.

Lemma truthy_undefined (o : option jsstring) :
  o <> Some [] -> (truthy o = false <-> o = None).
Proof.
  destruct o as [[|c s]|]; simpl; intuition congruence.
Qed.

(** ** Required fields and the evidence bound *)

(** C8: [validate] reports "Missing <symbol> (<name>)" for a required field
    exactly when that field is absent: a string field that is [undefined] or
    empty, an evidence list that is [undefined] or has no item, a source that
    is [undefined].  No missing-field error is reported for a field that is
    present.  In a document that [parse] returns no string is empty, so
    there a string field is absent exactly when it is [undefined]. *)
Theorem C8_missing_field_errors (ast : Partial.t) (li : nat) :
  let errs := v_errors (fst (validate ast li)) in
  (In missing_title errs <-> truthy (Partial.title ast) = false)
  /\ (In missing_claim errs <-> truthy (Partial.claim ast) = false)
  /\ (In missing_evidence errs <-> evidence_count ast = O)
  /\ (In missing_insight errs <-> truthy (Partial.insight ast) = false)
  /\ (In missing_source errs <-> Partial.source ast = None)
  /\ (forall source,
        let parsed := fst (parse source) in
        (truthy (Partial.title parsed) = false
         <-> Partial.title parsed = None)
        /\ (truthy (Partial.claim parsed) = false
            <-> Partial.claim parsed = None)
        /\ (truthy (Partial.insight parsed) = false
            <-> Partial.insight parsed = None)).
Proof.
  cbv zeta.
  split; [missing_field|]. split; [missing_field|].
  split; [missing_field|]. split; [missing_field|].
  split; [missing_field|].
  intros source. destruct (parse_no_empty source) as [Ht [Hc [Hi _]]].
  repeat split; intros H; now apply truthy_undefined in H.
Qed.

(** C6: whatever limits are configured, [validate] reports the error
    "+ limited to 5 items maximum" exactly when the document has more than 5
    evidence items (so not with exactly 5, and with 6 or more), and the
    missing-evidence error exactly when it has none. *)
Theorem C6_evidence_count_bound
        (ast : Partial.t) (limits : option PostLangLimits.t) (li : nat) :
  let errs := v_errors (fst (validate (with_limits limits ast) li)) in
  (In too_many_evidence errs <-> (5 < evidence_count ast)%nat)
  /\ (In missing_evidence errs <-> evidence_count ast = O).
Proof.
  cbv zeta. split.
  - rewrite <- (in_evidence_errors_too_many
                  (effective (with_limits limits ast)) (with_limits limits ast)).
    split.
    + intros H. apply validate_error_cases in H.
      destruct H as [[H _]|[[H _]|[H|[[_ H]|[H|[H|[H _]]]]]]];
        try exact H; vm_compute in H; discriminate H.
    + intros H. rewrite validate_errors. rewrite !in_app_iff. tauto.
  - rewrite missing_in_validate by reflexivity. rewrite in_required.
    change (evidence_count (with_limits limits ast)) with (evidence_count ast).
    split.
    + intros H.
      repeat (destruct H as [[H ?]|H]; [try distinct; try assumption|]).
      destruct H as [_ H]. distinct.
    + intros H. right; right; left. split; [exact H | reflexivity].
Qed.

(** Five items pass the count rule, six do not, none is a missing field. *)
Example evidence_bound_5_6_0 :
  let item := EvidenceItem.mk (js "1%") (js "x") in
  let doc n := Partial.mk None None (Some (repeat item n)) None None None
                          None None in
  ~ In too_many_evidence (v_errors (fst (validate (doc 5%nat) O)))
  /\ In too_many_evidence (v_errors (fst (validate (doc 6%nat) O)))
  /\ In missing_evidence (v_errors (fst (validate (doc 0%nat) O))).
Proof.
  cbv zeta. repeat split.
  - intros H. vm_compute in H. intuition discriminate.
  - vm_compute. intuition.
  - vm_compute. intuition.
Qed.

(** ** Substrings *)

Lemma streq_eq a : forall b, streq a b = true <-> a = b.
Proof.
  induction a as [|x a IH]; intros [|y b]; simpl; try (intuition congruence).
  rewrite andb_true_iff, N.eqb_eq, IH. intuition congruence.
Qed.

Lemma startsWith_spec p : forall s,
  startsWith s p = true <-> exists b, s = p ++ b.
Proof.
  induction p as [|x p IH]; intros s; simpl.
  - split; [intros _; now exists s | reflexivity].
  - destruct s as [|y s].
    + split; [discriminate | intros [b Hb]; discriminate Hb].
    + rewrite andb_true_iff, N.eqb_eq, IH. split.
      * intros [-> [b ->]]. now exists b.
      * intros [b Hb]. injection Hb as -> ->. eauto.
Qed.

Lemma includes_spec p : forall s,
  includes s p = true <-> exists a b, s = a ++ p ++ b.
Proof.
  induction s as [|c s IH]; simpl; rewrite orb_true_iff, startsWith_spec.
  - split.
    + intros [[b Hb]|H]; [exists [], b; exact Hb | discriminate H].
    + intros [a [b H]]. left. destruct a; [eauto | discriminate H].
  - rewrite IH. split.
    + intros [[b Hb]|[a [b Hb]]].
      * exists [], b. exact Hb.
      * exists (c :: a), b. simpl. now rewrite Hb.
    + intros [[|x a] [b Hb]].
      * left. eauto.
      * right. injection Hb as _ ->. eauto.
Qed.



Lemma join_holds sep f : forall l,
  In f l -> exists a b, join sep l = a ++ f ++ b.
Proof.
  induction l as [|x l IH]; intros Hin; [destruct Hin|].
  destruct Hin as [->|Hin].
  - destruct l as [|y l].
    + exists [], []. simpl. now rewrite app_nil_r.
    + exists [], (sep ++ join sep (y :: l)). reflexivity.
  - destruct (IH Hin) as [a [b Hab]]. destruct l as [|y l]; [destruct Hin|].
    exists (x ++ sep ++ a), b.
    change (join sep (x :: y :: l)) with (x ++ sep ++ join sep (y :: l)).
    rewrite Hab. now rewrite <- !app_assoc.
Qed.

Lemma filter_Boolean_keeps c s : forall l,
  In (Some (c :: s)) l -> In (c :: s) (filter_Boolean l).
Proof.
  induction l as [|[[|x t]|] l IH]; simpl; intros Hin;
    try (destruct Hin as [H|H]; [discriminate H | auto]).
  - destruct Hin.
  - destruct Hin as [H|H]; [injection H as -> ->; now left | right; auto].
Qed.


Lemma banned_phrase_shape p :
  In p BANNED_PHRASES -> toLowerCase p = p /\ p <> [].
Proof.
  intros Hin.
  assert (H : forallb (fun q => streq (toLowerCase q) q && negb (streq q []))
                      BANNED_PHRASES = true) by (vm_compute; reflexivity).
  rewrite forallb_forall in H. specialize (H p Hin).
  apply andb_true_iff in H. destruct H as [H1 H2].
  apply streq_eq in H1. split; [exact H1|].
  intros ->. discriminate H2.
Qed.





(** ** Banned phrases *)




(** An instance of what the second half of C3 leaves open: the fields are
    joined by a space before the scan, so a phrase can arise across two
    fields that each are free of it. *)
Example phrase_across_fields :
  let ast := Partial.mk (Some (js "Deep")) (Some (js "dive into data"))
                        (Some []) None None None None None in
  ~ occurs_in_prose (js "deep dive") ast
  /\ In (banned_msg (js "deep dive")) (v_errors (fst (validate ast 0))).
Proof.
  cbv zeta. split.
  - intros [[s [E H]]|[[s [E H]]|[[s [E H]]|[[s [E H]]|H]]]];
      try (injection E as <-; vm_compute in H; discriminate H);
      try discriminate E.
    destruct H as [evs [ev [E [Hin _]]]]. injection E as <-. destruct Hin.
  - vm_compute. tauto.
Qed.

(** ** The pipeline *)

Lemma app_nil_both {A : Type} (l1 l2 : list A) :
  l1 ++ l2 = [] -> l1 = [] /\ l2 = [].
Proof.
  destruct l1; simpl; [auto | discriminate].
Qed.

Lemma required_nil_cast ast :
  required_errors ast = [] -> exists full, as_PostLangAST ast = Some full.
Proof.
  unfold required_errors, as_PostLangAST.
  destruct (Partial.title ast) as [[|? ?]|]; try discriminate;
    destruct (Partial.claim ast) as [[|? ?]|]; try discriminate;
    destruct (Partial.evidence ast) as [[|? ?]|]; try discriminate;
    destruct (Partial.insight ast) as [[|? ?]|]; try discriminate;
    destruct (Partial.source ast); try discriminate; eauto.
Qed.

Lemma validate_ok_cast ast li :
  v_errors (fst (validate ast li)) = [] ->
  exists full, as_PostLangAST ast = Some full.
Proof.
  rewrite validate_errors. intros H. apply app_nil_both in H.
  apply required_nil_cast. tauto.
Qed.

(** [compile] returns a result on every source: the cast before [generate]
    never meets a missing member. *)
Lemma compile_returns source li :
  exists r, fst (compile source li) = Some r.
Proof.
  unfold compile. destruct (parse source) as [ast [|e errs]]; [|simpl; eauto].
  destruct (validate ast li) as [v li'] eqn:E.
  destruct (v_errors v) as [|e errs] eqn:Ev; [|simpl; eauto].
  destruct (validate_ok_cast ast li) as [full ->].
  - rewrite E. exact Ev.
  - destruct (exceeds _ _); simpl; eauto.
Qed.

(** C4: when [parse] returns errors, [compile] returns [success = false]
    with exactly those errors and no warning, and [validate] is not run: the
    [lastIndex] that [validate] would move is the one [compile] was entered
    with. *)
Theorem C4_parse_errors_stop_compile (source : jsstring) (li : nat) :
  snd (parse source) <> [] ->
  compile source li =
  (Some (mkCompileResult false None (snd (parse source)) []), li).
Proof.
  intros H. unfold compile. destruct (parse source) as [ast [|e errs]].
  - now contradiction H.
  - reflexivity.
Qed.

Lemma C4_parse_errors_stop_compile_witness :
  snd (parse minimal_two_segment) <> []
  /\ compile minimal_two_segment 7 =
     (Some (mkCompileResult false None (snd (parse minimal_two_segment)) []),
      7%nat).
Proof.
  assert (H : snd (parse minimal_two_segment) <> [])
    by (vm_compute; discriminate).
  split; [exact H|].
  exact (C4_parse_errors_stop_compile minimal_two_segment 7 H).
Defined.

(** The message of the context warning. *)
Lemma context_warning_not_error ast li limit n :
  ~ In (exceeds_msg (js "?") limit n) (v_errors (fst (validate ast li))).
Proof.
  intros H. apply validate_error_cases in H.
  change (first_unit (exceeds_msg (js "?") limit n)) with 63 in H.
  destruct H as [[H _]|[[H _]|[H|[[H _]|[H|[H|[H _]]]]]]]; discriminate H.
Qed.

(** C5: a context longer than the effective context limit is reported by
    [validate] as a warning and not as an error, and it does not stop
    [compile]: a source that parses without error, whose document has no
    validation error and whose output is within the total limit compiles
    with [success = true] and carries that warning. *)
Theorem C5_context_limit_warns
        (source : jsstring) (li : nat) (ast : Partial.t) (ctx : jsstring) :
  let limit := PostLangLimits.context (effective ast) in
  let warning := exceeds_msg (js "?") limit (len ctx) in
  Partial.context ast = Some ctx ->
  exceeds (len ctx) limit = true ->
  v_warnings (fst (validate ast li)) = [warning]
  /\ ~ In warning (v_errors (fst (validate ast li)))
  /\ (parse source = (ast, []) ->
      v_errors (fst (validate ast li)) = [] ->
      (forall full, as_PostLangAST ast = Some full ->
                    exceeds (len (generate full))
                            (PostLangLimits.total (effective ast)) = false) ->
      exists full,
        as_PostLangAST ast = Some full
        /\ compile source li =
           (Some (mkCompileResult true (Some (generate full)) [] [warning]),
            snd (validate ast li))).
Proof.
  cbv zeta. intros Hctx Hlong.
  assert (Hw : v_warnings (fst (validate ast li)) =
               [exceeds_msg (js "?") (PostLangLimits.context (effective ast))
                            (len ctx)]).
  { rewrite validate_warnings. unfold field_length. rewrite Hctx.
    destruct ctx as [|c s].
    - destruct (PostLangLimits.context (effective ast)) as [l|];
        [|discriminate Hlong].
      apply N.ltb_lt in Hlong. change (len []) with 0 in Hlong. lia.
    - rewrite Hlong. reflexivity. }
  split; [exact Hw|]. split; [apply context_warning_not_error|].
  intros Hparse Hok Htotal.
  destruct (validate_ok_cast ast li Hok) as [full Hfull].
  exists full. split; [exact Hfull|].
  unfold compile. rewrite Hparse.
  destruct (validate ast li) as [v li'] eqn:E. simpl in Hok, Hw |- *.
  rewrite Hok, Hfull. fold (effective ast). rewrite (Htotal full Hfull).
  now rewrite Hw.
Qed.

Lemma C5_context_limit_warns_witness :
  let ast := fst (parse long_context) in
  let ctx := js "Background info" in
  let warning :=
    exceeds_msg (js "?") (PostLangLimits.context (effective ast)) (len ctx) in
  (Partial.context ast = Some ctx
   /\ exceeds (len ctx) (PostLangLimits.context (effective ast)) = true
   /\ parse long_context = (ast, [])
   /\ v_errors (fst (validate ast 0)) = [])
  /\ v_warnings (fst (validate ast 0)) = [warning]
  /\ ~ In warning (v_errors (fst (validate ast 0)))
  /\ exists full,
       as_PostLangAST ast = Some full
       /\ compile long_context 0 =
          (Some (mkCompileResult true (Some (generate full)) [] [warning]),
           snd (validate ast 0)).
Proof.
  cbv zeta.
  assert (H1 : Partial.context (fst (parse long_context))
               = Some (js "Background info")) by (vm_compute; reflexivity).
  assert (H2 : exceeds (len (js "Background info"))
                 (PostLangLimits.context (effective (fst (parse long_context))))
               = true) by (vm_compute; reflexivity).
  assert (H3 : parse long_context = (fst (parse long_context), []))
    by (vm_compute; reflexivity).
  assert (H4 : v_errors (fst (validate (fst (parse long_context)) 0)) = [])
    by (vm_compute; reflexivity).
  assert (H5 : forall full,
             as_PostLangAST (fst (parse long_context)) = Some full ->
             exceeds (len (generate full))
               (PostLangLimits.total (effective (fst (parse long_context))))
             = false).
  { intros full Hfull. vm_compute in Hfull. injection Hfull as <-.
    vm_compute. reflexivity. }
  destruct (C5_context_limit_warns long_context 0 (fst (parse long_context))
              (js "Background info") H1 H2) as [Hw [Hn Hc]].
  split; [tauto|]. split; [exact Hw|]. split; [exact Hn|].
  exact (Hc H3 H4 H5).
Defined.

(** The same scenario, evaluated: the post compiles and carries the warning
    "? exceeds 5 chars (has 15)". *)
Example long_context_compiles :
  exists out,
    compile long_context 0 =
    (Some (mkCompileResult true (Some out) []
             [js "? exceeds 5 chars (has 15)"]), 0%nat).
Proof.
  eexists. vm_compute. reflexivity.
Qed.

(** The total-length check is a gate of its own: the context is part of
    the output, and a context long enough to carry the output over the total
    limit fails there, with the context warning still attached. *)
Example huge_context_exceeds_total :
  fst (compile huge_context 0)
  = Some (mkCompileResult false None
            [js "Output exceeds 700 chars (has 798)"]
            [js "? exceeds 5 chars (has 700)"]).
Proof.
  vm_compute. reflexivity.
Qed.

(** ** Limit directives *)

Lemma parse_line_directive n raw ast errs k v :
  directive raw = Some (k, v) ->
  parse_line n raw (ast, errs) =
  (Partial.set_limits
     (if existsb (streq k) RECOGNISED_KEYS
      then set_limit k v (limits_or_empty ast) else limits_or_empty ast)
     ast, errs).
Proof.
  unfold directive, parse_line, parse_limit, limits_or_empty.
  destruct (trim raw) as [|c rest]; [discriminate|].
  destruct (startsWith (c :: rest) (js "//")); [discriminate|].
  destruct (chr "^" c); [|discriminate].
  destruct (exec_start re_limit (c :: rest))
    as [[[|k' [|v' [|x caps]]] rest']|]; try discriminate.
  intros H. injection H as <- <-. reflexivity.
Qed.

Lemma parse_line_other n raw st :
  directive raw = None ->
  Partial.limits (fst (parse_line n raw st)) = Partial.limits (fst st).
Proof.
  destruct st as [ast errs].
  unfold directive, parse_line, parse_limit.
  destruct (trim raw) as [|c rest]; [reflexivity|].
  destruct (startsWith (c :: rest) (js "//")); [reflexivity|].
  destruct (chr "^" c).
  - destruct (exec_start re_limit (c :: rest))
      as [[[|k' [|v' [|x caps]]] rest']|]; try reflexivity; discriminate.
  - intros _.
    repeat match goal with
           | |- context [if chr ?a c then _ else _] => destruct (chr a c)
           end;
      try reflexivity;
      match goal with
      | |- context [exec_start ?r ?s] =>
          destruct (exec_start r s) as [[[|? [|? [|? [|? ?]]]] ?]|]
      end; reflexivity.
Qed.

Lemma effective_limits_or_empty ast :
  PostLangLimits.spread DEFAULT_LIMITS (Some (limits_or_empty ast))
  = effective ast.
Proof.
  unfold effective, limits_or_empty. now destruct (Partial.limits ast).
Qed.

Lemma recognised_cases key :
  In key RECOGNISED_KEYS ->
  key = js "title" \/ key = js "claim" \/ key = js "evidence"
  \/ key = js "insight" \/ key = js "context" \/ key = js "total".
Proof.
  simpl. intuition auto.
Qed.

Lemma get_set_same key v l :
  In key RECOGNISED_KEYS ->
  get_limit key (PostLangLimits.spread DEFAULT_LIMITS (Some (set_limit key v l)))
  = Some v.
Proof.
  intros H. apply recognised_cases in H. destruct l.
  destruct H as [-> | [-> | [-> | [-> | [-> | ->]]]]]; reflexivity.
Qed.

Lemma get_set_other key k v l :
  In key RECOGNISED_KEYS -> k <> key ->
  get_limit key (PostLangLimits.spread DEFAULT_LIMITS (Some (set_limit k v l)))
  = get_limit key (PostLangLimits.spread DEFAULT_LIMITS (Some l)).
Proof.
  intros H Hne. apply recognised_cases in H. unfold set_limit. destruct l.
  repeat match goal with
         | |- context [streq k ?b] =>
             let E := fresh "E" in
             destruct (streq k b) eqn:E; [apply streq_eq in E|]
         end;
    try reflexivity;
    destruct H as [-> | [-> | [-> | [-> | [-> | ->]]]]];
    try reflexivity; congruence.
Qed.

Lemma effective_set_limits l ast :
  effective (Partial.set_limits l ast)
  = PostLangLimits.spread DEFAULT_LIMITS (Some l).
Proof. reflexivity. Qed.

(** A line leaves the effective limit of [key] alone unless it is a
    directive naming [key]. *)
Lemma parse_line_keeps key n raw st :
  In key RECOGNISED_KEYS ->
  (forall v, directive raw <> Some (key, v)) ->
  get_limit key (effective (fst (parse_line n raw st)))
  = get_limit key (effective (fst st)).
Proof.
  intros Hkey Hother. destruct (directive raw) as [[k v]|] eqn:E.
  - destruct st as [ast errs]. rewrite (parse_line_directive _ _ _ _ _ _ E).
    cbn [fst]. rewrite effective_set_limits.
    destruct (existsb (streq k) RECOGNISED_KEYS).
    + rewrite get_set_other; [now rewrite effective_limits_or_empty|exact Hkey|].
      intros ->. now apply (Hother v).
    + now rewrite effective_limits_or_empty.
  - unfold effective. now rewrite parse_line_other.
Qed.

Lemma parse_lines_app l1 : forall l2 i st,
  parse_lines i (l1 ++ l2) st
  = parse_lines (i + size l1) l2 (parse_lines i l1 st).
Proof.
  induction l1 as [|l l1 IH]; intros l2 i st; simpl.
  - now rewrite N.add_0_r.
  - rewrite IH. f_equal. unfold size. simpl List.length. lia.
Qed.

Lemma parse_lines_keep key post : forall i st,
  In key RECOGNISED_KEYS ->
  (forall l v, In l post -> directive l <> Some (key, v)) ->
  get_limit key (effective (fst (parse_lines i post st)))
  = get_limit key (effective (fst st)).
Proof.
  induction post as [|l post IH]; intros i st Hkey Hother; [reflexivity|].
  simpl. rewrite IH; [|exact Hkey|intros l' v Hin; apply Hother; now right].
  apply parse_line_keeps; [exact Hkey|].
  intros v. apply Hother. now left.
Qed.

Lemma compile_total_check source li ast full :
  parse source = (ast, []) ->
  v_errors (fst (validate ast li)) = [] ->
  as_PostLangAST ast = Some full ->
  exists r,
    fst (compile source li) = Some r
    /\ success r = negb (exceeds (len (generate full))
                                 (get_limit (js "total") (effective ast))).
Proof.
  intros Hparse Hok Hfull. unfold compile. rewrite Hparse.
  destruct (validate ast li) as [v li'] eqn:E. simpl in Hok.
  rewrite Hok, Hfull. fold (effective ast).
  change (get_limit (js "total") (effective ast))
    with (PostLangLimits.total (effective ast)).
  destruct (exceeds _ _); simpl; eauto.
Qed.

(** A directive naming a recognised key, followed only by lines that do not
    name that key, fixes the effective limit of the key. *)
Lemma last_directive_wins key v pre raw post i st :
  In key RECOGNISED_KEYS ->
  directive raw = Some (key, v) ->
  (forall l v', In l post -> directive l <> Some (key, v')) ->
  get_limit key (effective (fst (parse_lines i (pre ++ raw :: post) st)))
  = Some v.
Proof.
  intros Hkey Hraw Hpost.
  rewrite parse_lines_app. simpl parse_lines.
  rewrite parse_lines_keep by assumption.
  destruct (parse_lines i pre st) as [ast errs].
  rewrite (parse_line_directive _ _ _ _ _ _ Hraw). cbn [fst].
  rewrite effective_set_limits.
  assert (Hrec : existsb (streq key) RECOGNISED_KEYS = true).
  { apply existsb_exists. exists key. split; [exact Hkey|].
    now apply streq_eq. }
  rewrite Hrec. now apply get_set_same.
Qed.

Lemma total_of_last_directive source pre raw post v :
  split_nl source = pre ++ raw :: post ->
  directive raw = Some (js "total", v) ->
  (forall l v', In l post -> directive l <> Some (js "total", v')) ->
  PostLangLimits.total (effective (fst (parse source))) = Some v.
Proof.
  intros Hs Hraw Hpost. unfold parse. rewrite Hs.
  change (PostLangLimits.total
            (effective (fst (parse_lines 0 (pre ++ raw :: post)
                                         (initial_ast, [])))))
    with (get_limit (js "total")
            (effective (fst (parse_lines 0 (pre ++ raw :: post)
                                         (initial_ast, []))))).
  apply last_directive_wins; [|exact Hraw|exact Hpost].
  do 5 right. left. reflexivity.
Qed.

Lemma total_by_default source :
  (forall l v, In l (split_nl source) -> directive l <> Some (js "total", v)) ->
  PostLangLimits.total (effective (fst (parse source))) = Some 700.
Proof.
  intros Hnone. unfold parse.
  change (PostLangLimits.total
            (effective (fst (parse_lines 0 (split_nl source)
                                         (initial_ast, [])))))
    with (get_limit (js "total")
            (effective (fst (parse_lines 0 (split_nl source)
                                         (initial_ast, []))))).
  rewrite parse_lines_keep; [reflexivity| |exact Hnone].
  do 5 right. left. reflexivity.
Qed.

(** The total-length check of [compile] under a known total limit. *)
Lemma compile_under_total source li limit :
  PostLangLimits.total (effective (fst (parse source))) = Some limit ->
  snd (parse source) = [] ->
  v_errors (fst (validate (fst (parse source)) li)) = [] ->
  exists full,
    as_PostLangAST (fst (parse source)) = Some full
    /\ (len (generate full) <= limit ->
        fst (compile source li)
        = Some (mkCompileResult true (Some (generate full)) []
                  (v_warnings (fst (validate (fst (parse source)) li)))))
    /\ (limit < len (generate full) ->
        fst (compile source li)
        = Some (mkCompileResult false None
                  [js "Output exceeds " ++ dec limit ++ js " chars (has "
                   ++ dec (len (generate full)) ++ js ")"]
                  (v_warnings (fst (validate (fst (parse source)) li))))).
Proof.
  intros Hl Hp Hv. unfold compile.
  destruct (parse source) as [ast errs]. cbn [fst snd] in *. subst errs.
  destruct (validate_ok_cast ast li Hv) as [full Hf].
  destruct (validate ast li) as [v li'] eqn:E. cbn [fst] in *.
  rewrite Hv, Hf. fold (effective ast). rewrite Hl. cbn [exceeds].
  exists full. split; [reflexivity|]. split; intros H.
  - apply N.ltb_ge in H. now rewrite H.
  - apply N.ltb_lt in H. now rewrite H.
Qed.

(** C7: the total limit is 700 by default and the line [^ total 500] is a
    directive for the key [total] with the value 500.  After any lines, a
    directive naming a recognised key with a value up to 2^53, followed only
    by lines that do not name that key, fixes the effective limit of the key
    (so the last directive seen wins).  A directive with an unrecognised
    key, such as [^ foo 10], adds no error and changes no effective limit.
    In [compile], a source that parses and validates without error and whose
    last directive for [total] has the value [v] succeeds with the generated
    text when that text has at most [v] characters and fails with the single
    error "Output exceeds v chars (has n)" when it has more; with no
    directive for [total] the same holds with 700. *)
Theorem C7_limit_directives :
  (get_limit (js "total") (effective initial_ast) = Some 700
   /\ directive (js "^ total 500") = Some (js "total", 500)
   /\ directive (js "^ foo 10") = Some (js "foo", 10))
  /\ (forall key v pre raw post i st,
        In key RECOGNISED_KEYS ->
        directive raw = Some (key, v) ->
        v <= MAX_EXACT ->
        (forall l v', In l post -> directive l <> Some (key, v')) ->
        get_limit key
          (effective (fst (parse_lines i (pre ++ raw :: post) st))) = Some v)
  /\ (forall k v n raw ast errs,
        directive raw = Some (k, v) ->
        existsb (streq k) RECOGNISED_KEYS = false ->
        parse_line n raw (ast, errs)
        = (Partial.set_limits (limits_or_empty ast) ast, errs)
        /\ effective (fst (parse_line n raw (ast, errs))) = effective ast)
  /\ (forall source li pre raw post v,
        split_nl source = pre ++ raw :: post ->
        directive raw = Some (js "total", v) ->
        v <= MAX_EXACT ->
        (forall l v', In l post -> directive l <> Some (js "total", v')) ->
        snd (parse source) = [] ->
        v_errors (fst (validate (fst (parse source)) li)) = [] ->
        exists full,
          as_PostLangAST (fst (parse source)) = Some full
          /\ (len (generate full) <= v ->
              fst (compile source li)
              = Some (mkCompileResult true (Some (generate full)) []
                        (v_warnings (fst (validate (fst (parse source)) li)))))
          /\ (v < len (generate full) ->
              fst (compile source li)
              = Some (mkCompileResult false None
                        [js "Output exceeds " ++ dec v ++ js " chars (has "
                         ++ dec (len (generate full)) ++ js ")"]
                        (v_warnings (fst (validate (fst (parse source)) li))))))
  /\ (forall source li,
        (forall l v,
           In l (split_nl source) -> directive l <> Some (js "total", v)) ->
        snd (parse source) = [] ->
        v_errors (fst (validate (fst (parse source)) li)) = [] ->
        exists full,
          as_PostLangAST (fst (parse source)) = Some full
          /\ (len (generate full) <= 700 ->
              fst (compile source li)
              = Some (mkCompileResult true (Some (generate full)) []
                        (v_warnings (fst (validate (fst (parse source)) li)))))
          /\ (700 < len (generate full) ->
              fst (compile source li)
              = Some (mkCompileResult false None
                        [js "Output exceeds " ++ dec 700 ++ js " chars (has "
                         ++ dec (len (generate full)) ++ js ")"]
                        (v_warnings
                           (fst (validate (fst (parse source)) li)))))).
Proof.
  split; [repeat split; vm_compute; reflexivity|].
  split; [|split; [|split]].
  - intros key v pre raw post i st Hkey Hraw _ Hpost.
    now apply last_directive_wins.
  - intros k v n raw ast errs Hraw Hk.
    rewrite (parse_line_directive _ _ _ _ _ _ Hraw), Hk. split; [reflexivity|].
    cbn [fst]. rewrite effective_set_limits.
    apply effective_limits_or_empty.
  - intros source li pre raw post v Hs Hraw _ Hpost Hp Hv.
    apply compile_under_total; [|exact Hp|exact Hv].
    now apply (total_of_last_directive source pre raw post).
  - intros source li Hnone Hp Hv.
    apply compile_under_total; [|exact Hp|exact Hv].
    now apply total_by_default.
Qed.

(** The post of 616 characters of [wordy]: under [^ total 500] followed by
    directives for other keys it fails with the error of the total limit,
    under no directive it compiles, and of three directives the last one
    for the key decides. *)
Lemma C7_limit_directives_witness :
  get_limit (js "total")
    (effective
       (fst (parse_lines 0
               ([js "^ total 500"; js "^ title 9"]
                ++ js "^ TOTAL 300" :: [js "^ foo 10"; js "^ claim 7"])
               (initial_ast, [])))) = Some 300
  /\ parse_line 1 (js "^ foo 10") (initial_ast, [])
     = (Partial.set_limits (limits_or_empty initial_ast) initial_ast, [])
  /\ effective (fst (parse_line 1 (js "^ foo 10") (initial_ast, [])))
     = effective initial_ast
  /\ fst (compile (wordy [js "^ total 500"; js "^ foo 10"]) 0)
     = Some (mkCompileResult false None
               [js "Output exceeds 500 chars (has 616)"] [])
  /\ option_map success (fst (compile (wordy []) 0)) = Some true.
Proof.
  destruct C7_limit_directives as [_ [Hlast [Hfoo [Htotal Hdefault]]]].
  split; [|split; [|split; [|split]]].
  - apply (Hlast (js "total") 300).
    + do 5 right. left. reflexivity.
    + vm_compute. reflexivity.
    + vm_compute. discriminate.
    + intros l v' [<-|[<-|[]]]; vm_compute; discriminate.
  - apply (Hfoo (js "foo") 10); vm_compute; reflexivity.
  - apply (Hfoo (js "foo") 10); vm_compute; reflexivity.
  - destruct (Htotal (wordy [js "^ total 500"; js "^ foo 10"]) 0%nat []
                     (js "^ total 500")
                     (tl (split_nl (wordy [js "^ total 500";
                                           js "^ foo 10"])))
                     500)
      as [full [Hfull [_ Hfail]]].
    + vm_compute. reflexivity.
    + vm_compute. reflexivity.
    + vm_compute. discriminate.
    + intros l v' Hin.
      vm_compute in Hin.
      repeat (destruct Hin as [<-|Hin]; [vm_compute; discriminate|]).
      destruct Hin.
    + vm_compute. reflexivity.
    + vm_compute. reflexivity.
    + vm_compute in Hfull. injection Hfull as <-.
      rewrite Hfail by (vm_compute; reflexivity).
      vm_compute. reflexivity.
  - destruct (Hdefault (wordy []) 0%nat) as [full [Hfull [Hok _]]].
    + intros l v Hin. vm_compute in Hin.
      repeat (destruct Hin as [<-|Hin]; [vm_compute; discriminate|]).
      destruct Hin.
    + vm_compute. reflexivity.
    + vm_compute. reflexivity.
    + vm_compute in Hfull. injection Hfull as <-.
      rewrite Hok by (vm_compute; discriminate).
      reflexivity.
Defined.

(** The scenario of the total limit, evaluated: the post of 616 characters
    compiles under the default limit and fails under [^ total 500]; putting
    [^ total 900] after it lets it pass again. *)
Example total_limit_scenario :
  (exists out, fst (compile (wordy []) 0)
               = Some (mkCompileResult true (Some out) [] []))
  /\ fst (compile (wordy [js "^ total 500"]) 0)
     = Some (mkCompileResult false None
               [js "Output exceeds 500 chars (has 616)"] [])
  /\ (exists out, fst (compile (wordy [js "^ total 500"; js "^ total 900"]) 0)
                  = Some (mkCompileResult true (Some out) [] [])).
Proof.
  split; [|split].
  - eexists. vm_compute. reflexivity.
  - vm_compute. reflexivity.
  - eexists. vm_compute. reflexivity.
Qed.

(** ** The emoji pattern on text without emojis *)

Lemma scan_plain s : forall pos,
  forallb plain s = true -> scan_emoji s pos = None.
Proof.
  induction s as [|c s IH]; intros pos H; [reflexivity|].
  simpl in H. apply andb_true_iff in H. destruct H as [Hc Hs].
  unfold plain in Hc. apply andb_true_iff in Hc. destruct Hc as [He Hl].
  apply negb_true_iff in He, Hl.
  simpl. rewrite Hl, He. simpl. destruct s as [|d s']; [reflexivity|].
  now apply IH.
Qed.

Lemma forallb_skipn {A : Type} (p : A -> bool) n : forall s,
  forallb p s = true -> forallb p (skipn n s) = true.
Proof.
  induction n as [|n IH]; intros [|c s] H; simpl; auto.
  simpl in H. apply andb_true_iff in H. now apply IH.
Qed.

Lemma emoji_test_plain s li :
  forallb plain s = true -> emoji_test s li = (false, O).
Proof.
  intros H. unfold emoji_test. destruct (List.length s <? li)%nat;
    [reflexivity|].
  now rewrite scan_plain by (now apply forallb_skipn).
Qed.

(** ** The minimal post *)

Lemma parse_minimal_three_segment :
  parse minimal_three_segment = (document (js "Title") None plain_source, []).
Proof. vm_compute. reflexivity. Qed.

Lemma parse_minimal_two_segment :
  parse minimal_two_segment
  = (Partial.mk (Some (js "Title")) (Some (js "Claim"))
                (Some [EvidenceItem.mk (js "10%") (js "improvement")])
                (Some (js "Insight")) None None None None,
     [invalid 5 (js "source") usage_source]).
Proof. vm_compute. reflexivity. Qed.

(** C1, as the code has it: the source directive needs its third segment.
    The five lines of the minimal post with the source line
    [@ "Source" | https://example.com | "peer reviewed"] compile to the
    canonical output, whose last line is [example.com]; with the source line
    of a title and a URL only, [parse] reports "Line 5: Invalid source" and
    [compile] fails with that one error. *)
Theorem C1_minimal_post_needs_credibility (li : nat) :
  compile minimal_three_segment li
  = (Some (mkCompileResult true (Some minimal_output) [] []), O)
  /\ last (split_nl minimal_output) [] = js "example.com"
  /\ compile minimal_two_segment li
     = (Some (mkCompileResult false None
                [js "Line 5: Invalid source. Use @ " ++ quote (js "Title")
                 ++ js " | url | " ++ quote (js "why this source is credible")]
                []), li).
Proof.
  split; [|split].
  - unfold compile. rewrite parse_minimal_three_segment.
    unfold validate. rewrite emoji_test_plain by (vm_compute; reflexivity).
    vm_compute. reflexivity.
  - vm_compute. reflexivity.
  - unfold compile. rewrite parse_minimal_two_segment. reflexivity.
Qed.

(** The minimal post of the claim does not compile. *)
Lemma C1_two_segment_source_rejected :
  option_map success (fst (compile minimal_two_segment 0)) = Some false
  /\ snd (parse minimal_two_segment) = [invalid 5 (js "source") usage_source].
Proof.
  split; vm_compute; reflexivity.
Qed.

(** ** The analyzer on the generator's output *)

Lemma minimal_ast_is_parsed :
  as_PostLangAST (fst (parse minimal_three_segment)) = Some minimal_ast
  /\ generate minimal_ast = minimal_output.
Proof.
  split; vm_compute; reflexivity.
Qed.

(** C2, as the code has it: on the text that [generate] produces for the
    minimal post, [analyze] answers [valid = true] with title, claim,
    evidence, insight and source detected, but the single evidence line
    costs 5 points and a warning: the score is 95. *)
Theorem C2_analyze_minimal_output (li : nat) :
  analyze (generate minimal_ast) li
  = (mkAnalysisResult true 95
       (mkStructure true true true 1 true true) []
       [js "Only 1 evidence point - consider adding more"] [], O).
Proof.
  unfold analyze. rewrite emoji_test_plain by (vm_compute; reflexivity).
  vm_compute. reflexivity.
Qed.

(** The score of the claim is not reached. *)
Lemma C2_score_is_not_100 :
  score (fst (analyze (generate minimal_ast) 0)) <> 100%Z.
Proof.
  vm_compute. discriminate.
Qed.

(** ** [lastIndex] across calls *)

(** C9 fails on the code: [EMOJI_REGEX] carries the [g] flag, so a call of
    [compile] that finds an emoji leaves [lastIndex] behind it, and the next
    call on the same source starts its search there.  On the post [sunny]
    the first call reports the emoji and the second one succeeds. *)
Theorem C9_second_compile_differs :
  compile sunny 0
  = (Some (mkCompileResult false None [emoji_msg] []), 7%nat)
  /\ compile sunny 7
     = (Some (mkCompileResult true (Some sunny_output) [] []), O)
  /\ fst (compile sunny 0) <> fst (compile sunny (snd (compile sunny 0))).
Proof.
  split; [|split]; vm_compute; try reflexivity. discriminate.
Qed.

(** The state only matters through the emoji search: on a source whose
    scanned text holds no code unit of the emoji class and no surrogate,
    [compile] answers the same from every [lastIndex] and leaves it at 0. *)
Lemma compile_plain_text source li :
  forallb plain (allText (fst (parse source))) = true ->
  compile source li = (fst (compile source 0), snd (compile source li))
  /\ (snd (parse source) = [] -> snd (compile source li) = O).
Proof.
  intros H. unfold compile. destruct (parse source) as [ast [|e errs]].
  - simpl in H. unfold validate.
    rewrite !(emoji_test_plain _ _ H).
    split; [|intros _];
      repeat match goal with
             | |- context [match ?x with _ => _ end] => destruct x
             end; reflexivity.
  - split; [reflexivity | discriminate].
Qed.

(** ** Bullet lines in the analyzer *)

Lemma analyze_evidence_count text li :
  evidenceCount (structure (fst (analyze text li)))
  = size (filter is_evidence_line (nonblank_lines text)).
Proof.
  unfold analyze. destruct (emoji_test text li). reflexivity.
Qed.

Lemma bullet_class_spec c :
  bullet_class c = true <->
  c = 0x2D \/ c = 0xE2 \/ c = 0x20AC \/ c = 0xA2 \/ c = 0x2A.
Proof.
  unfold bullet_class. rewrite !orb_true_iff, !N.eqb_eq. tauto.
Qed.

(** A marker with nothing but white space after it is trimmed to the bare
    marker, which the pattern does not match. *)
Example bare_marker_not_counted :
  is_evidence_line (js "-  ") = false
  /\ is_evidence_line (js "  - x") = true.
Proof.
  split; vm_compute; reflexivity.
Qed.

(** Two hyphen or asterisk bullets are two evidence points; two U+2022
    bullets are none. *)
Example bullets_counted :
  let dashes := js "Title" ++ nl ++ js "- first point" ++ nl
                ++ js "* second point" in
  let dots := js "Title" ++ nl ++ 0x2022 :: js " first point" ++ nl
              ++ 0x2022 :: js " second point" in
  evidenceCount (structure (fst (analyze dashes 0))) = 2
  /\ evidenceCount (structure (fst (analyze dots 0))) = 0
  /\ hasEvidence (structure (fst (analyze dots 0))) = false.
Proof.
  cbv zeta. repeat split; vm_compute; reflexivity.
Qed.

(* ================================================================== *)
(** * Further properties of the parser *)

(** The case analysis of one turn of the loop: the trimmed line, the comment
    test, the symbol and the outcome of the pattern of that symbol. *)
Ltac parse_line_cases c rest :=
  unfold parse_line, parse_limit;
  destruct (trim _) as [|c rest] eqn:?;
  [|destruct (startsWith (c :: rest) (js "//")) eqn:?;
    [|destruct (chr "^" c) eqn:?;
      [destruct (exec_start re_limit (c :: rest))
         as [[[|? [|? [|? ?]]] ?]|] eqn:?
      |repeat match goal with
              | |- context [if chr ?a c then _ else _] =>
                  destruct (chr a c) eqn:?
              end;
       try match goal with
           | |- context [exec_start ?r ?s] =>
               destruct (exec_start r s)
                 as [[[|? [|? [|? [|? ?]]]] ?]|] eqn:?
           end]]].

Lemma parse_line_errors n raw ast errs :
  snd (parse_line n raw (ast, errs)) = errs ++ line_errors n raw.
Proof.
  unfold line_errors, line_alone.
  parse_line_cases c rest; simpl; now rewrite ?app_nil_r.
Qed.

Lemma parse_lines_errors lines : forall i ast errs,
  snd (parse_lines i lines (ast, errs))
  = errs ++ flat_map (fun nl => line_errors (fst nl) (snd nl))
                     (number_from i lines).
Proof.
  induction lines as [|l lines IH]; intros i ast errs;
    cbn [parse_lines number_from flat_map fst snd].
  - now rewrite app_nil_r.
  - destruct (parse_line (i + 1) l (ast, errs)) as [ast' errs'] eqn:E.
    rewrite IH. pose proof (parse_line_errors (i + 1) l ast errs) as H.
    rewrite E in H. simpl in H. rewrite H. now rewrite app_assoc.
Qed.

Lemma line_errors_shape n raw :
  line_errors n raw = []
  \/ exists sym kind usage rest,
       line_errors n raw = [invalid n kind usage]
       /\ In (sym, kind, usage) ERROR_KINDS
       /\ trim raw = sym :: rest.
Proof.
  unfold line_errors, line_alone.
  parse_line_cases c rest; simpl; auto; right;
    match goal with
    | H : chr _ ?x = true |- _ => apply N.eqb_eq in H; subst x
    end;
    do 4 eexists; (split; [reflexivity|split; [|reflexivity]]);
    simpl; tauto.
Qed.

Lemma number_from_length lines : forall i,
  List.length (number_from i lines) = List.length lines.
Proof.
  induction lines as [|l lines IH]; intros i; simpl; auto.
Qed.

Lemma flat_map_short {A B : Type} (f : A -> list B) (l : list A) :
  (forall a, List.length (f a) <= 1)%nat ->
  (List.length (flat_map f l) <= List.length l)%nat.
Proof.
  intros H. induction l as [|a l IH]; simpl; [lia|].
  rewrite length_app. specialize (H a). lia.
Qed.

(** X1: the errors of [parse] are the errors of the lines taken alone, in
    line order.  A line brings no error or the single error
    "Line n: Invalid <kind>. Use <usage>" carrying its own number, and only
    when, once trimmed, it starts with the symbol of that kind; so there are
    never more errors than lines. *)
Theorem parse_errors_by_line (source : jsstring) :
  snd (parse source)
  = flat_map (fun nl => line_errors (fst nl) (snd nl))
             (number_from 0 (split_nl source))
  /\ (forall n raw,
        line_errors n raw = []
        \/ exists sym kind usage rest,
             line_errors n raw = [invalid n kind usage]
             /\ In (sym, kind, usage) ERROR_KINDS
             /\ trim raw = sym :: rest)
  /\ (List.length (snd (parse source))
      <= List.length (split_nl source))%nat.
Proof.
  assert (H : snd (parse source)
              = flat_map (fun nl => line_errors (fst nl) (snd nl))
                         (number_from 0 (split_nl source))).
  { unfold parse. now rewrite parse_lines_errors. }
  split; [exact H|]. split; [exact line_errors_shape|].
  rewrite H, <- (number_from_length (split_nl source) 0).
  apply flat_map_short. intros [n raw]. simpl.
  destruct (line_errors_shape n raw) as [->|[? [? [? [? [-> _]]]]]];
    simpl; lia.
Qed.

Lemma parse_line_evidence n raw ast errs evs :
  Partial.evidence ast = Some evs ->
  Partial.evidence (fst (parse_line n raw (ast, errs)))
  = Some (evs ++ line_evidence raw).
Proof.
  intros H. unfold line_evidence, line_alone.
  parse_line_cases c rest; unfold push_evidence; simpl; rewrite H;
    now rewrite ?app_nil_r.
Qed.

Lemma parse_lines_evidence lines : forall i st evs,
  Partial.evidence (fst st) = Some evs ->
  Partial.evidence (fst (parse_lines i lines st))
  = Some (evs ++ flat_map line_evidence lines).
Proof.
  induction lines as [|l lines IH]; intros i [ast errs] evs H;
    cbn [parse_lines flat_map].
  - now rewrite app_nil_r.
  - rewrite (IH _ _ (evs ++ line_evidence l)).
    + now rewrite app_assoc.
    + now apply parse_line_evidence.
Qed.

Lemma line_evidence_shape raw :
  line_evidence raw = []
  \/ exists rest value context after,
       trim raw = 43 :: rest
       /\ exec_start re_evidence (43 :: rest)
          = Some ([value; context], after)
       /\ line_evidence raw = [EvidenceItem.mk (trim value) context].
Proof.
  unfold line_evidence, line_alone.
  parse_line_cases c rest; simpl; auto; right;
    match goal with
    | H : chr _ ?x = true |- _ => apply N.eqb_eq in H; subst x
    end;
    do 4 eexists; split; [reflexivity|]; split; [eassumption|reflexivity].
Qed.

(** A greedy repetition over a run of the class that ends where the class
    ends takes the whole run when the continuation accepts there. *)
Lemma star_k_run (A : Type) p run : forall rest caps (k : cont A) r,
  forallb p run = true ->
  match rest with c :: _ => p c = false | [] => True end ->
  k rest caps = Some r ->
  star_k p (run ++ rest) caps k = Some r.
Proof.
  induction run as [|c run IH]; intros rest caps k r Hrun Hstop Hk.
  - cbn [app]. destruct rest as [|d rest]; cbn [star_k]; [exact Hk|].
    now rewrite Hstop.
  - cbn [forallb] in Hrun. apply andb_true_iff in Hrun.
    destruct Hrun as [Hc Hrun]. cbn [app star_k]. rewrite Hc.
    now rewrite (IH rest caps k r Hrun Hstop Hk).
Qed.

Lemma firstn_head (c : N) (run rest : jsstring) :
  firstn (List.length (c :: run ++ rest) - List.length rest)
         (c :: run ++ rest) = c :: run.
Proof.
  change (c :: run ++ rest) with ((c :: run) ++ rest).
  rewrite length_app.
  replace (List.length (c :: run) + List.length rest - List.length rest)%nat
    with (List.length (c :: run)) by lia.
  rewrite firstn_app, firstn_all, Nat.sub_diag.
  cbn [firstn]. apply app_nil_r.
Qed.

(** The evidence pattern on a line of the form [+ value | Q context Q]. *)
Lemma evidence_match sp1 c0 v sp2 c1 context tail :
  forallb isWhiteSpace sp1 = true ->
  isWhiteSpace c0 = false ->
  forallb (notc "|") (c0 :: v) = true ->
  forallb isWhiteSpace sp2 = true ->
  no_quote (c1 :: context) = true ->
  exec_start re_evidence
    (js "+" ++ sp1 ++ (c0 :: v) ++ js "|" ++ sp2 ++ dq
     ++ (c1 :: context) ++ dq ++ tail)
  = Some ([c0 :: v; c1 :: context], tail).
Proof.
  unfold no_quote. intros Hsp1 Hc0 Hv Hsp2 Hctx.
  cbn [forallb] in Hv, Hctx. apply andb_true_iff in Hv, Hctx.
  destruct Hv as [Hv0 Hv], Hctx as [Hc1 Hctx].
  unfold exec_start, re_evidence, quoted.
  cbn [match_k].
  change (js "+" ++ sp1 ++ (c0 :: v) ++ js "|" ++ sp2 ++ dq
          ++ (c1 :: context) ++ dq ++ tail)
    with (43 :: sp1 ++ c0 :: v ++ 124 :: sp2 ++ 34 :: c1 :: context
          ++ 34 :: tail).
  change (chr "+" 43) with true. cbv iota.
  apply star_k_run; [exact Hsp1|exact Hc0|].
  rewrite Hv0.
  apply star_k_run; [exact Hv|reflexivity|].
  change (chr "|" 124) with true. cbv iota.
  apply star_k_run; [exact Hsp2|reflexivity|].
  change (34 =? 34) with true. cbv iota. rewrite Hc1.
  apply star_k_run; [exact Hctx|reflexivity|].
  change (34 =? 34) with true. cbv iota.
  rewrite !firstn_head. reflexivity.
Qed.

Lemma line_evidence_of_form raw sp1 value sp2 context tail :
  trim raw = js "+" ++ sp1 ++ value ++ js "|" ++ sp2 ++ dq ++ context ++ dq
             ++ tail ->
  forallb isWhiteSpace sp1 = true ->
  (exists c v, value = c :: v /\ isWhiteSpace c = false) ->
  forallb (notc "|") value = true ->
  forallb isWhiteSpace sp2 = true ->
  context <> [] ->
  no_quote context = true ->
  line_evidence raw = [EvidenceItem.mk (trim value) context].
Proof.
  intros Htrim Hsp1 [c0 [v [-> Hc0]]] Hv Hsp2 Hne Hctx.
  destruct context as [|c1 context]; [now contradiction Hne|].
  pose proof (evidence_match sp1 c0 v sp2 c1 context tail
                             Hsp1 Hc0 Hv Hsp2 Hctx) as Hm.
  unfold line_evidence, line_alone, parse_line. rewrite Htrim.
  change (js "+" ++ sp1 ++ (c0 :: v) ++ js "|" ++ sp2 ++ dq
          ++ (c1 :: context) ++ dq ++ tail)
    with (43 :: (sp1 ++ (c0 :: v) ++ js "|" ++ sp2 ++ dq
                 ++ (c1 :: context) ++ dq ++ tail)) in *.
  change (startsWith (43 :: (sp1 ++ (c0 :: v) ++ js "|" ++ sp2 ++ dq
                             ++ (c1 :: context) ++ dq ++ tail)) (js "//"))
    with false.
  change (chr "^" 43) with false. change (chr "#" 43) with false.
  change (chr "!" 43) with false. change (chr "+" 43) with true.
  cbv iota. rewrite Hm. reflexivity.
Qed.

(** X2: the evidence list of a parsed document is never [undefined]; it
    holds the items of the lines taken alone, in line order, with nothing
    merged, dropped or capped.  A line brings at most one item, and only as
    a line starting with [+] that matches the evidence pattern: the value is
    the trimmed first capture and the context the second.  And a line of
    the form [+ value | Q context Q] does bring its item: when, once
    trimmed, it is a plus sign, white space, a value that holds no [|] and
    does not begin with white space, a [|], white space, and a non-empty
    context without double quote between double quotes, whatever follows,
    the line brings the item of the trimmed value and the context, and the
    parsed document of every source with that line holds the item. *)
Theorem parse_evidence_in_order (source : jsstring) :
  Partial.evidence (fst (parse source))
  = Some (flat_map line_evidence (split_nl source))
  /\ (forall raw,
        line_evidence raw = []
        \/ exists rest value context after,
             trim raw = 43 :: rest
             /\ exec_start re_evidence (43 :: rest)
                = Some ([value; context], after)
             /\ line_evidence raw = [EvidenceItem.mk (trim value) context])
  /\ (forall raw sp1 value sp2 context tail,
        trim raw = js "+" ++ sp1 ++ value ++ js "|" ++ sp2 ++ dq ++ context
                   ++ dq ++ tail ->
        forallb isWhiteSpace sp1 = true ->
        (exists c v, value = c :: v /\ isWhiteSpace c = false) ->
        forallb (notc "|") value = true ->
        forallb isWhiteSpace sp2 = true ->
        context <> [] ->
        no_quote context = true ->
        line_evidence raw = [EvidenceItem.mk (trim value) context]
        /\ (In raw (split_nl source) ->
            exists evs,
              Partial.evidence (fst (parse source)) = Some evs
              /\ In (EvidenceItem.mk (trim value) context) evs)).
Proof.
  assert (Hall : Partial.evidence (fst (parse source))
                 = Some (flat_map line_evidence (split_nl source)))
    by (unfold parse; now rewrite (parse_lines_evidence _ _ _ [])).
  split; [exact Hall|]. split; [exact line_evidence_shape|].
  intros raw sp1 value sp2 context tail Htrim Hsp1 Hvalue Hbar Hsp2 Hne Hq.
  pose proof (line_evidence_of_form raw sp1 value sp2 context tail
                Htrim Hsp1 Hvalue Hbar Hsp2 Hne Hq) as Hline.
  split; [exact Hline|].
  intros Hin. eexists. split; [exact Hall|].
  apply in_flat_map. exists raw. split; [exact Hin|].
  rewrite Hline. now left.
Qed.

(** The evidence line of the minimal post brings its item, with the value
    trimmed. *)
Lemma parse_evidence_in_order_witness :
  line_evidence (js "+ 10% | " ++ quote (js "improvement"))
  = [EvidenceItem.mk (js "10%") (js "improvement")]
  /\ exists evs,
       Partial.evidence (fst (parse minimal_three_segment)) = Some evs
       /\ In (EvidenceItem.mk (js "10%") (js "improvement")) evs.
Proof.
  destruct (proj2 (proj2 (parse_evidence_in_order minimal_three_segment))
              (js "+ 10% | " ++ quote (js "improvement"))
              (js " ") (js "10% ") (js " ") (js "improvement") [])
    as [Hline Hdoc].
  - vm_compute. reflexivity.
  - reflexivity.
  - exists 49, (js "0% "). split; reflexivity.
  - reflexivity.
  - reflexivity.
  - discriminate.
  - reflexivity.
  - split.
    + rewrite Hline. vm_compute. reflexivity.
    + destruct Hdoc as [evs [He Hi]].
      * vm_compute. right. right. left. reflexivity.
      * exists evs. split; [exact He|].
        replace (js "10%") with (trim (js "10% ")) by (vm_compute; reflexivity).
        exact Hi.
Defined.

(** A member that every turn of the loop either overwrites with what the
    line brings or leaves alone. *)
Section SingularMember.
Variable T : Type.
Variable get : Partial.t -> option T.
Hypothesis get_line : forall n raw ast errs,
  get (fst (parse_line n raw (ast, errs)))
  = match get (fst (line_alone 0 raw)) with
    | Some v => Some v
    | None => get ast
    end.

Lemma get_kept lines : forall i st,
  (forall l, In l lines -> get (fst (line_alone 0 l)) = None) ->
  get (fst (parse_lines i lines st)) = get (fst st).
Proof.
  induction lines as [|l lines IH]; intros i [ast errs] H;
    cbn [parse_lines]; [reflexivity|].
  rewrite IH by (intros l' Hin; apply H; now right).
  rewrite get_line, (H l) by now left. reflexivity.
Qed.

Lemma get_last pre raw post i st v :
  get (fst (line_alone 0 raw)) = Some v ->
  (forall l, In l post -> get (fst (line_alone 0 l)) = None) ->
  get (fst (parse_lines i (pre ++ raw :: post) st)) = Some v.
Proof.
  intros Hraw Hpost. rewrite parse_lines_app. cbn [parse_lines].
  rewrite get_kept by exact Hpost.
  destruct (parse_lines i pre st) as [ast errs].
  now rewrite get_line, Hraw.
Qed.
End SingularMember.

Lemma member_line m n raw ast errs :
  member m (fst (parse_line n raw (ast, errs)))
  = match member m (fst (line_alone 0 raw)) with
    | Some v => Some v
    | None => member m ast
    end.
Proof.
  unfold line_alone.
  destruct m; parse_line_cases c rest; reflexivity.
Qed.

Lemma source_line n raw ast errs :
  Partial.source (fst (parse_line n raw (ast, errs)))
  = match Partial.source (fst (line_alone 0 raw)) with
    | Some v => Some v
    | None => Partial.source ast
    end.
Proof.
  unfold line_alone. parse_line_cases c rest; reflexivity.
Qed.

(** X3: for the title, the claim, the insight, the context, the credential
    and the source, the last line that sets the member wins: a line that
    brings a value for it, followed only by lines that bring none, fixes the
    member whatever came before.  A later line of the same symbol that does
    not match its pattern brings none, so it does not erase the value. *)
Theorem last_setting_line_wins
        (pre : list jsstring) (raw : jsstring) (post : list jsstring)
        (i : N) (st : parse_state) :
  (forall m v,
     member m (fst (line_alone 0 raw)) = Some v ->
     (forall l, In l post -> member m (fst (line_alone 0 l)) = None) ->
     member m (fst (parse_lines i (pre ++ raw :: post) st)) = Some v)
  /\ (forall v,
        Partial.source (fst (line_alone 0 raw)) = Some v ->
        (forall l, In l post ->
                   Partial.source (fst (line_alone 0 l)) = None) ->
        Partial.source (fst (parse_lines i (pre ++ raw :: post) st))
        = Some v).
Proof.
  split.
  - intros m v. apply get_last. intros. apply member_line.
  - intros v. apply get_last. intros. apply source_line.
Qed.

Lemma last_setting_line_wins_witness :
  member Title
    (fst (parse_lines 0
            ([js "# " ++ quote (js "Old")]
             ++ (js "# " ++ quote (js "New"))
             :: [js "# no quotes"; js "! " ++ quote (js "Claim")])
            (initial_ast, [])))
  = Some (js "New")
  /\ Partial.source
       (fst (parse_lines 0
               ([] ++ (js "@ " ++ quote (js "S") ++ js " | u | "
                       ++ quote (js "c"))
                :: [js "@ " ++ quote (js "S") ++ js " | u"])
               (initial_ast, [])))
     = Some (Source.mk (js "S") (js "u") (js "c")).
Proof.
  split.
  - apply (proj1 (last_setting_line_wins _ _ _ _ _) Title).
    + vm_compute. reflexivity.
    + intros l [<-|[<-|[]]]; vm_compute; reflexivity.
  - apply (proj2 (last_setting_line_wins _ _ _ _ _)).
    + vm_compute. reflexivity.
    + intros l [<-|[]]; vm_compute; reflexivity.
Defined.

Lemma parse_line_ignorable n raw st :
  ignorable raw = true -> parse_line n raw st = st.
Proof.
  destruct st as [ast errs]. unfold ignorable.
  parse_line_cases c rest; intros H; try reflexivity; exfalso;
    repeat match goal with
           | E : chr _ ?x = true |- _ => apply N.eqb_eq in E; subst x
           end;
    unfold test_start in H;
    repeat match goal with
           | E : exec_start _ _ = _ |- _ => rewrite E in H
           end;
    repeat match goal with
           | E : startsWith _ _ = _ |- _ => rewrite E in H
           end;
    cbn in H; discriminate H.
Qed.

Lemma parse_line_document n m raw ast errs errs' :
  fst (parse_line n raw (ast, errs)) = fst (parse_line m raw (ast, errs')).
Proof.
  parse_line_cases c rest; reflexivity.
Qed.

Lemma parse_lines_document lines : forall i j st st',
  fst st = fst st' ->
  fst (parse_lines i lines st) = fst (parse_lines j lines st').
Proof.
  induction lines as [|l lines IH]; intros i j [ast errs] [ast' errs'] H;
    cbn [parse_lines]; [exact H|].
  simpl in H. subst ast'. apply IH. apply parse_line_document.
Qed.

(** X5: a blank line, a comment, a line that starts with none of the eight
    symbols, and a limit, context or credential line that does not match its
    pattern leave the document and the errors as they are; such a line can be
    put anywhere in a source without changing the parsed document (only the
    numbers of the lines after it move). *)
Theorem ignorable_lines_change_nothing (raw : jsstring) :
  ignorable raw = true ->
  (forall n st, parse_line n raw st = st)
  /\ (forall pre post i st,
        fst (parse_lines i (pre ++ raw :: post) st)
        = fst (parse_lines i (pre ++ post) st)).
Proof.
  intros H. split.
  - intros n st. now apply parse_line_ignorable.
  - intros pre post i st. rewrite !parse_lines_app. cbn [parse_lines].
    rewrite parse_line_ignorable by exact H.
    now apply parse_lines_document.
Qed.

Lemma ignorable_lines_change_nothing_witness :
  ignorable (js "  // a note") = true
  /\ ignorable (js "? context without quotes") = true
  /\ parse_line 3 (js "  // a note") (initial_ast, [js "e"])
     = (initial_ast, [js "e"])
  /\ fst (parse_lines 0 ([js "# " ++ quote (js "T")]
                         ++ js "? context without quotes"
                         :: [js "! " ++ quote (js "C")]) (initial_ast, []))
     = fst (parse_lines 0 ([js "# " ++ quote (js "T")]
                           ++ [js "! " ++ quote (js "C")]) (initial_ast, [])).
Proof.
  assert (H1 : ignorable (js "  // a note") = true) by reflexivity.
  assert (H2 : ignorable (js "? context without quotes") = true)
    by reflexivity.
  split; [exact H1|]. split; [exact H2|]. split.
  - apply (proj1 (ignorable_lines_change_nothing _ H1)).
  - apply (proj2 (ignorable_lines_change_nothing _ H2)).
Defined.

(** ** What the patterns capture *)

Lemma trimStart_fixed s :
  match s with [] => True | c :: _ => isWhiteSpace c = false end ->
  trimStart s = s.
Proof.
  destruct s as [|c s]; simpl; [reflexivity|]. now intros ->.
Qed.

Lemma trimStart_head s :
  match trimStart s with [] => True | c :: _ => isWhiteSpace c = false end.
Proof.
  induction s as [|c s IH]; simpl; [exact I|].
  destruct (isWhiteSpace c) eqn:E; [exact IH|exact E].
Qed.

Lemma trimStart_keeps_last r h :
  isWhiteSpace h = false -> exists r', trimStart (r ++ [h]) = r' ++ [h].
Proof.
  intros Hh. induction r as [|c r IH]; simpl.
  - rewrite Hh. now exists [].
  - destruct (isWhiteSpace c); [exact IH|]. now exists (c :: r).
Qed.

Lemma trimEnd_of_trimmed_start t :
  match t with [] => True | c :: _ => isWhiteSpace c = false end ->
  match trimEnd t with [] => True | c :: _ => isWhiteSpace c = false end
  /\ trimStart (rev (trimEnd t)) = rev (trimEnd t).
Proof.
  intros Ht. unfold trimEnd. rewrite rev_involutive. split.
  - destruct t as [|h t]; [exact I|]. simpl rev.
    destruct (trimStart_keeps_last (rev t) h Ht) as [r' ->].
    rewrite rev_app_distr. simpl. exact Ht.
  - apply trimStart_fixed. apply trimStart_head.
Qed.

Lemma trim_idempotent s : trim (trim s) = trim s.
Proof.
  unfold trim.
  destruct (trimEnd_of_trimmed_start (trimStart s) (trimStart_head s))
    as [H1 H2].
  rewrite (trimStart_fixed _ H1). unfold trimEnd at 1.
  rewrite H2. apply rev_involutive.
Qed.

Lemma forallb_trimStart p s :
  forallb p s = true -> forallb p (trimStart s) = true.
Proof.
  induction s as [|c s IH]; simpl; [auto|]. intros H.
  destruct (isWhiteSpace c); [|exact H].
  apply andb_true_iff in H. now apply IH.
Qed.

Lemma forallb_rev_true p (s : jsstring) :
  forallb p s = true -> forallb p (rev s) = true.
Proof.
  rewrite !forallb_forall. intros H x Hin. apply H. now apply in_rev.
Qed.

Lemma forallb_trim p s : forallb p s = true -> forallb p (trim s) = true.
Proof.
  intros H. unfold trim, trimEnd.
  now apply forallb_rev_true, forallb_trimStart, forallb_rev_true,
    forallb_trimStart.
Qed.

Lemma star_k_prefix (A : Type) p s : forall caps (k : cont A) x,
  star_k p s caps k = Some x ->
  exists pre s',
    s = pre ++ s' /\ forallb p pre = true /\ k s' caps = Some x.
Proof.
  induction s as [|c s IH]; intros caps k x H; simpl in H.
  - exists [], []. auto.
  - destruct (p c) eqn:Hc.
    + destruct (star_k p s caps k) as [y|] eqn:E.
      * injection H as <-. destruct (IH _ _ _ E) as [pre [s' [-> [Hp Hk]]]].
        exists (c :: pre), s'. simpl. rewrite Hc. auto.
      * exists [], (c :: s). auto.
    + exists [], (c :: s). auto.
Qed.

Lemma firstn_prefix (pre s' : jsstring) :
  firstn (List.length (pre ++ s') - List.length s') (pre ++ s') = pre.
Proof.
  rewrite length_app.
  replace (List.length pre + List.length s' - List.length s')%nat
    with (List.length pre + 0)%nat by lia.
  rewrite firstn_app_2. simpl. apply app_nil_r.
Qed.

Lemma match_k_no_group (A : Type) r : no_group r = true ->
  forall s caps (k : cont A) x,
    match_k r s caps k = Some x -> exists s', k s' caps = Some x.
Proof.
  induction r as [|p|r1 IH1 r2 IH2|r1 IH1 r2 IH2|r1 IH1|p|p|r1 IH1];
    intros Hg s caps k x H; simpl in H, Hg; try discriminate Hg.
  - eauto.
  - destruct s as [|c s]; [discriminate|]. destruct (p c); [eauto|discriminate].
  - apply andb_true_iff in Hg. destruct Hg as [Hg1 Hg2].
    destruct (IH1 Hg1 _ _ _ _ H) as [s1 H1]. eauto.
  - apply andb_true_iff in Hg. destruct Hg as [Hg1 Hg2].
    destruct (match_k r1 s caps k) as [y|] eqn:E.
    + injection H as <-. eauto.
    + eauto.
  - destruct (match_k r1 s caps k) as [y|] eqn:E.
    + injection H as <-. eauto.
    + eauto.
  - apply star_k_prefix in H. destruct H as [pre [s' [_ [_ H]]]]. eauto.
  - destruct s as [|c s]; [discriminate|]. destruct (p c); [|discriminate].
    apply star_k_prefix in H. destruct H as [pre [s' [_ [_ H]]]]. eauto.
Qed.

(** A successful match hands its continuation one new capture per group,
    each made of units of the class of its group. *)
Lemma match_k_groups (A : Type) r : sequenced r = true ->
  forall s caps (k : cont A) x,
    match_k r s caps k = Some x ->
    exists s' new,
      k s' (caps ++ new) = Some x /\ Forall2 captured (group_classes r) new.
Proof.
  induction r as [|p|r1 IH1 r2 IH2|r1 IH1 r2 IH2|r1 IH1|p|p|r1 IH1];
    intros Hg s caps k x H; simpl in Hg.
  - exists s, []. rewrite app_nil_r. simpl in H. auto.
  - destruct (match_k_no_group A (Class p) eq_refl _ _ _ _ H) as [s' Hk].
    exists s', []. rewrite app_nil_r. auto.
  - apply andb_true_iff in Hg. destruct Hg as [Hg1 Hg2]. simpl in H.
    destruct (IH1 Hg1 _ _ _ _ H) as [s1 [n1 [H1 F1]]].
    destruct (IH2 Hg2 _ _ _ _ H1) as [s2 [n2 [H2 F2]]].
    exists s2, (n1 ++ n2). rewrite app_assoc. split; [exact H2|].
    simpl. now apply Forall2_app.
  - destruct (match_k_no_group A (Alt r1 r2) Hg _ _ _ _ H) as [s' Hk].
    exists s', []. rewrite app_nil_r. auto.
  - destruct (match_k_no_group A (Opt r1) Hg _ _ _ _ H) as [s' Hk].
    exists s', []. rewrite app_nil_r. auto.
  - destruct (match_k_no_group A (Star p) eq_refl _ _ _ _ H) as [s' Hk].
    exists s', []. rewrite app_nil_r. auto.
  - destruct (match_k_no_group A (Plus p) eq_refl _ _ _ _ H) as [s' Hk].
    exists s', []. rewrite app_nil_r. auto.
  - destruct r1 as [| | | | | |p|]; try discriminate Hg. simpl in H.
    destruct s as [|c s]; [discriminate|].
    destruct (p c) eqn:Hc; [|discriminate].
    apply star_k_prefix in H. destruct H as [pre [s' [-> [Hp H]]]].
    change (c :: pre ++ s') with ((c :: pre) ++ s') in H.
    rewrite firstn_prefix in H.
    exists s', [c :: pre]. split; [exact H|]. simpl.
    constructor; [|constructor]. split; [discriminate|].
    simpl. now rewrite Hc.
Qed.

Lemma exec_start_groups r s caps rest :
  sequenced r = true -> exec_start r s = Some (caps, rest) ->
  Forall2 captured (group_classes r) caps.
Proof.
  intros Hg H. unfold exec_start in H.
  destruct (match_k_groups _ r Hg _ _ _ _ H) as [s' [new [Hk F]]].
  injection Hk as <- _. exact F.
Qed.

Lemma well_formed_intro ast :
  text_ok (Partial.title ast) -> text_ok (Partial.claim ast) ->
  text_ok (Partial.insight ast) -> text_ok (Partial.context ast) ->
  text_ok (Partial.credential ast) ->
  (forall evs ev, Partial.evidence ast = Some evs -> In ev evs -> item_ok ev) ->
  (forall src, Partial.source ast = Some src -> source_ok src) ->
  well_formed ast.
Proof.
  unfold well_formed. tauto.
Qed.

Lemma text_ok_some t :
  captured (fun c => negb (c =? 34)) t -> text_ok (Some t).
Proof.
  intros [H1 H2] s E. injection E as <-. split; assumption.
Qed.

Lemma item_ok_push e v c :
  (forall evs ev, e = Some evs -> In ev evs -> item_ok ev) ->
  captured (notc "|") v -> captured (fun c => negb (c =? 34)) c ->
  forall evs ev,
    Some (match e with Some l => l | None => [] end
          ++ [EvidenceItem.mk (trim v) c]) = Some evs ->
    In ev evs -> item_ok ev.
Proof.
  intros He [_ Hv] [Hc1 Hc2] evs ev E Hin. injection E as <-.
  apply in_app_or in Hin. destruct Hin as [Hin|[<-|[]]].
  - destruct e as [l|]; [now apply (He l)|destruct Hin].
  - unfold item_ok. simpl.
    exact (conj (forallb_trim _ _ Hv)
                (conj (trim_idempotent v) (conj Hc1 Hc2))).
Qed.

Lemma source_ok_some t u c :
  captured (fun c => negb (c =? 34)) t -> captured nonspace u ->
  captured (fun c => negb (c =? 34)) c ->
  forall src, Some (Source.mk t u c) = Some src -> source_ok src.
Proof.
  intros [Ht1 Ht2] [Hu1 Hu2] [Hc1 Hc2] src E. injection E as <-.
  unfold source_ok. simpl.
  exact (conj (conj Ht1 Ht2) (conj (conj Hu1 Hu2) (conj Hc1 Hc2))).
Qed.

Lemma parse_line_well_formed n raw st :
  well_formed (fst st) -> well_formed (fst (parse_line n raw st)).
Proof.
  destruct st as [ast errs]. intros Hwf.
  assert (Hwf' := Hwf). destruct Hwf' as (Ht & Hc & Hi & Hx & Hp & He & Hs).
  parse_line_cases c rest; try exact Hwf;
    try (apply well_formed_intro; assumption);
    match goal with
    | E : exec_start ?r _ = Some _ |- _ =>
        pose proof (exec_start_groups r _ _ _ eq_refl E) as F
    end;
    simpl in F;
    repeat match goal with
           | F : Forall2 _ _ _ |- _ => inversion F; subst; clear F
           end;
    apply well_formed_intro; simpl; try assumption;
    first [ now apply text_ok_some
          | now apply item_ok_push
          | now apply source_ok_some ].
Qed.

Lemma parse_lines_well_formed lines : forall i st,
  well_formed (fst st) -> well_formed (fst (parse_lines i lines st)).
Proof.
  induction lines as [|l lines IH]; intros i st H; cbn [parse_lines];
    [exact H|].
  apply IH. now apply parse_line_well_formed.
Qed.

(** X4: what [parse] stores is what the patterns let through.  In a parsed
    document the title, the claim, the insight, the context, the credential,
    the context of every evidence item and the title and credibility of the
    source are non-empty and hold no double quote; the URL of the source is
    non-empty and holds no white space; the value of every evidence item
    holds no [|] and is trimmed. *)
Theorem parsed_document_well_formed (source : jsstring) :
  well_formed (fst (parse source)).
Proof.
  unfold parse. apply parse_lines_well_formed.
  apply well_formed_intro; simpl; try (intros s E; discriminate E).
  intros evs ev E Hin. injection E as <-. destruct Hin.
Qed.

(* ================================================================== *)
(** * Further properties of the validator *)

(** ** The emoji search *)

(** Induction along the steps of [scan_emoji], which moves by one unit or
    by two. *)
Lemma two_step_ind (P : list N -> Prop) :
  P [] -> (forall c, P [c]) ->
  (forall c d s, P s -> P (d :: s) -> P (c :: d :: s)) ->
  forall s, P s.
Proof.
  intros H0 H1 H2 s.
  assert (H : P s /\ forall c, P (c :: s)).
  { induction s as [|d s [IH1 IH2]]; split; auto. }
  exact (proj1 H).
Qed.

Lemma emoji_not_surrogate c :
  emoji_cp c = true -> is_lead c = false /\ is_trail c = false.
Proof.
  unfold emoji_cp, is_lead, is_trail. intros H.
  rewrite !orb_true_iff, !andb_true_iff, !N.leb_le in H.
  split; apply andb_false_iff; rewrite !N.leb_gt; lia.
Qed.

Lemma lead_not_trail c : is_lead c = true -> is_trail c = false.
Proof.
  unfold is_lead, is_trail. rewrite andb_true_iff, !N.leb_le. intros H.
  apply andb_false_iff. rewrite !N.leb_gt. lia.
Qed.

Lemma has_emoji_cons c s : has_emoji s -> has_emoji (c :: s).
Proof.
  intros [[pre [x [post [-> H]]]]|[pre [hi [lo [post [-> H]]]]]].
  - left. exists (c :: pre), x, post. auto.
  - right. exists (c :: pre), hi, lo, post. auto.
Qed.

Lemma has_emoji_app a s b : has_emoji s -> has_emoji (a ++ s ++ b).
Proof.
  intros [[pre [x [post [-> H]]]]|[pre [hi [lo [post [-> H]]]]]].
  - left. exists (a ++ pre), x, (post ++ b).
    split; [|exact H]. now rewrite <- !app_assoc.
  - right. exists (a ++ pre), hi, lo, (post ++ b).
    split; [|exact H]. now rewrite <- !app_assoc.
Qed.

(** A hit of the search is an emoji of the string, and ends after the
    position the search started at and within the string. *)
Lemma scan_emoji_sound : forall s pos e,
  scan_emoji s pos = Some e ->
  has_emoji s /\ (pos < e <= pos + List.length s)%nat.
Proof.
  apply (two_step_ind
           (fun s => forall pos e, scan_emoji s pos = Some e ->
              has_emoji s /\ (pos < e <= pos + List.length s)%nat)).
  - intros pos e H. discriminate H.
  - intros c pos e H. simpl in H. destruct (emoji_cp c) eqn:E; [|discriminate].
    injection H as <-. split; [|simpl; lia].
    left. now exists [], c, [].
  - intros c d s IH1 IH2 pos e H. cbn [scan_emoji] in H.
    destruct (is_lead c && is_trail d) eqn:Ep.
    + apply andb_true_iff in Ep. destruct Ep as [El Et].
      destruct (emoji_cp (code_point c d)) eqn:E.
      * injection H as <-. split; [|simpl; lia].
        right. now exists [], c, d, s.
      * destruct (IH1 _ _ H) as [Hh Hb].
        split; [now apply has_emoji_cons, has_emoji_cons|simpl; lia].
    + destruct (emoji_cp c) eqn:E.
      * injection H as <-. split; [|simpl; lia].
        left. now exists [], c, (d :: s).
      * destruct (IH2 _ _ H) as [Hh Hb].
        split; [now apply has_emoji_cons|simpl in *; lia].
Qed.

Lemma scan_emoji_unit_here c post pos :
  emoji_cp c = true -> scan_emoji (c :: post) pos <> None.
Proof.
  intros Hc. destruct (emoji_not_surrogate c Hc) as [Hl Ht].
  simpl. rewrite Hl, Hc. destruct post; simpl; discriminate.
Qed.

Lemma scan_emoji_unit : forall pre pos c post,
  emoji_cp c = true -> scan_emoji (pre ++ c :: post) pos <> None.
Proof.
  apply (two_step_ind
           (fun pre => forall pos c post, emoji_cp c = true ->
              scan_emoji (pre ++ c :: post) pos <> None)).
  - intros pos c post Hc. now apply scan_emoji_unit_here.
  - intros x pos c post Hc. destruct (emoji_not_surrogate c Hc) as [Hl Ht].
    cbn [app scan_emoji]. rewrite Ht, andb_false_r.
    destruct (emoji_cp x); [discriminate|]. now apply scan_emoji_unit_here.
  - intros x y pre IH1 IH2 pos c post Hc. cbn [app scan_emoji].
    destruct (is_lead x && is_trail y).
    + destruct (emoji_cp (code_point x y)); [discriminate|]. now apply IH1.
    + destruct (emoji_cp x); [discriminate|].
      apply (IH2 (pos + 1)%nat c post Hc).
Qed.

Lemma scan_emoji_pair_here hi lo post pos :
  is_lead hi = true -> is_trail lo = true ->
  emoji_cp (code_point hi lo) = true ->
  scan_emoji (hi :: lo :: post) pos = Some (pos + 2)%nat.
Proof.
  intros Hl Ht He. cbn [scan_emoji]. now rewrite Hl, Ht, He.
Qed.

Lemma scan_emoji_pair : forall pre pos hi lo post,
  is_lead hi = true -> is_trail lo = true ->
  emoji_cp (code_point hi lo) = true ->
  scan_emoji (pre ++ hi :: lo :: post) pos <> None.
Proof.
  apply (two_step_ind
           (fun pre => forall pos hi lo post,
              is_lead hi = true -> is_trail lo = true ->
              emoji_cp (code_point hi lo) = true ->
              scan_emoji (pre ++ hi :: lo :: post) pos <> None)).
  - intros pos hi lo post Hl Ht He. cbn [app].
    rewrite scan_emoji_pair_here by assumption. discriminate.
  - intros x pos hi lo post Hl Ht He. cbn [app scan_emoji].
    rewrite (lead_not_trail hi Hl), andb_false_r.
    destruct (emoji_cp x); [discriminate|].
    rewrite Hl, Ht, He. discriminate.
  - intros x y pre IH1 IH2 pos hi lo post Hl Ht He. cbn [app scan_emoji].
    destruct (is_lead x && is_trail y).
    + destruct (emoji_cp (code_point x y)); [discriminate|]. now apply IH1.
    + destruct (emoji_cp x); [discriminate|].
      apply (IH2 (pos + 1)%nat hi lo post Hl Ht He).
Qed.

Lemma scan_emoji_complete s pos : has_emoji s -> scan_emoji s pos <> None.
Proof.
  intros [[pre [x [post [-> H]]]]|[pre [hi [lo [post [-> [Hl [Ht He]]]]]]]].
  - now apply scan_emoji_unit.
  - now apply scan_emoji_pair.
Qed.

Lemma has_emoji_skipn n s : has_emoji (skipn n s) -> has_emoji s.
Proof.
  intros H. rewrite <- (firstn_skipn n s).
  rewrite <- (app_nil_r (skipn n s)). now apply has_emoji_app.
Qed.

(** [re.test(s)] from any [lastIndex]: a [true] is never a false alarm and
    moves [lastIndex] forward, within the string; a [false] resets it. *)
Lemma emoji_test_sound s li :
  match emoji_test s li with
  | (true, e) => has_emoji s /\ (li < e <= List.length s)%nat
  | (false, e) => e = O
  end.
Proof.
  unfold emoji_test. destruct (List.length s <? li)%nat eqn:El; [reflexivity|].
  apply Nat.ltb_ge in El.
  destruct (inside_pair s li) eqn:Ei.
  - destruct li as [|j]; [discriminate Ei|]. simpl in Ei. simpl pred.
    destruct (skipn j s) as [|c [|d rest]] eqn:Es; try discriminate Ei.
    apply andb_true_iff in Ei. destruct Ei as [Hl Ht].
    assert (Hlen : (j + List.length (c :: d :: rest) = List.length s)%nat).
    { rewrite <- Es, length_skipn. lia. }
    cbn [scan_emoji]. rewrite Hl, Ht. simpl andb. cbv iota.
    destruct (emoji_cp (code_point c d)) eqn:E.
    + split; [|simpl in Hlen; lia].
      apply (has_emoji_skipn j). rewrite Es. right. now exists [], c, d, rest.
    + destruct (scan_emoji rest (j + 2)) as [e|] eqn:Er; [|reflexivity].
      destruct (scan_emoji_sound _ _ _ Er) as [Hh Hb].
      split; [|simpl in Hlen; lia].
      apply (has_emoji_skipn j). rewrite Es.
      now apply has_emoji_cons, has_emoji_cons.
  - destruct (scan_emoji (skipn li s) li) as [e|] eqn:Er; [|reflexivity].
    destruct (scan_emoji_sound _ _ _ Er) as [Hh Hb].
    split; [now apply (has_emoji_skipn li)|].
    rewrite length_skipn in Hb. lia.
Qed.

(** From [lastIndex = 0] the test is exact. *)
Lemma emoji_test_fresh s : fst (emoji_test s 0) = true <-> has_emoji s.
Proof.
  split.
  - intros H. pose proof (emoji_test_sound s 0) as Hs.
    destruct (emoji_test s 0) as [[|] e]; [tauto|discriminate H].
  - intros H. unfold emoji_test. simpl.
    destruct (scan_emoji s 0) eqn:E; [reflexivity|].
    now destruct (scan_emoji_complete s 0 H).
Qed.

Lemma lower_unit_high c : 0xFF < c -> lower_unit c = c.
Proof.
  intros H. unfold lower_unit.
  destruct ((65 <=? c) && (c <=? 90)
            || (0xC0 <=? c) && (c <=? 0xDE) && negb (c =? 0xD7)) eqn:E;
    [|reflexivity].
  rewrite orb_true_iff, !andb_true_iff, !N.leb_le in E. lia.
Qed.

Lemma lower_unit_emoji c : emoji_cp c = true -> lower_unit c = c.
Proof.
  intros H. apply lower_unit_high. unfold emoji_cp in H.
  rewrite !orb_true_iff, !andb_true_iff, !N.leb_le in H. lia.
Qed.

Lemma lower_unit_lead c : is_lead c = true -> lower_unit c = c.
Proof.
  intros H. apply lower_unit_high. unfold is_lead in H.
  rewrite andb_true_iff, !N.leb_le in H. lia.
Qed.

Lemma lower_unit_trail c : is_trail c = true -> lower_unit c = c.
Proof.
  intros H. apply lower_unit_high. unfold is_trail in H.
  rewrite andb_true_iff, !N.leb_le in H. lia.
Qed.

Lemma has_emoji_lower s : has_emoji s -> has_emoji (toLowerCase s).
Proof.
  unfold toLowerCase.
  intros [[pre [x [post [-> H]]]]|[pre [hi [lo [post [-> [Hl [Ht He]]]]]]]].
  - left. exists (map lower_unit pre), x, (map lower_unit post).
    rewrite map_app. simpl. now rewrite (lower_unit_emoji x H).
  - right. exists (map lower_unit pre), hi, lo, (map lower_unit post).
    rewrite map_app. simpl.
    now rewrite (lower_unit_lead hi Hl), (lower_unit_trail lo Ht).
Qed.

Lemma scanned_emoji ast f :
  In f (scanned ast) -> has_emoji f -> has_emoji (allText ast).
Proof.
  intros Hin H. change (allText ast)
    with (toLowerCase (join (js " ") (scanned ast))).
  apply has_emoji_lower.
  destruct (join_holds (js " ") _ _ Hin) as [a [b ->]].
  now apply has_emoji_app.
Qed.

Lemma emoji_in_validate ast li :
  In emoji_msg (v_errors (fst (validate ast li)))
  <-> fst (emoji_test (allText ast) li) = true.
Proof.
  split.
  - intros H. rewrite validate_errors in H. rewrite !in_app_iff in H.
    destruct H as [H|[H|[H|[H|[H|[H|[H|H]]]]]]].
    + apply required_first in H. discriminate H.
    + apply title_first in H. discriminate H.
    + apply (field_length_first 33 []) in H. discriminate H.
    + apply evidence_first in H. discriminate H.
    + apply (field_length_first 62 []) in H. discriminate H.
    + apply in_when in H. tauto.
    + apply banned_first in H. discriminate H.
    + apply in_when in H. destruct H as [_ H]. discriminate H.
  - intros H. rewrite validate_errors, !in_app_iff. do 5 right. left.
    apply in_when. auto.
Qed.

Lemma validate_state ast li :
  snd (validate ast li) = snd (emoji_test (allText ast) li).
Proof.
  unfold validate. now destruct (emoji_test (allText ast) li).
Qed.

(** X6: the emoji error is never a false alarm: in whatever state
    [EMOJI_REGEX] is, "Emojis are not allowed" is only reported when the
    scanned text holds an emoji of the class, and the call then leaves
    [lastIndex] further on; on a document whose scanned members are in the
    range of the case mapping, where lower-casing keeps every length, it
    leaves it inside the scanned text.  A call that does not report the
    error leaves [lastIndex] at 0.  From [lastIndex = 0] the error is
    reported exactly when the scanned text holds an emoji, and so whenever
    one of the scanned members does. *)
Theorem emoji_error_exact (ast : Partial.t) :
  (forall li,
     In emoji_msg (v_errors (fst (validate ast li))) ->
     has_emoji (allText ast)
     /\ (li < snd (validate ast li))%nat
     /\ (exact_document ast = true ->
         (snd (validate ast li) <= List.length (allText ast))%nat))
  /\ (forall li,
        ~ In emoji_msg (v_errors (fst (validate ast li))) ->
        snd (validate ast li) = O)
  /\ (In emoji_msg (v_errors (fst (validate ast 0)))
      <-> has_emoji (allText ast))
  /\ (forall f,
        In f (scanned ast) -> has_emoji f ->
        In emoji_msg (v_errors (fst (validate ast 0)))).
Proof.
  split; [|split; [|split]].
  - intros li H. apply emoji_in_validate in H. rewrite validate_state.
    pose proof (emoji_test_sound (allText ast) li) as Hs.
    destruct (emoji_test (allText ast) li) as [[|] e];
      [|discriminate H].
    cbn [snd]. destruct Hs as [Hs [H1 H2]].
    split; [exact Hs|]. split; [exact H1|]. intros _. exact H2.
  - intros li H. rewrite emoji_in_validate in H. rewrite validate_state.
    pose proof (emoji_test_sound (allText ast) li) as Hs.
    destruct (emoji_test (allText ast) li) as [[|] e];
      [now contradiction H|exact Hs].
  - rewrite emoji_in_validate. apply emoji_test_fresh.
  - intros f Hin H. apply emoji_in_validate, emoji_test_fresh.
    now apply (scanned_emoji ast f).
Qed.

Lemma emoji_error_exact_witness :
  In emoji_msg
     (v_errors
        (fst (validate (document (js "Sunny " ++ [0x2600]) None plain_source)
                       0)))
  /\ le (snd (validate (document (js "Sunny " ++ [0x2600]) None plain_source)
                       0))
        (List.length
           (allText (document (js "Sunny " ++ [0x2600]) None plain_source)))
  /\ snd (validate (document (js "Sunny " ++ [0x2600]) None plain_source) 7)
     = O.
Proof.
  destruct (emoji_error_exact
              (document (js "Sunny " ++ [0x2600]) None plain_source))
    as [Hfound [Hreset [_ Hmember]]].
  assert (Hin : In emoji_msg
                   (v_errors
                      (fst (validate
                              (document (js "Sunny " ++ [0x2600]) None
                                        plain_source) 0)))).
  { apply (Hmember (js "Sunny " ++ [0x2600])).
    - left. reflexivity.
    - left. exists (js "Sunny "), 0x2600, []. split; reflexivity. }
  split; [exact Hin|]. split.
  - apply (proj2 (proj2 (Hfound O Hin))). reflexivity.
  - apply Hreset. intros H. vm_compute in H.
    repeat (destruct H as [H|H]; [discriminate H|]). exact H.
Defined.

(** ** When [validate] reports nothing *)

Lemma when_nil b m : when b m = [] <-> b = false.
Proof.
  destruct b; simpl; split; congruence.
Qed.

Lemma app_nil_iff {A : Type} (l1 l2 : list A) :
  l1 ++ l2 = [] <-> l1 = [] /\ l2 = [].
Proof.
  split; [apply app_nil_both|]. now intros [-> ->].
Qed.

Lemma includes_unit c s : includes s [c] = true <-> In c s.
Proof.
  rewrite includes_spec. split.
  - intros [a [b ->]]. apply in_or_app. right. now left.
  - intros H. apply in_split in H. destruct H as [a [b ->]]. now exists a, b.
Qed.

Lemma count_exclamation_zero s : count_exclamation s = 0 <-> ~ In 33 s.
Proof.
  unfold count_exclamation, len, size. split.
  - intros H Hin.
    assert (Hf : In 33 (filter (fun c => c =? 33) s))
      by (apply filter_In; split; [exact Hin|reflexivity]).
    destruct (filter (fun c => c =? 33) s); [destruct Hf|discriminate H].
  - intros H. destruct (filter (fun c => c =? 33) s) as [|x l] eqn:E;
      [reflexivity|].
    exfalso. apply H.
    assert (Hx : In x (filter (fun c => c =? 33) s)) by (rewrite E; now left).
    apply filter_In in Hx. destruct Hx as [Hx Hc].
    apply N.eqb_eq in Hc. now subst x.
Qed.

Lemma lower_unit_exclamation c : lower_unit c = 33 <-> c = 33.
Proof.
  unfold lower_unit.
  destruct ((65 <=? c) && (c <=? 90)
            || (0xC0 <=? c) && (c <=? 0xDE) && negb (c =? 0xD7)) eqn:E;
    [|tauto].
  rewrite orb_true_iff, !andb_true_iff, !N.leb_le in E. lia.
Qed.

Lemma in_lower_exclamation s : In 33 (toLowerCase s) <-> In 33 s.
Proof.
  unfold toLowerCase. rewrite in_map_iff. split.
  - intros [c [Hc Hin]]. apply (proj1 (lower_unit_exclamation c)) in Hc.
    now subst c.
  - intros H. exists 33. auto.
Qed.

Lemma in_join x sep : forall l,
  In x (join sep l) -> In x sep \/ exists f, In f l /\ In x f.
Proof.
  induction l as [|a l IH]; intros H; [destruct H|].
  destruct l as [|b l].
  - right. exists a. split; [now left|exact H].
  - change (join sep (a :: b :: l)) with (a ++ sep ++ join sep (b :: l)) in H.
    rewrite !in_app_iff in H. destruct H as [H|[H|H]].
    + right. exists a. split; [now left|exact H].
    + now left.
    + destruct (IH H) as [Hs|[f [Hf Hx]]]; [now left|].
      right. exists f. split; [now right|exact Hx].
Qed.

Lemma in_join_member x sep f l : In f l -> In x f -> In x (join sep l).
Proof.
  intros Hf Hx. destruct (join_holds sep f l Hf) as [a [b ->]].
  rewrite !in_app_iff. tauto.
Qed.

(** The scanned text holds an exclamation mark exactly when one of the
    scanned members does. *)
Lemma exclamation_in_text ast :
  In 33 (allText ast) <-> exists f, In f (scanned ast) /\ In 33 f.
Proof.
  change (allText ast) with (toLowerCase (join (js " ") (scanned ast))).
  rewrite in_lower_exclamation. split.
  - intros H. apply in_join in H. destruct H as [H|H]; [|exact H].
    simpl in H. destruct H as [H|[]]. discriminate H.
  - intros [f [Hf Hx]]. now apply (in_join_member _ _ f).
Qed.

Lemma title_scanned ast c t :
  Partial.title ast = Some (c :: t) -> In (c :: t) (scanned ast).
Proof.
  intros H. unfold scanned. apply filter_Boolean_keeps.
  rewrite <- H. now left.
Qed.

Lemma required_nil ast :
  required_errors ast = [] <->
  truthy (Partial.title ast) = true /\ truthy (Partial.claim ast) = true
  /\ truthy (Partial.insight ast) = true /\ Partial.source ast <> None
  /\ (1 <= evidence_count ast)%nat.
Proof.
  unfold required_errors. rewrite !app_nil_iff, !when_nil, !negb_false_iff.
  assert (He : evidence_is_empty (Partial.evidence ast) = false
               <-> (1 <= evidence_count ast)%nat).
  { unfold evidence_count.
    destruct (Partial.evidence ast) as [[|ev evs]|]; simpl;
      split; (discriminate || lia || reflexivity). }
  rewrite He.
  destruct (Partial.source ast); intuition congruence.
Qed.

Lemma exceeds_empty limit : exceeds (len []) limit = false.
Proof.
  destruct limit as [l|]; [|reflexivity]. apply N.ltb_ge.
  change (len []) with 0. lia.
Qed.

Lemma title_nil limits ast :
  title_errors limits ast = [] <->
  forall t, Partial.title ast = Some t ->
            exceeds (len t) (PostLangLimits.title limits) = false
            /\ endsWith t (js "?") = false /\ includes t (js "!") = false.
Proof.
  unfold title_errors. destruct (Partial.title ast) as [[|c t]|].
  - split; [|reflexivity]. intros _ t E. injection E as <-.
    split; [apply exceeds_empty|split; reflexivity].
  - rewrite !app_nil_iff, !when_nil. split.
    + intros H t' E. injection E as <-. exact H.
    + intros H. now apply H.
  - split; [|reflexivity]. intros _ t E. discriminate E.
Qed.

Lemma field_length_nil sym field limit :
  field_length sym field limit = [] <->
  forall s, field = Some s -> exceeds (len s) limit = false.
Proof.
  unfold field_length. destruct field as [[|c t]|].
  - split; [|reflexivity]. intros _ s E. injection E as <-.
    apply exceeds_empty.
  - rewrite when_nil. split.
    + intros H s E. injection E as <-. exact H.
    + intros H. now apply H.
  - split; [|reflexivity]. intros _ s E. discriminate E.
Qed.

Lemma evidence_items_nil limit evs : forall i,
  evidence_item_errors limit i evs = [] <->
  forall ev, In ev evs -> exceeds (len (evText ev)) limit = false.
Proof.
  induction evs as [|e evs IH]; intros i; simpl.
  - split; [intros _ ev []|reflexivity].
  - rewrite app_nil_iff, when_nil, IH. split.
    + intros [H1 H2] ev [<-|Hin]; [exact H1|now apply H2].
    + intros H. split; [apply H; now left|intros ev Hin; apply H; now right].
Qed.

Lemma evidence_nil limits ast :
  evidence_errors limits ast = [] <->
  (evidence_count ast <= 5)%nat
  /\ forall evs ev, Partial.evidence ast = Some evs -> In ev evs ->
                    exceeds (len (evText ev)) (PostLangLimits.evidence limits)
                    = false.
Proof.
  unfold evidence_errors, evidence_count.
  destruct (Partial.evidence ast) as [evs|].
  - rewrite app_nil_iff, when_nil, evidence_items_nil, N.ltb_ge.
    unfold size. split.
    + intros [H1 H2]. split; [lia|]. intros evs' ev E. injection E as <-.
      apply H2.
    + intros [H1 H2]. split; [lia|]. intros ev. now apply H2.
  - split; [|reflexivity]. intros _. split; [lia|]. intros evs ev E.
    discriminate E.
Qed.

Lemma flat_map_nil {A B : Type} (f : A -> list B) (l : list A) :
  flat_map f l = [] <-> forall x, In x l -> f x = [].
Proof.
  induction l as [|a l IH]; simpl.
  - split; [intros _ x []|reflexivity].
  - rewrite app_nil_iff, IH. split.
    + intros [H1 H2] x [<-|Hin]; auto.
    + intros H. split; [apply H; now left|intros x Hin; apply H; now right].
Qed.

Lemma banned_nil text :
  banned_errors text = [] <->
  forall p, In p BANNED_PHRASES -> includes text p = false.
Proof.
  unfold banned_errors. rewrite flat_map_nil.
  split; intros H p Hp; specialize (H p Hp);
    rewrite when_nil in *;
    now rewrite (proj1 (banned_phrase_shape p Hp)) in *.
Qed.

Lemma validate_accepts_iff ast li :
  v_errors (fst (validate ast li)) = [] <-> acceptable ast li.
Proof.
  rewrite validate_errors. rewrite !app_nil_iff.
  rewrite required_nil, title_nil, !field_length_nil, evidence_nil,
    !when_nil, banned_nil, N.ltb_ge.
  unfold acceptable. split.
  - intros (Hr & Ht & Hc & He & Hi & Hm & Hb & Hx).
    destruct Hr as (R1 & R2 & R3 & R4 & R5). destruct He as [E1 E2].
    split; [repeat split; (assumption || lia)|].
    split; [intros t E; split; now apply (Ht t E)|].
    split; [exact Hc|]. split; [exact E2|]. split; [exact Hi|].
    split; [exact Hm|]. split; [exact Hb|]. lia.
  - intros ((R1 & R2 & R3 & R4 & R5) & Ht & Hc & He & Hi & Hm & Hb & Hx).
    split; [repeat split; (assumption || lia)|].
    split.
    { intros t E. destruct (Ht t E) as [T1 T2].
      split; [exact T1|]. split; [exact T2|].
      destruct (includes t (js "!")) eqn:Ei; [|reflexivity].
      exfalso. apply (proj1 (count_exclamation_zero _) Hx).
      apply exclamation_in_text. exists t. split.
      - destruct t as [|c t]; [discriminate Ei|]. now apply title_scanned.
      - now apply includes_unit. }
    split; [exact Hc|]. split; [split; [lia|exact He]|].
    split; [exact Hi|]. split; [exact Hm|]. split; [exact Hb|]. lia.
Qed.

(** X7: on a document whose scanned members are in the range of the case
    mapping, [validate] reports no error exactly when the document is
    acceptable: title, claim and insight are non-empty strings, a source is
    there, there are one to five evidence items, title, claim, insight and
    every evidence text are within their effective limits, the title does
    not end with a question mark, and the scanned text holds no banned
    phrase, no exclamation mark and no emoji that the search finds from the
    current [lastIndex].  The check of the title for exclamation marks adds
    a message only: it rejects nothing that the count over the scanned text
    does not reject. *)
Theorem no_validation_error_iff_acceptable (ast : Partial.t) (li : nat) :
  exact_document ast = true ->
  (v_errors (fst (validate ast li)) = [] <-> acceptable ast li).
Proof.
  intros _. exact (validate_accepts_iff ast li).
Qed.

Lemma no_validation_error_iff_acceptable_witness :
  exact_document (document (js "Title") None plain_source) = true
  /\ acceptable (document (js "Title") None plain_source) 0.
Proof.
  assert (Hx : exact_document (document (js "Title") None plain_source)
               = true) by reflexivity.
  split; [exact Hx|].
  apply (proj1 (no_validation_error_iff_acceptable
                  (document (js "Title") None plain_source) 0 Hx)).
  vm_compute. reflexivity.
Defined.

(** X8: an exclamation mark in the title is reported twice, by the message
    of the title and by the count over the scanned text, which is then at
    least 1. *)
Theorem title_exclamation_reported_twice
        (ast : Partial.t) (li : nat) (t : jsstring) :
  Partial.title ast = Some t ->
  includes t (js "!") = true ->
  let errs := v_errors (fst (validate ast li)) in
  In (js "# cannot contain exclamation marks") errs
  /\ In (exclamation_msg (count_exclamation (allText ast))) errs
  /\ 1 <= count_exclamation (allText ast).
Proof.
  intros Ht Hi. cbv zeta.
  assert (Hc : 1 <= count_exclamation (allText ast)).
  { assert (H : count_exclamation (allText ast) <> 0); [|lia].
    rewrite count_exclamation_zero. intros H. apply H.
    apply exclamation_in_text. exists t. split.
    - destruct t as [|c t]; [discriminate Hi|]. now apply title_scanned.
    - now apply includes_unit. }
  rewrite validate_errors, !in_app_iff. split; [|split; [|exact Hc]].
  - right. left. unfold title_errors. rewrite Ht.
    destruct t as [|c t]; [discriminate Hi|].
    rewrite !in_app_iff, !in_when. auto.
  - do 7 right. apply in_when. split; [apply N.ltb_lt; lia|reflexivity].
Qed.

Lemma title_exclamation_reported_twice_witness :
  In (js "# cannot contain exclamation marks")
     (v_errors (fst (validate (document (js "Wow!") None plain_source) 0)))
  /\ In (js "Exclamation marks not allowed (found 1)")
        (v_errors (fst (validate (document (js "Wow!") None plain_source) 0))).
Proof.
  destruct (title_exclamation_reported_twice
              (document (js "Wow!") None plain_source) 0 (js "Wow!")
              eq_refl eq_refl) as [H1 [H2 _]].
  split; [exact H1|exact H2].
Defined.

(* ================================================================== *)
(** * Further properties of the generator *)

(** ** The display URL *)

Lemma js_cons a str : js (String a str) = N_of_ascii a :: js str.
Proof. reflexivity. Qed.

Lemma match_lits (A : Type) str : forall s caps (k : cont A),
  match_k (lits str) s caps k
  = if startsWith s (js str)
    then k (skipn (String.length str) s) caps else None.
Proof.
  induction str as [|a str IH]; intros s caps k.
  - reflexivity.
  - rewrite js_cons. cbn [lits match_k lit String.length startsWith].
    destruct s as [|c s]; [reflexivity|]. unfold chr.
    rewrite (N.eqb_sym c). destruct (N_of_ascii a =? c); [|reflexivity].
    cbn [andb skipn]. apply IH.
Qed.

Lemma startsWith_app s p q :
  startsWith s (p ++ q)
  = startsWith s p && startsWith (skipn (List.length p) s) q.
Proof.
  revert s. induction p as [|x p IH]; intros s; [reflexivity|].
  destruct s as [|y s]; [reflexivity|]. cbn [app startsWith List.length skipn].
  rewrite IH. now rewrite andb_assoc.
Qed.

Lemma startsWith_cons c s x p :
  startsWith (c :: s) (x :: p) = (x =? c) && startsWith s p.
Proof. reflexivity. Qed.

Lemma strip_www url :
  strip_prefix re_www url
  = if startsWith url (js "www.") then skipn 4 url else url.
Proof.
  unfold strip_prefix, exec_start, re_www. rewrite match_lits.
  now destruct (startsWith url (js "www.")).
Qed.

Lemma strip_scheme url :
  strip_prefix re_scheme url
  = if startsWith url (js "https://") then skipn 8 url
    else if startsWith url (js "http://") then skipn 7 url
    else url.
Proof.
  change (js "https://") with (js "http" ++ js "s://").
  change (js "http://") with (js "http" ++ js "://").
  rewrite !startsWith_app.
  unfold strip_prefix, exec_start, re_scheme. cbn [match_k].
  rewrite match_lits. destruct (startsWith url (js "http")); [|reflexivity].
  change (List.length (js "http")) with 4%nat.
  change (String.length "http") with 4%nat. cbn [andb].
  replace (skipn 8 url) with (skipn 4 (skipn 4 url)) by now rewrite skipn_skipn.
  replace (skipn 7 url) with (skipn 3 (skipn 4 url)) by now rewrite skipn_skipn.
  generalize (skipn 4 url) as r. intros r.
  destruct r as [|c r].
  - reflexivity.
  - cbn [lit match_k]. unfold chr.
    change (js "s://") with (115 :: js "://").
    rewrite (startsWith_cons c r 115), (N.eqb_sym 115 c).
    change (N_of_ascii "s") with 115.
    destruct (c =? 115) eqn:Ec; cbn [andb].
    + rewrite match_lits. change (String.length "://") with 3%nat.
      destruct (startsWith r (js "://")) eqn:Er; [reflexivity|].
      rewrite match_lits. apply N.eqb_eq in Ec. subst c.
      change (js "://") with (58 :: js "//").
      rewrite (startsWith_cons 115 r 58). reflexivity.
    + rewrite match_lits. change (String.length "://") with 3%nat.
      now destruct (startsWith (c :: r) (js "://")).
Qed.

Lemma startsWith_self p r : startsWith (p ++ r) p = true.
Proof.
  apply startsWith_spec. now exists r.
Qed.

Lemma skipn_self (p r : jsstring) : skipn (List.length p) (p ++ r) = r.
Proof.
  induction p as [|x p IH]; [reflexivity|exact IH].
Qed.

Lemma displayUrl_spec url :
  displayUrl url
  = let u := if startsWith url (js "https://") then skipn 8 url
             else if startsWith url (js "http://") then skipn 7 url
             else url in
    if startsWith u (js "www.") then skipn 4 u else u.
Proof.
  unfold displayUrl. rewrite strip_www, strip_scheme. reflexivity.
Qed.

(** X9: the display URL is the URL less one leading [https://] or
    [http://] and then less one leading [www.]; the match is on lower-case
    letters only, nothing else is removed, and a URL with none of these
    prefixes is displayed as it is. *)
Theorem display_url_strips_scheme_and_www (url : jsstring) :
  displayUrl url
  = (let u := if startsWith url (js "https://") then skipn 8 url
              else if startsWith url (js "http://") then skipn 7 url
              else url in
     if startsWith u (js "www.") then skipn 4 u else u)
  /\ displayUrl (js "https://" ++ url) = strip_prefix re_www url
  /\ displayUrl (js "http://" ++ url) = strip_prefix re_www url
  /\ displayUrl (js "https://www." ++ url) = url
  /\ (startsWith url (js "http") = false ->
      startsWith url (js "www.") = false -> displayUrl url = url).
Proof.
  split; [apply displayUrl_spec|]. split; [|split; [|split]].
  - rewrite displayUrl_spec. cbv zeta. rewrite startsWith_self.
    change 8%nat with (List.length (js "https://")). rewrite skipn_self.
    now rewrite strip_www.
  - rewrite displayUrl_spec. cbv zeta.
    change (startsWith (js "http://" ++ url) (js "https://")) with false.
    rewrite startsWith_self.
    change 7%nat with (List.length (js "http://")). rewrite skipn_self.
    now rewrite strip_www.
  - rewrite displayUrl_spec. cbv zeta.
    change (js "https://www." ++ url) with (js "https://" ++ js "www." ++ url).
    rewrite startsWith_self.
    change 8%nat with (List.length (js "https://")). rewrite skipn_self.
    rewrite startsWith_self.
    change 4%nat with (List.length (js "www.")). now rewrite skipn_self.
  - intros Hh Hw. rewrite displayUrl_spec. cbv zeta.
    change (js "https://") with (js "http" ++ js "s://").
    change (js "http://") with (js "http" ++ js "://").
    rewrite !startsWith_app, Hh. cbn [andb]. now rewrite Hw.
Qed.

Lemma display_url_strips_scheme_and_www_witness :
  startsWith (js "HTTPS://WWW.example.com") (js "http") = false
  /\ startsWith (js "HTTPS://WWW.example.com") (js "www.") = false
  /\ displayUrl (js "HTTPS://WWW.example.com") = js "HTTPS://WWW.example.com".
Proof.
  assert (H1 : startsWith (js "HTTPS://WWW.example.com") (js "http") = false)
    by reflexivity.
  assert (H2 : startsWith (js "HTTPS://WWW.example.com") (js "www.") = false)
    by reflexivity.
  split; [exact H1|]. split; [exact H2|].
  exact (proj2 (proj2 (proj2 (proj2
           (display_url_strips_scheme_and_www
              (js "HTTPS://WWW.example.com"))))) H1 H2).
Defined.

(** ** Lines of the output *)

Lemma generate_lines ast : generate ast = join nl (output_lines ast).
Proof. reflexivity. Qed.

Lemma join_cons sep a b l :
  join sep (a :: b :: l) = a ++ sep ++ join sep (b :: l).
Proof. reflexivity. Qed.

Lemma join_app sep l1 : forall l2,
  l1 <> [] -> l2 <> [] ->
  join sep (l1 ++ l2) = join sep l1 ++ sep ++ join sep l2.
Proof.
  induction l1 as [|a l1 IH]; intros l2 H1 H2; [congruence|].
  destruct l1 as [|b l1].
  - destruct l2 as [|c l2]; [congruence|]. reflexivity.
  - change ((a :: b :: l1) ++ l2) with (a :: (b :: l1) ++ l2).
    change ((b :: l1) ++ l2) with (b :: l1 ++ l2) at 1.
    rewrite join_cons. change (b :: l1 ++ l2) with ((b :: l1) ++ l2).
    rewrite IH by (congruence || assumption).
    rewrite join_cons. now rewrite <- !app_assoc.
Qed.

Lemma split_nl_nonempty s : split_nl s <> [].
Proof.
  destruct s as [|c s]; simpl; [discriminate|].
  destruct (c =? 10); [discriminate|].
  destruct (split_nl s); discriminate.
Qed.

Lemma split_nl_app a : forall b,
  split_nl (a ++ nl ++ b) = split_nl a ++ split_nl b.
Proof.
  induction a as [|c a IH]; intros b; [reflexivity|].
  cbn [app split_nl]. rewrite IH.
  destruct (c =? 10); [reflexivity|].
  pose proof (split_nl_nonempty a) as Ha.
  destruct (split_nl a) as [|l ls]; [congruence|]. reflexivity.
Qed.

(** Splitting what was joined gives the lines of every joined string. *)
Lemma split_join l : forall ls,
  split_nl (join nl (l :: ls)) = flat_map split_nl (l :: ls).
Proof.
  revert l. intros l ls. revert l.
  induction ls as [|m ls IH]; intros l.
  - simpl. now rewrite app_nil_r.
  - rewrite join_cons, split_nl_app, IH. reflexivity.
Qed.

Lemma split_single s : single_line s = true -> split_nl s = [s].
Proof.
  induction s as [|c s IH]; [reflexivity|]. simpl. intros H.
  apply andb_true_iff in H. destruct H as [Hc Hs].
  apply negb_true_iff in Hc. rewrite Hc, (IH Hs). reflexivity.
Qed.

Lemma flat_map_single ls :
  forallb single_line ls = true -> flat_map split_nl ls = ls.
Proof.
  induction ls as [|l ls IH]; [reflexivity|]. simpl. intros H.
  apply andb_true_iff in H. destruct H as [Hl Hs].
  now rewrite (split_single l Hl), (IH Hs).
Qed.

(** Joining what was split gives the string back. *)
Lemma join_split s : join nl (split_nl s) = s.
Proof.
  induction s as [|c s IH]; [reflexivity|]. simpl.
  pose proof (split_nl_nonempty s) as Hs.
  destruct (c =? 10) eqn:Ec.
  - apply N.eqb_eq in Ec. subst c.
    destruct (split_nl s) as [|l ls]; [congruence|].
    rewrite join_cons, IH. reflexivity.
  - destruct (split_nl s) as [|l ls]; [congruence|].
    destruct ls as [|m ls].
    + simpl in IH. subst s. reflexivity.
    + rewrite join_cons in *. subst s. reflexivity.
Qed.

Lemma single_line_app a b :
  single_line (a ++ b) = single_line a && single_line b.
Proof.
  apply forallb_app.
Qed.

Lemma single_line_displayUrl url :
  single_line url = true -> single_line (displayUrl url) = true.
Proof.
  intros H. rewrite displayUrl_spec. cbv zeta. unfold single_line in *.
  repeat match goal with
         | |- context [if ?b then _ else _] => destruct b
         end; repeat apply forallb_skipn; exact H.
Qed.

Lemma forallb_map_comp {A B : Type} (f : B -> bool) (g : A -> B) l :
  forallb f (map g l) = forallb (fun x => f (g x)) l.
Proof.
  induction l as [|a l IH]; simpl; [reflexivity|]. now rewrite IH.
Qed.

Lemma output_lines_single ast :
  single_lines ast = true -> forallb single_line (output_lines ast) = true.
Proof.
  unfold single_lines. rewrite !andb_true_iff.
  intros [[[[[[[[Ht Hc] He] Hi] Hx] Hp] Hst] Hsu] Hsc].
  unfold output_lines. rewrite !forallb_app, !andb_true_iff.
  split; [|split; [|split; [|split; [|split; [|split]]]]].
  - cbn [forallb]. rewrite single_line_app, Ht. reflexivity.
  - destruct (PostLangAST.context ast) as [[|c s]|]; try reflexivity.
    change (single_line (c :: s) = true) in Hx.
    cbn [forallb]. rewrite Hx. reflexivity.
  - cbn [forallb]. rewrite single_line_app, Hc. reflexivity.
  - destruct (PostLangAST.evidence ast) as [|ev evs] eqn:E; [reflexivity|].
    rewrite !forallb_app, !andb_true_iff.
    split; [reflexivity|split; [|reflexivity]].
    rewrite forallb_map_comp, forallb_forall.
    rewrite forallb_forall in He. intros x Hin. specialize (He x Hin).
    apply andb_true_iff in He. destruct He as [Hv Hk].
    rewrite !single_line_app, Hv, Hk. reflexivity.
  - cbn [forallb]. rewrite single_line_app, Hi. reflexivity.
  - destruct (PostLangAST.credential ast) as [[|c s]|]; try reflexivity.
    change (single_line (c :: s) = true) in Hp.
    cbn [forallb]. rewrite !single_line_app, Hp. reflexivity.
  - cbn [forallb]. rewrite !single_line_app, Hst, Hsc.
    rewrite (single_line_displayUrl _ Hsu). reflexivity.
Qed.

(** ** What the matcher hands on is made of the units of its input *)

Lemma forallb_firstn {A : Type} (p : A -> bool) n : forall s,
  forallb p s = true -> forallb p (firstn n s) = true.
Proof.
  induction n as [|n IH]; intros [|c s] H; simpl; auto.
  simpl in H. apply andb_true_iff in H. destruct H as [-> H]. now apply IH.
Qed.

Lemma match_k_units (A : Type) (q : N -> bool) r :
  forall s caps (k : cont A) x,
    forallb q s = true ->
    match_k r s caps k = Some x ->
    exists s' new,
      k s' (caps ++ new) = Some x /\ forallb q s' = true
      /\ Forall (fun c => forallb q c = true) new.
Proof.
  induction r as [|p|r1 IH1 r2 IH2|r1 IH1 r2 IH2|r1 IH1|p|p|r1 IH1];
    intros s caps k x Hs H; simpl in H.
  - exists s, []. rewrite app_nil_r. auto.
  - destruct s as [|c s]; [discriminate|]. destruct (p c); [|discriminate].
    simpl in Hs. apply andb_true_iff in Hs.
    exists s, []. rewrite app_nil_r.
    split; [exact H|split; [tauto|constructor]].
  - destruct (IH1 _ _ _ _ Hs H) as [s1 [n1 [H1 [Hs1 F1]]]].
    destruct (IH2 _ _ _ _ Hs1 H1) as [s2 [n2 [H2 [Hs2 F2]]]].
    exists s2, (n1 ++ n2). rewrite app_assoc. split; [exact H2|].
    split; [exact Hs2|]. apply Forall_app. auto.
  - destruct (match_k r1 s caps k) as [y|] eqn:E.
    + injection H as <-. eauto.
    + eauto.
  - destruct (match_k r1 s caps k) as [y|] eqn:E.
    + injection H as <-. eauto.
    + exists s, []. rewrite app_nil_r. auto.
  - apply star_k_prefix in H. destruct H as [pre [s' [-> [_ H]]]].
    rewrite forallb_app in Hs. apply andb_true_iff in Hs.
    exists s', []. rewrite app_nil_r.
    split; [exact H|split; [tauto|constructor]].
  - destruct s as [|c s]; [discriminate|]. destruct (p c); [|discriminate].
    apply star_k_prefix in H. destruct H as [pre [s' [-> [_ H]]]].
    simpl in Hs. rewrite forallb_app in Hs. rewrite !andb_true_iff in Hs.
    exists s', []. rewrite app_nil_r.
    split; [exact H|split; [tauto|constructor]].
  - destruct (IH1 _ _ _ _ Hs H) as [s1 [n1 [H1 [Hs1 F1]]]].
    exists s1, (n1 ++ [firstn (List.length s - List.length s1) s]).
    rewrite app_assoc. split; [exact H1|]. split; [exact Hs1|].
    apply Forall_app. split; [exact F1|].
    constructor; [|constructor]. now apply forallb_firstn.
Qed.

Lemma exec_start_units q r s caps rest :
  forallb q s = true -> exec_start r s = Some (caps, rest) ->
  Forall (fun c => forallb q c = true) caps.
Proof.
  intros Hs H. unfold exec_start in H.
  destruct (match_k_units _ q r _ _ _ _ Hs H) as [s' [new [Hk [_ F]]]].
  injection Hk as <- _. exact F.
Qed.

Lemma single_lines_parsed_intro ast :
  single_line_opt (Partial.title ast) = true ->
  single_line_opt (Partial.claim ast) = true ->
  single_line_opt (Partial.insight ast) = true ->
  single_line_opt (Partial.context ast) = true ->
  single_line_opt (Partial.credential ast) = true ->
  (forall evs, Partial.evidence ast = Some evs ->
     forallb (fun ev => single_line (EvidenceItem.value ev)
                        && single_line (EvidenceItem.context ev)) evs = true) ->
  (forall src, Partial.source ast = Some src ->
     single_line (Source.title src) && single_line (Source.url src)
     && single_line (Source.credibility src) = true) ->
  single_lines_parsed ast.
Proof.
  intros H1 H2 H3 H4 H5 H6 H7. split; [|split; assumption].
  intros []; assumption.
Qed.

Lemma single_push e v c :
  (forall evs, e = Some evs ->
     forallb (fun ev => single_line (EvidenceItem.value ev)
                        && single_line (EvidenceItem.context ev)) evs = true) ->
  single_line v = true -> single_line c = true ->
  forall evs,
    Some (match e with Some l => l | None => [] end
          ++ [EvidenceItem.mk (trim v) c]) = Some evs ->
    forallb (fun ev => single_line (EvidenceItem.value ev)
                       && single_line (EvidenceItem.context ev)) evs = true.
Proof.
  intros He Hv Hc evs E. injection E as <-. rewrite forallb_app.
  apply andb_true_iff. split.
  - destruct e as [l|]; [now apply He|reflexivity].
  - cbn [forallb EvidenceItem.value EvidenceItem.context].
    unfold single_line in *. now rewrite (forallb_trim _ _ Hv), Hc.
Qed.

Lemma single_source t u c :
  single_line t = true -> single_line u = true -> single_line c = true ->
  forall src, Some (Source.mk t u c) = Some src ->
    single_line (Source.title src) && single_line (Source.url src)
    && single_line (Source.credibility src) = true.
Proof.
  intros Ht Hu Hc src E. injection E as <-. simpl. now rewrite Ht, Hu, Hc.
Qed.

Lemma parse_line_single n raw st :
  single_line raw = true ->
  single_lines_parsed (fst st) -> single_lines_parsed (fst (parse_line n raw st)).
Proof.
  destruct st as [ast errs]. intros Hraw Hinv.
  assert (Hinv' := Hinv). destruct Hinv' as (Hm & He & Hs).
  pose proof (Hm Title) as Ht. pose proof (Hm Claim) as Hc.
  pose proof (Hm Insight) as Hi. pose proof (Hm Context) as Hx.
  pose proof (Hm Credential) as Hp. simpl in Ht, Hc, Hi, Hx, Hp.
  assert (Hline : single_line (trim raw) = true)
    by (now apply forallb_trim).
  revert Hline.
  parse_line_cases c rest; intros Hline; try exact Hinv;
    try (apply single_lines_parsed_intro; assumption);
    match goal with
    | E : exec_start ?r _ = Some _ |- _ =>
        pose proof (exec_start_units _ r _ _ _ Hline E) as F
    end;
    repeat match goal with
           | F : Forall _ (_ :: _) |- _ => inversion F; subst; clear F
           end;
    apply single_lines_parsed_intro; simpl; try assumption;
    first [ now apply single_push | now apply single_source ].
Qed.

Lemma parse_lines_single lines : forall i st,
  forallb single_line lines = true ->
  single_lines_parsed (fst st) ->
  single_lines_parsed (fst (parse_lines i lines st)).
Proof.
  induction lines as [|l lines IH]; intros i st Hl H; cbn [parse_lines];
    [exact H|].
  simpl in Hl. apply andb_true_iff in Hl. destruct Hl as [Hl Hls].
  apply IH; [exact Hls|]. now apply parse_line_single.
Qed.

Lemma split_nl_single s : forallb single_line (split_nl s) = true.
Proof.
  induction s as [|c s IH]; [reflexivity|]. simpl.
  destruct (c =? 10) eqn:Ec; [exact IH|].
  destruct (split_nl s) as [|l ls]; simpl in *.
  - now rewrite Ec.
  - now rewrite Ec.
Qed.

Lemma parse_single_lines source : single_lines_parsed (fst (parse source)).
Proof.
  unfold parse. apply parse_lines_single; [apply split_nl_single|].
  apply single_lines_parsed_intro; try reflexivity.
  - intros evs E. injection E as <-. reflexivity.
  - intros src E. discriminate E.
Qed.

Lemma cast_single_lines ast full :
  single_lines_parsed ast -> as_PostLangAST ast = Some full ->
  single_lines full = true.
Proof.
  intros (Hm & He & Hs) H. unfold as_PostLangAST in H.
  pose proof (Hm Title) as Ht. pose proof (Hm Claim) as Hc.
  pose proof (Hm Insight) as Hi. pose proof (Hm Context) as Hx.
  pose proof (Hm Credential) as Hp. simpl in Ht, Hc, Hi, Hx, Hp.
  destruct (Partial.title ast) as [t|]; [|discriminate].
  destruct (Partial.claim ast) as [c|]; [|discriminate].
  destruct (Partial.evidence ast) as [e|]; [|discriminate].
  destruct (Partial.insight ast) as [i|]; [|discriminate].
  destruct (Partial.source ast) as [s|]; [|discriminate].
  injection H as <-. unfold single_lines. simpl in *.
  specialize (He e eq_refl). specialize (Hs s eq_refl).
  rewrite !andb_true_iff in Hs. destruct Hs as [[Hs1 Hs2] Hs3].
  now rewrite Ht, Hc, He, Hi, Hx, Hp, Hs1, Hs2, Hs3.
Qed.

(** X10: the output is the pushed lines joined by line feeds, and splitting
    it at line feeds gives the lines of every pushed line.  When no string of
    the document holds a line feed the split gives back exactly the pushed
    lines, and that is the case of every document that comes out of
    [parse]. *)
Theorem generated_lines_round_trip (ast : PostLangAST.t) :
  generate ast = join nl (output_lines ast)
  /\ split_nl (generate ast) = flat_map split_nl (output_lines ast)
  /\ (single_lines ast = true -> split_nl (generate ast) = output_lines ast)
  /\ (forall source,
        as_PostLangAST (fst (parse source)) = Some ast ->
        single_lines ast = true).
Proof.
  split; [reflexivity|].
  assert (H : split_nl (generate ast) = flat_map split_nl (output_lines ast)).
  { rewrite generate_lines. unfold output_lines.
    cbn [app]. apply split_join. }
  split; [exact H|]. split.
  - intros Hs. rewrite H. apply flat_map_single.
    now apply output_lines_single.
  - intros source Hc. apply (cast_single_lines (fst (parse source))).
    + apply parse_single_lines.
    + exact Hc.
Qed.

Lemma generated_lines_round_trip_witness :
  as_PostLangAST (fst (parse minimal_three_segment)) = Some minimal_ast
  /\ single_lines minimal_ast = true
  /\ split_nl (generate minimal_ast) = output_lines minimal_ast.
Proof.
  assert (H : as_PostLangAST (fst (parse minimal_three_segment))
              = Some minimal_ast) by (vm_compute; reflexivity).
  destruct (generated_lines_round_trip minimal_ast) as [_ [_ [Hsplit Hparse]]].
  split; [exact H|]. split; [exact (Hparse _ H)|].
  exact (Hsplit (Hparse _ H)).
Defined.

(* ================================================================== *)
(** * Further properties of the analyzer *)

(** ** Blank lines *)

Lemma trimStart_nil s :
  trimStart s = [] <-> forallb isWhiteSpace s = true.
Proof.
  induction s as [|c s IH]; simpl; [tauto|].
  destruct (isWhiteSpace c); simpl; [exact IH|].
  split; discriminate.
Qed.

Lemma forallb_rev_iff (p : N -> bool) (s : jsstring) :
  forallb p (rev s) = true <-> forallb p s = true.
Proof.
  split; intros H; [|now apply forallb_rev_true].
  rewrite <- (rev_involutive s). now apply forallb_rev_true.
Qed.

Lemma trim_nil s : trim s = [] <-> forallb isWhiteSpace s = true.
Proof.
  unfold trim, trimEnd. split.
  - intros H.
    assert (H' : trimStart (rev (trimStart s)) = []).
    { destruct (trimStart (rev (trimStart s))) as [|x l]; [reflexivity|].
      simpl in H. now destruct (rev l). }
    apply (proj1 (trimStart_nil _)) in H'.
    apply (proj1 (forallb_rev_iff _ _)) in H'.
    pose proof (trimStart_head s) as Hh.
    destruct (trimStart s) as [|c t] eqn:E.
    + now apply trimStart_nil.
    + cbn [forallb] in H'. rewrite Hh in H'. discriminate H'.
  - intros H. apply trimStart_nil in H. rewrite H. reflexivity.
Qed.

Lemma is_blank_spec l : is_blank l = forallb isWhiteSpace l.
Proof.
  unfold is_blank. destruct (forallb isWhiteSpace l) eqn:E.
  - apply trim_nil in E. now rewrite E.
  - destruct (trim l) as [|c t] eqn:Et; [|reflexivity].
    apply trim_nil in Et. congruence.
Qed.

(** The number of non-blank lines among some lines. *)
Lemma nonblank_app (a b : list jsstring) :
  List.length (filter (fun l => negb (is_blank l)) (a ++ b))
  = (List.length (filter (fun l => negb (is_blank l)) a)
     + List.length (filter (fun l => negb (is_blank l)) b))%nat.
Proof.
  now rewrite filter_app, length_app.
Qed.

(** A string that ends with a full stop has a non-blank line. *)
Lemma nonblank_full_stop x :
  (1 <= List.length (filter (fun l => negb (is_blank l))
                            (split_nl (x ++ js "."))))%nat.
Proof.
  induction x as [|c x IH]; [simpl; lia|].
  cbn [app split_nl]. destruct (c =? 10).
  - cbn [filter]. destruct (negb (is_blank [])); simpl; lia.
  - pose proof (split_nl_nonempty (x ++ js ".")) as Hn.
    destruct (split_nl (x ++ js ".")) as [|l ls]; [congruence|].
    cbn [filter] in IH |- *. rewrite !is_blank_spec in *.
    cbn [forallb]. destruct (forallb isWhiteSpace l).
    + destruct (isWhiteSpace c); simpl in *; lia.
    + rewrite andb_false_r. simpl in *. lia.
Qed.

(** ** When [analyze] raises no issue *)

Lemma is_nil_true {A : Type} (l : list A) :
  match l with [] => true | _ :: _ => false end = true <-> l = [].
Proof.
  destruct l; split; (reflexivity || discriminate).
Qed.

Lemma map_nil_iff {A B : Type} (f : A -> B) (l : list A) :
  map f l = [] <-> l = [].
Proof.
  destruct l; split; (reflexivity || discriminate).
Qed.

Lemma filter_nil_iff {A : Type} (f : A -> bool) (l : list A) :
  filter f l = [] <-> forall x, In x l -> f x = false.
Proof.
  induction l as [|a l IH]; simpl.
  - split; [intros _ x []|reflexivity].
  - destruct (f a) eqn:E.
    + split; [discriminate|]. intros H. specialize (H a (or_introl eq_refl)).
      congruence.
    + rewrite IH. split.
      * intros H x [<-|Hin]; auto.
      * intros H x Hin. apply H. now right.
Qed.

Lemma analyze_valid_iff text li :
  valid (fst (analyze text li)) = true <-> analysis_clean text li.
Proof.
  unfold analyze, analysis_clean.
  fold (nonblank_lines text).
  destruct (emoji_test text li) as [emoji li'].
  cbn [fst valid].
  rewrite is_nil_true, !app_nil_iff, !when_nil, map_nil_iff, filter_nil_iff.
  rewrite !negb_false_iff, N.ltb_ge, N.ltb_lt, N.leb_le.
  destruct (nonblank_lines text) as [|l rest] eqn:El.
  - cbn [negb andb]. split.
    + intros (_ & H & _). discriminate H.
    + intros ([l [rest [H _]]] & _). discriminate H.
  - cbn [negb andb]. split.
    + intros (H1 & _ & H3 & H4 & H5 & H6 & H7 & H8 & H9).
      split; [|split; [exact H5|split; [lia|split; [exact H4|
               split; [exact H6|split; [exact H7|lia]]]]]].
      exists l, rest. split; [reflexivity|]. split; [|exact H9].
      destruct (0 <? len (trim l)) eqn:E0;
        destruct (len (trim l) <=? 100) eqn:E1;
        destruct (100 <? len (trim l)) eqn:E2;
        cbn [negb andb] in H1; try discriminate H1;
        rewrite ?N.leb_le, ?N.leb_gt, ?N.ltb_lt, ?N.ltb_ge in *; lia.
    + intros ([l' [rest' [E [Hl Hq]]]] & H2 & H3 & H4 & H5 & H6 & H7).
      injection E as <- <-.
      split; [|split; [reflexivity|split; [lia|split; [exact H4|
               split; [exact H2|split; [exact H5|split; [exact H6|
               split; [lia|exact Hq]]]]]]]].
      destruct (0 <? len (trim l)) eqn:E0;
        destruct (len (trim l) <=? 100) eqn:E1;
        destruct (100 <? len (trim l)) eqn:E2;
        cbn [negb andb]; try reflexivity;
        rewrite ?N.leb_le, ?N.leb_gt, ?N.ltb_lt, ?N.ltb_ge in *; lia.
Qed.

(** ** The score *)

Lemma ite_nonneg (b : bool) (p : Z) :
  (0 <= p)%Z -> (0 <= if b then p else 0)%Z.
Proof. destruct b; lia. Qed.

Lemma ite_zero (b : bool) (p : Z) :
  (0 < p)%Z -> (if b then p else 0%Z) = 0%Z -> b = false.
Proof. destruct b; [lia|reflexivity]. Qed.

(** The flags of [analyze] made opaque, so that what is left is the
    arithmetic of the score. *)
Ltac abstract_flags :=
  repeat match goal with
         | |- context [when ?b _] =>
             tryif is_var b then fail
             else (let x := fresh "flag" in set (x := b) in *; clearbody x)
         end;
  repeat match goal with
         | |- context [if ?b then _ else 0%Z] =>
             tryif is_var b then fail
             else (let x := fresh "flag" in set (x := b) in *; clearbody x)
         end;
  match goal with
  | |- context [filter ?f BANNED] =>
      let x := fresh "banned" in set (x := filter f BANNED) in *; clearbody x
  end.

Lemma analyze_valid_score text li :
  valid (fst (analyze text li)) = true ->
  (85 <= score (fst (analyze text li)) <= 100)%Z.
Proof.
  unfold analyze. fold (nonblank_lines text). fold (nonTagLines text).
  destruct (emoji_test text li) as [emoji li'].
  cbn [fst valid score]. abstract_flags.
  intros H. apply (proj1 (is_nil_true _)) in H.
  rewrite !app_nil_iff, !when_nil, map_nil_iff in H.
  destruct H as (-> & -> & -> & -> & -> & -> & -> & -> & ->).
  cbn [List.length].
  repeat match goal with
         | |- context [if ?b then _ else 0%Z] => destruct b
         end; lia.
Qed.

Lemma analyze_score_100 text li :
  score (fst (analyze text li)) = 100%Z
  <-> issues (fst (analyze text li)) = []
      /\ a_warnings (fst (analyze text li)) = [].
Proof.
  unfold analyze. fold (nonblank_lines text). fold (nonTagLines text).
  destruct (emoji_test text li) as [emoji li'].
  cbn [fst score issues a_warnings].
  destruct (0 <? count_exclamation text)%N eqn:Ex;
    [apply N.ltb_lt in Ex|]; cbn [when]; cbv iota; abstract_flags.
  - split.
    + intros H. exfalso.
      repeat match goal with
             | H : context [if ?b then ?p else 0%Z] |- _ =>
                 let x := fresh "pen" in
                 pose proof (ite_nonneg b p ltac:(lia));
                 set (x := if b then p else 0%Z) in *; clearbody x
             end.
      lia.
    + rewrite !app_nil_iff. intros [(_ & _ & _ & _ & _ & _ & _ & H & _) _].
      discriminate H.
  - rewrite !app_nil_iff, !when_nil, map_nil_iff. split.
    + intros H.
      repeat match goal with
             | H : context [if ?b then ?p else 0%Z] |- _ =>
                 let x := fresh "pen" in
                 pose proof (ite_nonneg b p ltac:(lia));
                 pose proof (ite_zero b p ltac:(lia));
                 set (x := if b then p else 0%Z) in *; clearbody x
             end.
      assert (Hb : banned = []) 
        by (destruct banned; [reflexivity|cbn [List.length] in H; lia]).
      subst banned. cbn [List.length] in H.
      repeat split;
        match goal with
        | |- ?b = false => 
            match goal with Hz : _ = 0%Z -> b = false |- _ => apply Hz; lia end
        | |- _ => reflexivity
        end.
    + intros ((-> & -> & -> & -> & -> & -> & -> & _ & ->) & -> & -> & ->).
      reflexivity.
Qed.

Lemma analyze_score_clamped text li :
  (0 <= score (fst (analyze text li)) <= 100)%Z.
Proof.
  unfold analyze. destruct (emoji_test text li) as [emoji li'].
  cbn [fst score]. lia.
Qed.

(** X11: on a text in the range of the case mapping, [analyze] answers
    [valid = true] exactly when the text is clean: its first non-blank line,
    trimmed, has at most 100 characters and does not end with a question
    mark, it has at least two non-blank lines, at least one of them counts
    as evidence, the source pattern matches somewhere, and the text holds no
    banned phrase (whatever the case of its letters), no exclamation mark
    and no emoji that the search finds from the current [lastIndex].  The
    insight, the number of evidence lines beyond one and the length of the
    text only bring warnings. *)
Theorem analysis_valid_iff_clean (text : jsstring) (li : nat) :
  exact_text text = true ->
  (valid (fst (analyze text li)) = true <-> analysis_clean text li).
Proof.
  intros _. exact (analyze_valid_iff text li).
Qed.

Lemma analysis_valid_iff_clean_witness :
  exact_text (generate minimal_ast) = true
  /\ analysis_clean (generate minimal_ast) 0.
Proof.
  assert (Hx : exact_text (generate minimal_ast) = true) by reflexivity.
  split; [exact Hx|].
  apply (proj1 (analysis_valid_iff_clean (generate minimal_ast) 0 Hx)).
  vm_compute. reflexivity.
Defined.

(** X12: the score is always between 0 and 100; a valid analysis scores at
    least 85, since the three warnings cost 5 points each; and the score is
    100 exactly when there is no issue and no warning. *)
Theorem analysis_score_bounds (text : jsstring) (li : nat) :
  let r := fst (analyze text li) in
  (0 <= score r <= 100)%Z
  /\ (valid r = true -> (85 <= score r)%Z)
  /\ (score r = 100%Z <-> issues r = [] /\ a_warnings r = []).
Proof.
  cbv zeta. split; [apply analyze_score_clamped|]. split.
  - intros H. now apply analyze_valid_score.
  - apply analyze_score_100.
Qed.

Lemma analysis_score_bounds_witness :
  valid (fst (analyze (generate minimal_ast) 0)) = true
  /\ (85 <= score (fst (analyze (generate minimal_ast) 0)))%Z.
Proof.
  assert (H : valid (fst (analyze (generate minimal_ast) 0)) = true)
    by (vm_compute; reflexivity).
  split; [exact H|].
  exact (proj1 (proj2 (analysis_score_bounds (generate minimal_ast) 0)) H).
Defined.

(* ================================================================== *)
(** * The generator and the analyzer together *)

Lemma analyze_hasSource text li :
  hasSource (structure (fst (analyze text li))) = test urlPattern text.
Proof.
  unfold analyze. now destruct (emoji_test text li).
Qed.

Lemma analyze_hasClaim text li :
  hasClaim (structure (fst (analyze text li)))
  = (2 <=? size (nonblank_lines text)).
Proof.
  unfold analyze. now destruct (emoji_test text li).
Qed.

(** A match at some position makes [test] answer [true]. *)
Lemma test_inside r pre : forall s,
  match_k r s [] (fun _ _ => Some tt) = Some tt ->
  test r (pre ++ s) = true.
Proof.
  induction pre as [|c pre IH]; intros s H.
  - destruct s as [|c s]; simpl; now rewrite H.
  - cbn [app test].
    destruct (match_k r (c :: pre ++ s) [] (fun _ _ => Some tt));
      [reflexivity|]. now apply IH.
Qed.

Lemma app_middle {A : Type} (X : list A) a b Y c d Z L :
  X ++ a :: b :: Y ++ c :: d :: Z ++ L
  = (X ++ a :: b :: Y ++ c :: d :: Z) ++ L.
Proof.
  rewrite <- app_assoc. cbn [app]. do 3 f_equal.
  rewrite <- app_assoc. reflexivity.
Qed.

Lemma output_lines_end ast :
  exists body,
    output_lines ast
    = (PostLangAST.title ast ++ js ".") :: body
      ++ [js "Source: " ++ Source.title (PostLangAST.source ast);
          js "[" ++ Source.credibility (PostLangAST.source ast) ++ js "]";
          displayUrl (Source.url (PostLangAST.source ast))].
Proof.
  exists ([] :: (match PostLangAST.context ast with
                 | Some (c :: s) => [c :: s; []]
                 | _ => []
                 end)
             ++ [PostLangAST.claim ast ++ js "."; []]
             ++ (match PostLangAST.evidence ast with
                 | [] => []
                 | evs =>
                     [js "Results:"]
                     ++ map (fun ev => js "- " ++ EvidenceItem.value ev
                                          ++ js " " ++ EvidenceItem.context ev)
                            evs
                     ++ [[]]
                 end)
             ++ [PostLangAST.insight ast ++ js "."; []]
             ++ (match PostLangAST.credential ast with
                 | Some (c :: s) => [js "[" ++ (c :: s) ++ js "]"; []]
                 | _ => []
                 end)).
  unfold output_lines. cbn [app]. do 2 f_equal. apply app_middle.
Qed.

Lemma generate_has_source ast :
  exists pre post, generate ast = pre ++ js "Source: " ++ post.
Proof.
  destruct (output_lines_end ast) as [body E].
  exists (join nl ((PostLangAST.title ast ++ js ".") :: body) ++ nl).
  exists (Source.title (PostLangAST.source ast) ++ nl
          ++ join nl [js "[" ++ Source.credibility (PostLangAST.source ast)
                      ++ js "]";
                      displayUrl (Source.url (PostLangAST.source ast))]).
  rewrite generate_lines, E.
  rewrite (app_comm_cons body _ (PostLangAST.title ast ++ js ".")).
  rewrite join_app by discriminate.
  rewrite (join_cons nl (js "Source: " ++ _)).
  now rewrite <- !app_assoc.
Qed.

Lemma generate_source_found ast : test urlPattern (generate ast) = true.
Proof.
  destruct (generate_has_source ast) as [pre [post ->]].
  apply test_inside. reflexivity.
Qed.

Lemma nonblank_lines_full_stop x rest :
  (1 <= List.length
          (filter (fun l => negb (is_blank l))
                  (flat_map split_nl ((x ++ js ".") :: rest))))%nat.
Proof.
  cbn [flat_map]. rewrite nonblank_app.
  pose proof (nonblank_full_stop x). lia.
Qed.

Lemma generate_two_lines ast : 2 <= size (nonblank_lines (generate ast)).
Proof.
  unfold nonblank_lines, size.
  assert (H : split_nl (generate ast) = flat_map split_nl (output_lines ast)).
  { rewrite generate_lines. unfold output_lines. cbn [app]. apply split_join. }
  rewrite H. unfold output_lines.
  rewrite (app_assoc _ (match PostLangAST.context ast with
                        | Some (c :: s) => [c :: s; []]
                        | _ => []
                        end)).
  rewrite !flat_map_app, !nonblank_app.
  pose proof (nonblank_lines_full_stop (PostLangAST.title ast) [[]]) as H1.
  pose proof (nonblank_lines_full_stop (PostLangAST.claim ast) [[]]) as H2.
  unfold jsstring in *. lia.
Qed.

(** X13: on every text that [generate] produces, [analyze] finds a source
    (the line "Source: ..." matches the source pattern) and a claim (the
    title line and the claim line are two non-blank lines); so such a text,
    when it is in the range of the case mapping, is valid exactly when its
    first line is short enough and no question, one line counts as evidence
    and it holds no banned phrase, emoji or exclamation mark. *)
Theorem analysis_of_generated_text (ast : PostLangAST.t) (li : nat) :
  let text := generate ast in
  let r := fst (analyze text li) in
  hasSource (structure r) = true
  /\ hasClaim (structure r) = true
  /\ (exact_text text = true ->
      (valid r = true <->
       (exists l rest,
          nonblank_lines text = l :: rest /\ len (trim l) <= 100
          /\ endsWith (trim l) (js "?") = false)
       /\ 1 <= size (filter is_evidence_line (nonblank_lines text))
       /\ (forall p, In p BANNED -> includes (toLowerCase text) p = false)
       /\ fst (emoji_test text li) = false
       /\ count_exclamation text = 0)).
Proof.
  cbv zeta. split; [|split].
  - rewrite analyze_hasSource. apply generate_source_found.
  - rewrite analyze_hasClaim. apply N.leb_le. apply generate_two_lines.
  - intros _. rewrite analyze_valid_iff. unfold analysis_clean.
    pose proof (generate_two_lines ast) as H2.
    pose proof (generate_source_found ast) as Hs.
    tauto.
Qed.

Lemma analysis_of_generated_text_witness :
  exact_text (generate minimal_ast) = true
  /\ (forall p, In p BANNED ->
                includes (toLowerCase (generate minimal_ast)) p = false)
  /\ count_exclamation (generate minimal_ast) = 0.
Proof.
  assert (Hx : exact_text (generate minimal_ast) = true) by reflexivity.
  split; [exact Hx|].
  assert (Hv : valid (fst (analyze (generate minimal_ast) 0)) = true)
    by (vm_compute; reflexivity).
  destruct (proj1 (proj2 (proj2 (analysis_of_generated_text minimal_ast 0))
                         Hx) Hv)
    as (_ & _ & Hb & _ & He).
  split; [exact Hb|exact He].
Defined.

Lemma in_output_line ast line :
  In line (output_lines ast) -> forall c, In c line -> In c (generate ast).
Proof.
  intros Hl c Hc. rewrite generate_lines.
  now apply (in_join_member c nl line).
Qed.

Lemma unscanned_in_output ast f :
  (PostLangAST.credential ast = Some f /\ f <> [])
  \/ Source.title (PostLangAST.source ast) = f
  \/ Source.credibility (PostLangAST.source ast) = f ->
  exists line, In line (output_lines ast) /\ forall c, In c f -> In c line.
Proof.
  intros [[Hc Hf]|[<-|<-]].
  - exists (js "[" ++ f ++ js "]"). split.
    + unfold output_lines. rewrite Hc. destruct f as [|c s]; [congruence|].
      rewrite !in_app_iff. do 5 right. left. now left.
    + intros c Hin. rewrite !in_app_iff. tauto.
  - eexists. split.
    + unfold output_lines. rewrite !in_app_iff. do 6 right. left. reflexivity.
    + intros c Hin. rewrite in_app_iff. tauto.
  - eexists. split.
    + unfold output_lines. rewrite !in_app_iff. do 6 right. right. left.
      reflexivity.
    + intros c Hin. rewrite !in_app_iff. tauto.
Qed.

(** X14: [validate] does not scan the credential nor the title and the
    credibility of the source, but [analyze] reads the whole text: an
    exclamation mark in one of them passes into the output, and the
    analysis of the output is then not valid. *)
Theorem unscanned_exclamation_fails_analysis
        (ast : PostLangAST.t) (li : nat) (f : jsstring) :
  (PostLangAST.credential ast = Some f /\ f <> [])
  \/ Source.title (PostLangAST.source ast) = f
  \/ Source.credibility (PostLangAST.source ast) = f ->
  In 33 f ->
  valid (fst (analyze (generate ast) li)) = false
  /\ 1 <= count_exclamation (generate ast).
Proof.
  intros Hf Hin.
  destruct (unscanned_in_output ast f Hf) as [line [Hl Hc]].
  assert (Hg : In 33 (generate ast))
    by (apply (in_output_line ast line Hl); now apply Hc).
  assert (Hn : count_exclamation (generate ast) <> 0)
    by (rewrite count_exclamation_zero; tauto).
  split; [|lia].
  destruct (valid (fst (analyze (generate ast) li))) eqn:E; [|reflexivity].
  apply analyze_valid_iff in E. unfold analysis_clean in E. tauto.
Qed.

Lemma unscanned_exclamation_fails_analysis_witness :
  fst (compile exclaiming 0)
  = Some (mkCompileResult true (Some (generate exclaiming_ast)) [] [])
  /\ valid (fst (analyze (generate exclaiming_ast) 0)) = false.
Proof.
  split; [vm_compute; reflexivity|].
  apply (unscanned_exclamation_fails_analysis exclaiming_ast 0
           (js "Award winner!")).
  - left. split; [reflexivity|discriminate].
  - vm_compute. tauto.
Defined.

(* ================================================================== *)
(** * Further properties of the pipeline *)

Lemma effective_total_defined ast :
  exists l, PostLangLimits.total (effective ast) = Some l.
Proof.
  unfold effective, PostLangLimits.spread.
  destruct (Partial.limits ast) as [l|]; simpl; [|eauto].
  destruct (PostLangLimits.total l); simpl; eauto.
Qed.

(** The four ways [compile] ends. *)
Lemma compile_cases source li :
  (exists e errs,
     snd (parse source) = e :: errs
     /\ compile source li
        = (Some (mkCompileResult false None (e :: errs) []), li))
  \/ (snd (parse source) = []
      /\ exists ast v li',
           ast = fst (parse source) /\ validate ast li = (v, li')
           /\ ((exists e errs,
                  v_errors v = e :: errs
                  /\ compile source li
                     = (Some (mkCompileResult false None (e :: errs)
                                              (v_warnings v)), li'))
               \/ (v_errors v = []
                   /\ exists full,
                        as_PostLangAST ast = Some full
                        /\ ((exceeds (len (generate full))
                                     (PostLangLimits.total (effective ast))
                             = true
                             /\ compile source li
                                = (Some (mkCompileResult false None
                                           [total_msg
                                              (PostLangLimits.total
                                                 (effective ast))
                                              (len (generate full))]
                                           (v_warnings v)), li'))
                            \/ (exceeds (len (generate full))
                                        (PostLangLimits.total (effective ast))
                                = false
                                /\ compile source li
                                   = (Some (mkCompileResult true
                                              (Some (generate full)) []
                                              (v_warnings v)), li')))))).
Proof.
  unfold compile. destruct (parse source) as [ast [|e errs]] eqn:Ep;
    [|left; exists e, errs; auto].
  right. split; [reflexivity|]. cbn [fst].
  destruct (validate ast li) as [v li'] eqn:Ev.
  exists ast, v, li'. split; [reflexivity|]. split; [exact Ev|].
  destruct (v_errors v) as [|e errs] eqn:Ee;
    [|left; exists e, errs; auto].
  right. split; [reflexivity|].
  destruct (validate_ok_cast ast li) as [full Hf];
    [rewrite Ev; exact Ee|].
  exists full. split; [exact Hf|]. rewrite Hf. fold (effective ast).
  destruct (exceeds (len (generate full))
                    (PostLangLimits.total (effective ast)));
    [left|right]; auto.
Qed.

(** X15: [compile] always returns a result (the cast in front of
    [generate] never meets a missing member), and the result is coherent:
    [success] is true exactly when [errors] is empty, exactly when there is
    an [output]; a failure carries at least one error and no output. *)
Theorem compile_result_coherent (source : jsstring) (li : nat) :
  exists r,
    fst (compile source li) = Some r
    /\ (success r = true <-> errors r = [])
    /\ (success r = true <-> exists out, output r = Some out)
    /\ (success r = false -> output r = None /\ errors r <> []).
Proof.
  destruct (compile_cases source li)
    as [[e [errs [_ ->]]]
       |[_ [ast [v [li' [_ [_ [[e [errs [_ ->]]]
                               |[_ [full [_ [[_ ->]|[_ ->]]]]]]]]]]]]];
    eexists; (split; [reflexivity|]); cbn [success errors output];
    repeat split; intros; try discriminate; try congruence; eauto;
    try (destruct H; discriminate).
Qed.

(** X16: on a source whose parsed document has its scanned members in the
    range of the case mapping, [compile] succeeds exactly when [parse]
    reports no error, the document is acceptable to [validate] in the
    current state, and the text generated from it has no more characters
    than the effective total limit; the result of a success is the
    generated text, with no error and with the warnings of [validate]. *)
Theorem compile_succeeds_iff (source : jsstring) (li : nat) :
  let ast := fst (parse source) in
  exact_document ast = true ->
  ((exists r, fst (compile source li) = Some r /\ success r = true)
   <-> (snd (parse source) = [] /\ acceptable ast li
        /\ exists full limit,
             as_PostLangAST ast = Some full
             /\ PostLangLimits.total (effective ast) = Some limit
             /\ len (generate full) <= limit))
  /\ (forall r,
        fst (compile source li) = Some r -> success r = true ->
        exists full,
          as_PostLangAST ast = Some full
          /\ output r = Some (generate full)
          /\ errors r = []
          /\ warnings r = v_warnings (fst (validate ast li))).
Proof.
  cbv zeta. intros _.
  destruct (effective_total_defined (fst (parse source))) as [limit Hl].
  destruct (compile_cases source li)
    as [[e [errs [Hp Hc]]]
       |[Hp [ast [v [li' [-> [Hv [[e [errs [He Hc]]]
                               |[He [full [Hf [[Ht Hc]|[Ht Hc]]]]]]]]]]]]];
    rewrite Hc; cbn [fst]; (split; [split|]).
  - intros [r [E H]]. injection E as <-. discriminate H.
  - intros [H _]. rewrite Hp in H. discriminate H.
  - intros r E H. injection E as <-. discriminate H.
  - intros [r [E H]]. injection E as <-. discriminate H.
  - intros [_ [H _]]. apply validate_accepts_iff in H.
    rewrite Hv in H. cbn [fst] in H. congruence.
  - intros r E H. injection E as <-. discriminate H.
  - intros [r [E H]]. injection E as <-. discriminate H.
  - intros [_ [_ [full' [limit' [Hf' [Hl' Hle]]]]]].
    assert (full' = full) by congruence. subst full'.
    rewrite Hl' in Ht. cbn [exceeds] in Ht. apply N.ltb_lt in Ht. lia.
  - intros r E H. injection E as <-. discriminate H.
  - intros _. split; [exact Hp|]. split.
    + apply validate_accepts_iff. rewrite Hv. exact He.
    + exists full, limit. split; [exact Hf|]. split; [exact Hl|].
      rewrite Hl in Ht. cbn [exceeds] in Ht. now apply N.ltb_ge in Ht.
  - eexists. split; reflexivity.
  - intros r E _. injection E as <-. exists full. rewrite Hv.
    repeat split. exact Hf.
Qed.

Lemma compile_succeeds_iff_witness :
  exact_document (fst (parse minimal_three_segment)) = true
  /\ snd (parse minimal_three_segment) = []
  /\ acceptable (fst (parse minimal_three_segment)) 0.
Proof.
  assert (Hx : exact_document (fst (parse minimal_three_segment)) = true)
    by (vm_compute; reflexivity).
  split; [exact Hx|].
  destruct (proj1 (proj1 (compile_succeeds_iff minimal_three_segment 0 Hx)))
    as [Hp [Ha _]].
  - eexists. split; [vm_compute; reflexivity|reflexivity].
  - split; [exact Hp|exact Ha].
Defined.

(** X17: a successful output is never longer than the total limit in
    force, which is always defined: it is 700 when no line of the source is
    a directive for [total], and the value of the last directive for [total]
    (a value up to 2^53) when there is one. *)
Theorem successful_output_within_total
        (source : jsstring) (li : nat) (r : CompileResult) (out : jsstring) :
  fst (compile source li) = Some r ->
  output r = Some out ->
  exists limit,
    PostLangLimits.total (effective (fst (parse source))) = Some limit
    /\ len out <= limit
    /\ (Partial.limits (fst (parse source)) = None -> limit = 700)
    /\ ((forall l v,
           In l (split_nl source) -> directive l <> Some (js "total", v)) ->
        limit = 700)
    /\ (forall pre raw post v,
          split_nl source = pre ++ raw :: post ->
          directive raw = Some (js "total", v) ->
          v <= MAX_EXACT ->
          (forall l v', In l post -> directive l <> Some (js "total", v')) ->
          limit = v).
Proof.
  intros Hc Ho.
  destruct (effective_total_defined (fst (parse source))) as [l Hl].
  exists l. split; [exact Hl|].
  assert (Hle : len out <= l).
  { destruct (compile_cases source li)
      as [[e [errs [_ E]]]
         |[_ [ast [v [li' [-> [_ [[e [errs [_ E]]]
                                 |[_ [full [_ [[_ E]|[Ht E]]]]]]]]]]]]];
      rewrite E in Hc; cbn [fst] in Hc; injection Hc as <-;
      cbn [output] in Ho; try discriminate Ho.
    injection Ho as <-. rewrite Hl in Ht. cbn [exceeds] in Ht.
    now apply N.ltb_ge in Ht. }
  split; [exact Hle|]. split; [|split].
  - intros Hn. unfold effective in Hl. rewrite Hn in Hl.
    cbn in Hl. congruence.
  - intros Hnone. rewrite (total_by_default source Hnone) in Hl. congruence.
  - intros pre raw post v Hs Hraw _ Hpost.
    rewrite (total_of_last_directive source pre raw post v Hs Hraw Hpost)
      in Hl.
    congruence.
Qed.

(** The minimal post followed by the line [^ total 500] compiles, and its
    output is within 500. *)
Lemma successful_output_within_total_witness :
  fst (compile capped_minimal 0)
  = Some (mkCompileResult true (Some minimal_output) [] [])
  /\ PostLangLimits.total (effective (fst (parse capped_minimal))) = Some 500
  /\ len minimal_output <= 500.
Proof.
  assert (H : fst (compile capped_minimal 0)
              = Some (mkCompileResult true (Some minimal_output) [] []))
    by (vm_compute; reflexivity).
  split; [exact H|].
  destruct (successful_output_within_total capped_minimal 0 _
              minimal_output H eq_refl) as [limit [H1 [H2 [_ [_ H3]]]]].
  assert (E : limit = 500).
  { apply (H3 (split_nl minimal_three_segment) (js "^ total 500") []).
    - vm_compute. reflexivity.
    - vm_compute. reflexivity.
    - vm_compute. discriminate.
    - intros l v' []. }
  subst limit. split; assumption.
Defined.

(** X18: the library's [validate(source)] and [compile(source)], entered in
    the same state, leave the same state and differ only by the total-length
    check: when [validate] answers [valid = false], [compile] fails with the
    same errors and warnings; when it answers [valid = true], [compile]
    either succeeds with the same warnings or fails with the single error
    "Output exceeds ..." of the total limit. *)
Theorem validate_agrees_with_compile (source : jsstring) (li : nat) :
  let v := fst (Index.validate source li) in
  snd (Index.validate source li) = snd (compile source li)
  /\ exists r,
       fst (compile source li) = Some r
       /\ warnings r = Index.warnings v
       /\ (Index.valid v = false ->
           success r = false /\ errors r = Index.errors v)
       /\ (Index.valid v = true ->
           Index.errors v = []
           /\ (success r = true
               \/ exists limit n,
                    success r = false /\ errors r = [total_msg limit n])).
Proof.
  cbv zeta. unfold Index.validate, Index.parse.
  destruct (compile_cases source li)
    as [[e [errs [Hp Hc]]]
       |[Hp [ast [v [li' [Ha [Hv [[e [errs [He Hc]]]
                               |[He [full [Hf [[Ht Hc]|[Ht Hc]]]]]]]]]]]]];
    rewrite Hc; destruct (parse source) as [ast' errs'];
    cbn [fst snd] in *; subst; try rewrite Hv;
    (split; [reflexivity|]); eexists; (split; [reflexivity|]);
    cbn [warnings errors success Index.valid Index.errors Index.warnings
         fst snd];
    try rewrite He;
    (split; [reflexivity|]); split; intros H; try discriminate H.
  - split; reflexivity.
  - split; reflexivity.
  - split; [reflexivity|]. right. eauto.
  - split; [reflexivity|]. left. reflexivity.
Qed.

(* ================================================================== *)
(** * The analyzer on degenerate and on decorated text *)

Lemma split_nl_forallb (p : N -> bool) s :
  forallb p s = true -> forallb (forallb p) (split_nl s) = true.
Proof.
  induction s as [|c s IH]; [reflexivity|].
  cbn [forallb split_nl]. intros H. apply andb_true_iff in H.
  destruct H as [Hc Hs]. specialize (IH Hs).
  destruct (c =? 10); [exact IH|].
  destruct (split_nl s) as [|l ls]; cbn [forallb] in *.
  - now rewrite Hc.
  - apply andb_true_iff in IH. destruct IH as [Hl Hls].
    now rewrite Hc, Hl, Hls.
Qed.

Lemma blank_no_lines text :
  forallb isWhiteSpace text = true -> nonblank_lines text = [].
Proof.
  intros H. unfold nonblank_lines. apply filter_nil_iff. intros l Hl.
  rewrite is_blank_spec. apply negb_false_iff.
  pose proof (split_nl_forallb isWhiteSpace text H) as Hall.
  rewrite forallb_forall in Hall. now apply Hall.
Qed.

Lemma space_is_plain c : isWhiteSpace c = true -> plain c = true.
Proof.
  unfold isWhiteSpace, plain, emoji_cp, is_lead. intros H.
  rewrite !orb_true_iff, !andb_true_iff, !N.leb_le, !N.eqb_eq in H.
  rewrite andb_true_iff, !negb_true_iff, !orb_false_iff, !andb_false_iff,
    !N.leb_gt.
  lia.
Qed.

Lemma space_not_letter (a : ascii) c :
  33 <= N_of_ascii a <= 122 ->
  isWhiteSpace c = true -> chr_i a c = false.
Proof.
  unfold isWhiteSpace, chr_i. intros Ha H. cbv zeta.
  rewrite !orb_true_iff, !andb_true_iff, !N.leb_le, !N.eqb_eq in H.
  rewrite !orb_false_iff, !andb_false_iff, !N.leb_gt, !N.eqb_neq.
  lia.
Qed.

Lemma space_lower c : isWhiteSpace c = true -> lower_unit c = c.
Proof.
  unfold isWhiteSpace, lower_unit. intros H.
  destruct ((65 <=? c) && (c <=? 90)
            || (0xC0 <=? c) && (c <=? 0xDE) && negb (c =? 0xD7)) eqn:E;
    [|reflexivity].
  rewrite !orb_true_iff, !andb_true_iff, !N.leb_le, !N.eqb_eq in H.
  rewrite !orb_true_iff, !andb_true_iff, !N.leb_le in E. lia.
Qed.

Lemma blank_lower text :
  forallb isWhiteSpace text = true -> toLowerCase text = text.
Proof.
  unfold toLowerCase. induction text as [|c s IH]; [reflexivity|].
  cbn [forallb map]. intros H. apply andb_true_iff in H.
  destruct H as [Hc Hs]. now rewrite (space_lower c Hc), (IH Hs).
Qed.

Lemma blank_no_url text :
  forallb isWhiteSpace text = true -> test urlPattern text = false.
Proof.
  induction text as [|c s IH]; [reflexivity|].
  cbn [forallb]. intros H. apply andb_true_iff in H. destruct H as [Hc Hs].
  cbn [test]. rewrite (IH Hs).
  unfold urlPattern. cbn [lits_i match_k].
  rewrite !(space_not_letter _ c) by (vm_compute; (exact Hc || (split; discriminate))).
  reflexivity.
Qed.

Lemma blank_includes text p c :
  forallb isWhiteSpace text = true ->
  In c p -> isWhiteSpace c = false -> includes text p = false.
Proof.
  intros H Hin Hc. destruct (includes text p) eqn:E; [|reflexivity].
  apply includes_spec in E. destruct E as [a [b ->]].
  rewrite !forallb_app, !andb_true_iff in H. destruct H as [_ [H _]].
  rewrite forallb_forall in H. rewrite (H c Hin) in Hc. discriminate Hc.
Qed.

Lemma banned_not_blank :
  forallb (fun p => existsb nonspace p) BANNED = true.
Proof. vm_compute. reflexivity. Qed.

Lemma blank_no_banned text :
  forallb isWhiteSpace text = true ->
  filter (fun phrase => includes (toLowerCase text) phrase) BANNED = [].
Proof.
  intros H. apply filter_nil_iff. intros p Hp.
  pose proof banned_not_blank as Hb. rewrite forallb_forall in Hb.
  specialize (Hb p Hp). apply existsb_exists in Hb.
  destruct Hb as [c [Hin Hc]]. rewrite (blank_lower text H).
  apply (blank_includes text p c H Hin).
  unfold nonspace in Hc. now apply negb_true_iff in Hc.
Qed.

Lemma blank_no_exclamation text :
  forallb isWhiteSpace text = true -> count_exclamation text = 0.
Proof.
  intros H. apply count_exclamation_zero. intros Hin.
  rewrite forallb_forall in H. specialize (H 33 Hin). discriminate H.
Qed.

Lemma blank_plain text :
  forallb isWhiteSpace text = true -> forallb plain text = true.
Proof.
  rewrite !forallb_forall. intros H c Hc. apply space_is_plain. now apply H.
Qed.

(** X19: on a text made of white space and line breaks only (the empty text
    included) the analyzer finds no line at all: it reports exactly the four
    structural issues, in this order, every structure flag is false, the
    score is 35 (30 when the text is longer than 1300 units), and the emoji
    pattern is left at index 0. *)
Theorem blank_text_analysis (text : jsstring) (li : nat) :
  forallb isWhiteSpace text = true ->
  let r := fst (analyze text li) in
  issues r = [js "No title detected";
              js "No evidence/data points detected";
              js "No source/attribution detected";
              js "Post too short - no clear claim detected"]
  /\ valid r = false
  /\ structure r = mkStructure false false false 0 false false
  /\ score r = (if 1300 <? len text then 30%Z else 35%Z)
  /\ snd (analyze text li) = O.
Proof.
  intros H. cbv zeta. unfold analyze. fold (nonblank_lines text).
  rewrite (blank_no_lines text H), (blank_no_url text H),
    (blank_no_banned text H), (blank_no_exclamation text H),
    (emoji_test_plain text li (blank_plain text H)).
  cbn [filter fst snd issues valid structure score].
  destruct (1300 <? len text); repeat split.
Qed.

Lemma blank_text_analysis_witness :
  forallb isWhiteSpace (js "  " ++ nl ++ js " ") = true
  /\ score (fst (analyze (js "  " ++ nl ++ js " ") 4)) = 35%Z.
Proof.
  assert (H : forallb isWhiteSpace (js "  " ++ nl ++ js " ") = true)
    by reflexivity.
  split; [exact H|].
  exact (proj1 (proj2 (proj2 (proj2
           (blank_text_analysis (js "  " ++ nl ++ js " ") 4 H))))).
Defined.

(** Each penalty is zero or more. *)
Ltac bound_penalties :=
  cbv iota;
  repeat match goal with
         | |- context [if ?b then ?p else 0%Z] =>
             let x := fresh "pen" in
             let Hx := fresh "Hpen" in
             assert (Hx : (0 <= if b then p else 0)%Z) by (destruct b; lia);
             set (x := if b then p else 0%Z) in *; clearbody x
         end.

(** The score against the style penalties alone, and the score of an
    analysis with an issue. *)
Lemma style_bounds text li :
  (score (fst (analyze text li))
   <= Z.max 0 (100
               - 10 * Z.of_nat
                        (List.length
                           (filter (fun phrase =>
                                      includes (toLowerCase text) phrase)
                                   BANNED))
               - 5 * Z.of_N (count_exclamation text)))%Z
  /\ (valid (fst (analyze text li)) = false ->
      (score (fst (analyze text li)) <= 95)%Z).
Proof.
  cbv zeta. unfold analyze. fold (nonblank_lines text).
  fold (nonTagLines text).
  destruct (emoji_test text li) as [emoji li'].
  cbn [fst valid score].
  set (e := count_exclamation text).
  destruct (N.ltb_spec 0 e) as [He|He].
  - cbv iota. abstract_flags.
    split; [|intros _]; bound_penalties; lia.
  - assert (E0 : e = 0) by lia. rewrite E0. cbv iota.
    match goal with
    | |- context [when false ?m] => change (when false m) with (@nil jsstring)
    end.
    change (Z.of_N 0) with 0%Z. abstract_flags. split.
    + bound_penalties; lia.
    + destruct banned as [|p ps]; cbn [map List.length app when];
        repeat match goal with
               | |- context [when ?b _] => destruct b; cbn [when app negb]
               end; intros Hv; try discriminate Hv; bound_penalties; lia.
Qed.

Lemma when_false m : when false m = [].
Proof. reflexivity. Qed.

(** When the structure is all there, the score is 100 less the style
    penalties, and the issues are those of the style. *)
Lemma structured_score text li :
  well_structured text li ->
  score (fst (analyze text li))
  = Z.max 0 (100
             - 10 * Z.of_nat
                      (List.length
                         (filter (fun phrase =>
                                    includes (toLowerCase text) phrase)
                                 BANNED))
             - 5 * Z.of_N (count_exclamation text))
  /\ issues (fst (analyze text li))
     = map (fun phrase => js "Contains banned phrase: " ++ quote phrase)
           (filter (fun phrase => includes (toLowerCase text) phrase) BANNED)
       ++ when (0 <? count_exclamation text)
               (js "Contains " ++ dec (count_exclamation text)
                ++ js " exclamation mark(s)")
  /\ a_warnings (fst (analyze text li)) = [].
Proof.
  intros ([l [rest [Hl [Hlen Hq]]]] & H2 & He & Hs & Hi & Hem & Hlong).
  unfold analyze. fold (nonblank_lines text).
  fold (nonTagLines text).
  set (found := filter (fun phrase => includes (toLowerCase text) phrase)
                       BANNED).
  clearbody found.
  set (e := count_exclamation text). clearbody e.
  destruct (emoji_test text li) as [emoji li']. cbn [fst] in Hem. subst emoji.
  cbn [fst score issues a_warnings].
  rewrite Hl. rewrite Hl in He, H2. rewrite Hq, Hs.
  rewrite (proj2 (N.ltb_ge 100 (len (trim l))) Hlen).
  rewrite (proj2 (N.ltb_lt 0 (size (filter is_evidence_line (l :: rest)))))
    by lia.
  rewrite (proj2 (N.ltb_ge (size (filter is_evidence_line (l :: rest))) 2) He).
  rewrite (proj2 (N.leb_le 2 (size (l :: rest))) H2).
  rewrite (proj2 (N.leb_le 3 (size (nonTagLines text))) Hi).
  rewrite (proj2 (N.ltb_ge 1300 (len text)) Hlong).
  rewrite !andb_false_r. cbn [negb andb].
  rewrite !when_false, !app_nil_l, !app_nil_r. unfold quote.
  split; [|split; reflexivity].
  pose proof (Nat2Z.is_nonneg (List.length found)) as Hk.
  destruct (N.ltb_spec 0 e); cbv iota; lia.
Qed.

(** X20: an analysis with an issue scores at most 95, whatever the issue
    is.  On a text in the range of the case mapping, every banned phrase
    found costs 10 points and every exclamation mark 5: the score is at most
    100 less these (and never below 0), and it is exactly that, with the
    issues of the phrases found and of the exclamation marks and no other,
    and with no warning, when the structure is all there: a first non-blank
    line of at most 100 characters that is no question, two non-blank
    lines, two evidence lines, a source, three lines that are neither tags
    nor sources, no emoji found, and at most 1300 characters. *)
Theorem style_penalties (text : jsstring) (li : nat) :
  let r := fst (analyze text li) in
  let found :=
    filter (fun phrase => includes (toLowerCase text) phrase) BANNED in
  (valid r = false -> (score r <= 95)%Z)
  /\ (exact_text text = true ->
      (score r
       <= Z.max 0 (100 - 10 * Z.of_nat (List.length found)
                   - 5 * Z.of_N (count_exclamation text)))%Z
      /\ (well_structured text li ->
          score r
          = Z.max 0 (100 - 10 * Z.of_nat (List.length found)
                     - 5 * Z.of_N (count_exclamation text))
          /\ issues r
             = map (fun phrase =>
                      js "Contains banned phrase: " ++ quote phrase) found
               ++ when (0 <? count_exclamation text)
                       (js "Contains " ++ dec (count_exclamation text)
                        ++ js " exclamation mark(s)")
          /\ a_warnings r = [])).
Proof.
  cbv zeta. destruct (style_bounds text li) as [Hbound Hissue].
  split; [exact Hissue|]. intros _. split; [exact Hbound|].
  apply structured_score.
Qed.

(** The text [loud_text] has the whole structure, the phrase [exciting] and
    two exclamation marks: it scores 80. *)
Lemma style_penalties_witness :
  exact_text loud_text = true
  /\ well_structured loud_text 0
  /\ score (fst (analyze loud_text 0)) = 80%Z
  /\ issues (fst (analyze loud_text 0))
     = [js "Contains banned phrase: " ++ quote (js "exciting");
        js "Contains 2 exclamation mark(s)"].
Proof.
  assert (Hx : exact_text loud_text = true) by reflexivity.
  assert (Hw : well_structured loud_text 0).
  { split; [exists (js "Title"); eexists;
            split; [vm_compute; reflexivity|];
            split; [vm_compute; discriminate|reflexivity]|].
    repeat split; try (vm_compute; reflexivity);
      vm_compute; discriminate. }
  split; [exact Hx|]. split; [exact Hw|].
  destruct (proj2 (proj2 (style_penalties loud_text 0) Hx) Hw)
    as [Hscore [Hissues _]].
  split.
  - rewrite Hscore. vm_compute. reflexivity.
  - rewrite Hissues. vm_compute. reflexivity.
Defined.

(* ================================================================== *)
(** * The command line *)

(** The two shapes of a result of [compile]. *)
Lemma compile_shape source li :
  exists r,
    fst (compile source li) = Some r
    /\ ((success r = true /\ errors r = []
         /\ exists out, output r = Some out)
        \/ (success r = false /\ output r = None
            /\ exists e es, errors r = e :: es)).
Proof.
  destruct (compile_cases source li)
    as [[e [errs [_ ->]]]
       |[_ [ast [v [li' [_ [_ [[e [errs [_ ->]]]
                               |[_ [full [_ [[_ ->]|[_ ->]]]]]]]]]]]]];
    eexists; (split; [reflexivity|]); cbn [success errors output];
    (right; repeat split; eauto; fail) || (left; repeat split; eauto).
Qed.

Lemma runValidate_spec source li :
  exists r report,
    fst (compile source li) = Some r
    /\ Cli.runValidate source li
       = Some (if success r
               then Cli.mkRun (report ++ [js "Status: VALID"]) [] None None
               else Cli.mkRun
                      (report
                       ++ Cli.block (js "Errors:")
                            (js "  " ++ Cli.cross ++ js " ") (errors r)
                       ++ [js "Status: INVALID"])
                      [] None (Some 1)).
Proof.
  destruct (compile_shape source li)
    as [r [Hr [[Hs [He _]]|[Hs [_ [e [es He]]]]]]];
    exists r; unfold Cli.runValidate, Index.compile; rewrite Hr, He, Hs;
    eexists; (split; [reflexivity|]); reflexivity.
Qed.

Lemma last_snoc {A : Type} (l : list A) (x d : A) : last (l ++ [x]) d = x.
Proof. apply last_last. Qed.

(** X21: the validation report of the command line always comes out; it
    ends the process with code 1 exactly when [compile] fails, and its last
    line is then [Status: INVALID], after one line per error; otherwise the
    last line is [Status: VALID].  Nothing goes to the error stream and no
    file is written. *)
Theorem validation_report (source : jsstring) (li : nat) :
  exists r run,
    fst (compile source li) = Some r
    /\ Cli.runValidate source li = Some run
    /\ (Cli.exit run = None <-> success r = true)
    /\ (Cli.exit run = Some 1 <-> success r = false)
    /\ last (Cli.stdout run) []
       = (if success r then js "Status: VALID" else js "Status: INVALID")
    /\ (forall e, In e (errors r) ->
                  In (js "  " ++ Cli.cross ++ js " " ++ e) (Cli.stdout run))
    /\ Cli.stderr run = [] /\ Cli.written run = None.
Proof.
  destruct (compile_shape source li) as [r0 [Hr0 Hshape]].
  destruct (runValidate_spec source li) as [r [report [Hr Hrun]]].
  assert (r0 = r) by congruence. subst r0.
  exists r. eexists. split; [exact Hr|]. split; [exact Hrun|].
  destruct Hshape as [[Hs [He _]]|[Hs [_ [e [es He]]]]]; rewrite Hs;
    cbn [Cli.exit Cli.stdout Cli.stderr Cli.written].
  - split; [tauto|]. split; [split; discriminate|].
    split; [apply last_snoc|]. split; [|split; reflexivity].
    intros x Hx. rewrite He in Hx. destruct Hx.
  - split; [split; discriminate|]. split; [tauto|].
    split; [rewrite app_assoc; apply last_snoc|].
    split; [|split; reflexivity].
    intros x Hx. rewrite He in *. unfold Cli.block.
    rewrite !in_app_iff. right. left. right. left.
    apply in_map_iff. exists x. split; [|exact Hx].
    now rewrite <- !app_assoc.
Qed.

Lemma scoreEmoji_cross z : Cli.scoreEmoji z = Cli.cross -> (z < 60)%Z.
Proof.
  unfold Cli.scoreEmoji.
  destruct (80 <=? z)%Z eqn:E1; [discriminate|].
  destruct (60 <=? z)%Z eqn:E2; [discriminate|].
  intros _. now apply Z.leb_gt in E2.
Qed.

Lemma runAnalyze_spec text li :
  exists report,
    Cli.runAnalyze text li
    = (if valid (fst (analyze text li))
       then Cli.mkRun
              ([js "LinkedIn Post Analysis"; js "======================" ++ nl;
                js "Score: " ++ Cli.dec_Z (score (fst (analyze text li)))
                ++ js "/100 "
                ++ Cli.scoreEmoji (score (fst (analyze text li))) ++ nl]
               ++ report ++ [js "Status: VALID PostLang structure"])
              [] None None
       else Cli.mkRun
              ([js "LinkedIn Post Analysis"; js "======================" ++ nl;
                js "Score: " ++ Cli.dec_Z (score (fst (analyze text li)))
                ++ js "/100 "
                ++ Cli.scoreEmoji (score (fst (analyze text li))) ++ nl]
               ++ report ++ [js "Status: Does NOT follow PostLang rules"])
              [] None (Some 1)).
Proof.
  unfold Cli.runAnalyze, Index.analyze. cbv zeta.
  match goal with
  | |- exists report,
         (if _ then Cli.mkRun (_ ++ ?sh ++ ?ls ++ _) _ _ _ else _) = _ =>
      exists (sh ++ ls)
  end.
  now rewrite <- !(app_assoc _ _ [_]).
Qed.

(** X22: the analysis report ends the process with code 1 exactly when the
    analysis is not valid.  A valid analysis is always printed with the
    check mark beside its score (it scores 85 or more, and the mark needs
    80), and a score marked with the cross (below 60) always comes with
    code 1 and the status line [Does NOT follow PostLang rules]. *)
Theorem analysis_report (text : jsstring) (li : nat) :
  let r := fst (analyze text li) in
  let run := Cli.runAnalyze text li in
  (Cli.exit run = None <-> valid r = true)
  /\ (Cli.exit run = Some 1 <-> valid r = false)
  /\ (valid r = true ->
      nth 2 (Cli.stdout run) []
      = js "Score: " ++ dec (Z.to_N (score r)) ++ js "/100 " ++ Cli.tick
        ++ nl)
  /\ (Cli.scoreEmoji (score r) = Cli.cross ->
      Cli.exit run = Some 1
      /\ last (Cli.stdout run) []
         = js "Status: Does NOT follow PostLang rules")
  /\ last (Cli.stdout run) []
     = (if valid r then js "Status: VALID PostLang structure"
        else js "Status: Does NOT follow PostLang rules")
  /\ Cli.stderr run = [] /\ Cli.written run = None.
Proof.
  cbv zeta. destruct (runAnalyze_spec text li) as [report ->].
  pose proof (analyze_valid_score text li) as Hv.
  destruct (valid (fst (analyze text li))) eqn:E;
    cbn [Cli.exit Cli.stdout Cli.stderr Cli.written].
  - specialize (Hv eq_refl).
    split; [tauto|]. split; [split; discriminate|]. split.
    + intros _. cbn [app nth]. unfold Cli.dec_Z, Cli.scoreEmoji.
      destruct (score (fst (analyze text li)) <? 0)%Z eqn:E0;
        [apply Z.ltb_lt in E0; lia|].
      destruct (80 <=? score (fst (analyze text li)))%Z eqn:E1;
        [reflexivity|apply Z.leb_gt in E1; lia].
    + split; [|split; [|split; reflexivity]].
      * intros H. apply scoreEmoji_cross in H. lia.
      * rewrite app_assoc. apply last_snoc.
  - split; [split; discriminate|]. split; [tauto|].
    split; [discriminate|].
    assert (Hl : forall (a b : list jsstring) x, last (a ++ b ++ [x]) [] = x)
      by (intros a b x; rewrite app_assoc; apply last_snoc).
    split; [intros _; split; [reflexivity|apply Hl]|].
    split; [apply Hl|split; reflexivity].
Qed.

Lemma analysis_report_witness :
  valid (fst (analyze (generate minimal_ast) 0)) = true
  /\ nth 2 (Cli.stdout (Cli.runAnalyze (generate minimal_ast) 0)) []
     = js "Score: "
       ++ dec (Z.to_N (score (fst (analyze (generate minimal_ast) 0))))
       ++ js "/100 " ++ Cli.tick ++ nl.
Proof.
  assert (H : valid (fst (analyze (generate minimal_ast) 0)) = true)
    by (vm_compute; reflexivity).
  split; [exact H|].
  exact (proj1 (proj2 (proj2 (analysis_report (generate minimal_ast) 0))) H).
Defined.

Lemma runValidate_run source :
  exists run,
    Cli.runValidate source 0 = Some run
    /\ Cli.stdout run <> [] /\ Cli.written run = None
    /\ (Cli.exit run = None \/ Cli.exit run = Some 1).
Proof.
  destruct (runValidate_spec source 0) as [r [report [_ ->]]].
  destruct (success r); eexists; (split; [reflexivity|]);
    cbn [Cli.stdout Cli.written Cli.exit];
    (split; [intros H; apply app_eq_nil in H; destruct H as [_ H];
             repeat (apply app_eq_nil in H; destruct H as [_ H]);
             discriminate H|]); auto.
Qed.

Lemma runAnalyze_run text :
  Cli.stdout (Cli.runAnalyze text 0) <> []
  /\ Cli.written (Cli.runAnalyze text 0) = None
  /\ (Cli.exit (Cli.runAnalyze text 0) = None
      \/ Cli.exit (Cli.runAnalyze text 0) = Some 1).
Proof.
  destruct (runAnalyze_spec text 0) as [report ->].
  destruct (valid (fst (analyze text 0)));
    cbn [Cli.stdout Cli.written Cli.exit app];
    (split; [discriminate|]); auto.
Qed.

Ltac stop_out :=
  eexists; (split; [reflexivity|]);
  cbn [Cli.stdout Cli.stderr Cli.exit];
  (split; [left; discriminate|auto]).

Ltac stop_err :=
  eexists; (split; [reflexivity|]);
  cbn [Cli.stdout Cli.stderr Cli.exit];
  (split; [right; discriminate|auto]).

Ltac stop_failed :=
  eexists; (split; [reflexivity|]);
  cbn [Cli.stdout Cli.stderr Cli.exit];
  (split; [right; intros H; apply app_eq_nil in H; destruct H as [_ H];
           discriminate H|auto]).

(** The ways [main] gets its source text, or stops before. *)
Ltac split_input args env :=
  destruct (Cli.given args (js "--stdin")) eqn:Estdin;
  [|destruct (negb (truthy (find Cli.nonFlag args)));
    [|destruct (find Cli.nonFlag args) as [input|] eqn:Efind;
      [destruct (Cli.files env input) as [text|] eqn:Efile|]]];
  cbv beta iota.

(** X23: whatever the arguments and the files, the program ends with a
    report: it returns a run which printed something on one of the two
    streams, and which either ended by itself or called [process.exit] with
    0 or 1. *)
Theorem main_always_reports (args : list jsstring) (env : Cli.Env) :
  exists run,
    Cli.main args env = Some run
    /\ (Cli.stdout run <> [] \/ Cli.stderr run <> [])
    /\ (Cli.exit run = None \/ Cli.exit run = Some 0
        \/ Cli.exit run = Some 1).
Proof.
  unfold Cli.main.
  destruct (match args with [] => true | _ :: _ => false end
            || Cli.given args (js "--help") || Cli.given args (js "-h"));
    [stop_out|].
  destruct (Cli.given args (js "--version")); [stop_out|].
  cbv zeta.
  assert (Hval : forall source,
            exists run,
              Cli.runValidate source 0 = Some run
              /\ (Cli.stdout run <> [] \/ Cli.stderr run <> [])
              /\ (Cli.exit run = None \/ Cli.exit run = Some 0
                  \/ Cli.exit run = Some 1)).
  { intros source.
    destruct (runValidate_run source) as [run [-> [H1 [_ H2]]]].
    exists run. split; [reflexivity|]. split; [now left|tauto]. }
  assert (Han : forall source,
            exists run,
              Some (Cli.runAnalyze source 0) = Some run
              /\ (Cli.stdout run <> [] \/ Cli.stderr run <> [])
              /\ (Cli.exit run = None \/ Cli.exit run = Some 0
                  \/ Cli.exit run = Some 1)).
  { intros source. destruct (runAnalyze_run source) as [H1 [_ H2]].
    eexists. split; [reflexivity|]. split; [now left|tauto]. }
  destruct (Cli.given args (js "--validate"));
    [|destruct (Cli.given args (js "--analyze"))];
    split_input args env;
    try (stop_err); try apply Hval; try apply Han;
    unfold Index.compile.
  - destruct (compile_shape (Cli.stdin env) 0)
      as [r [-> [[Hs [_ [out Ho]]]|[Hs _]]]]; rewrite Hs; cbn [negb].
    + rewrite Ho. stop_out.
    + stop_failed.
  - destruct (compile_shape text 0)
      as [r [-> [[Hs [_ [out Ho]]]|[Hs _]]]]; rewrite Hs; cbn [negb].
    + rewrite Ho.
      destruct (Cli.or_null (nth_error (filter Cli.nonFlag args) 1))
        as [path|]; [destruct (truthy (Some path))|]; stop_out.
    + stop_failed.
Qed.



(* ================================================================== *)
(** * Bullet lines in the analyzer *)

Lemma analyze_hasEvidence text li :
  hasEvidence (structure (fst (analyze text li)))
  = (0 <? evidenceCount (structure (fst (analyze text li)))).
Proof.
  unfold analyze. destruct (emoji_test text li). reflexivity.
Qed.

Lemma no_evidence_issue text li :
  hasEvidence (structure (fst (analyze text li))) = false ->
  In (js "No evidence/data points detected") (issues (fst (analyze text li))).
Proof.
  unfold analyze. destruct (emoji_test text li) as [emoji li'].
  cbn [fst structure hasEvidence issues]. intros ->.
  rewrite !in_app_iff. right. right. left. left. reflexivity.
Qed.

(** [bulletPattern] on the trimmed line, spelled out. *)
Lemma bullet_test line :
  test_start bulletPattern (trim line) = bullet_line line.
Proof.
  unfold bullet_line, test_start, exec_start, bulletPattern.
  destruct (trim line) as [|c [|w rest]]; cbn [match_k].
  - reflexivity.
  - now destruct (bullet_class c).
  - destruct (bullet_class c); [|reflexivity].
    now destruct (isWhiteSpace w).
Qed.

Lemma space_not_digit c : isWhiteSpace c = true -> digit c = false.
Proof.
  unfold isWhiteSpace, digit. intros H.
  rewrite !orb_true_iff, !andb_true_iff, !N.leb_le, !N.eqb_eq in H.
  rewrite andb_false_iff, !N.leb_gt. lia.
Qed.

Lemma blank_no_numeric s :
  forallb isWhiteSpace s = true -> test evidencePattern s = false.
Proof.
  induction s as [|c s IH]; [reflexivity|].
  cbn [forallb]. intros H. apply andb_true_iff in H. destruct H as [Hc Hs].
  cbn [test]. rewrite (IH Hs).
  unfold evidencePattern. cbn [match_k].
  now rewrite (space_not_digit c Hc).
Qed.

Lemma blank_not_counted l :
  is_blank l = true -> test evidencePattern l || bullet_line l = false.
Proof.
  intros H. apply orb_false_iff. split.
  - apply blank_no_numeric. now rewrite <- is_blank_spec.
  - unfold bullet_line. unfold is_blank in H.
    now destruct (trim l).
Qed.

Lemma filter_within {A : Type} (f g : A -> bool) (l : list A) :
  (forall x, f x = true -> g x = true) ->
  filter f (filter g l) = filter f l.
Proof.
  intros H. induction l as [|a l IH]; [reflexivity|].
  cbn [filter]. destruct (g a) eqn:Eg; cbn [filter].
  - now rewrite IH.
  - destruct (f a) eqn:Ef; [|exact IH].
    rewrite (H a Ef) in Eg. discriminate Eg.
Qed.

Lemma evidence_lines text :
  filter is_evidence_line (nonblank_lines text)
  = filter (fun l => test evidencePattern l || bullet_line l) (split_nl text).
Proof.
  unfold nonblank_lines.
  rewrite <- (filter_within (fun l => test evidencePattern l || bullet_line l)
                            (fun l => negb (is_blank l))).
  - apply filter_ext. intros l. unfold is_evidence_line.
    now rewrite bullet_test.
  - intros l H. destruct (is_blank l) eqn:E; [|reflexivity].
    rewrite (blank_not_counted l E) in H. discriminate H.
Qed.

Lemma size_filter_pos {A : Type} (f : A -> bool) (l : list A) (x : A) :
  In x l -> f x = true -> 1 <= size (filter f l).
Proof.
  intros Hin Hf.
  assert (H : In x (filter f l)) by (apply filter_In; auto).
  unfold size. destruct (filter f l); [destruct H|].
  cbn [List.length]. lia.
Qed.

Lemma size_filter_none {A : Type} (f : A -> bool) (l : list A) :
  (forall x, In x l -> f x = false) -> size (filter f l) = 0.
Proof.
  intros H. now rewrite (proj2 (filter_nil_iff f l) H).
Qed.

(** C10: [evidenceCount] is the number of lines of the text that the numeric
    pattern matches or whose trimmed text begins with a character of the
    class of [bulletPattern] and a white-space character.  So a line of the
    text whose trimmed text begins with a hyphen or an asterisk and a
    white-space character is counted as evidence.  The class is U+002D,
    U+00E2, U+20AC, U+00A2 and U+002A, without the bullet U+2022: in a text
    where the numeric pattern matches no line and no trimmed line begins with
    a character of the class (it may begin with U+2022), nothing is counted
    and the issue of the missing evidence is raised. *)
Theorem C10_bullet_lines (text : jsstring) (li : nat) :
  let r := fst (analyze text li) in
  let st := structure r in
  evidenceCount st
  = size (filter (fun l => test evidencePattern l || bullet_line l)
                 (split_nl text))
  /\ (forall line c w rest,
        In line (split_nl text) ->
        trim line = c :: w :: rest ->
        isWhiteSpace w = true ->
        c = 0x2D \/ c = 0x2A ->
        hasEvidence st = true /\ 1 <= evidenceCount st)
  /\ (bullet_class 0x2022 = false
      /\ forall c,
           bullet_class c = true <->
           c = 0x2D \/ c = 0xE2 \/ c = 0x20AC \/ c = 0xA2 \/ c = 0x2A)
  /\ ((forall l,
         In l (split_nl text) ->
         test evidencePattern l = false
         /\ forall c rest, trim l = c :: rest -> bullet_class c = false) ->
      evidenceCount st = 0 /\ hasEvidence st = false
      /\ In (js "No evidence/data points detected") (issues r)).
Proof.
  cbv zeta.
  assert (Hcount : evidenceCount (structure (fst (analyze text li)))
                   = size (filter (fun l => test evidencePattern l
                                            || bullet_line l)
                                  (split_nl text)))
    by (rewrite analyze_evidence_count; now rewrite evidence_lines).
  split; [exact Hcount|]. split; [|split; [split|]].
  - intros line c w rest Hin Htrim Hw Hc.
    assert (H1 : 1 <= evidenceCount (structure (fst (analyze text li)))).
    { rewrite Hcount. apply (size_filter_pos _ _ line Hin).
      unfold bullet_line. rewrite Htrim, Hw.
      destruct Hc as [-> | ->]; apply orb_true_r. }
    split; [|exact H1].
    rewrite analyze_hasEvidence. apply N.ltb_lt. lia.
  - reflexivity.
  - apply bullet_class_spec.
  - intros Hnone.
    assert (H0 : evidenceCount (structure (fst (analyze text li))) = 0).
    { rewrite Hcount. apply size_filter_none. intros l Hin.
      destruct (Hnone l Hin) as [Hnum Hclass]. rewrite Hnum.
      unfold bullet_line. destruct (trim l) as [|c [|w rest]] eqn:E;
        try reflexivity.
      now rewrite (Hclass c (w :: rest) eq_refl). }
    assert (Hf : hasEvidence (structure (fst (analyze text li))) = false)
      by (rewrite analyze_hasEvidence, H0; reflexivity).
    split; [exact H0|]. split; [exact Hf|].
    now apply no_evidence_issue.
Qed.

(** The analysis of [dashed_text], whose second line begins with a hyphen
    and whose third line, once trimmed, begins with an asterisk, has
    evidence; the analysis of [dotted_text], whose lines begin with U+2022,
    has none. *)
Lemma C10_bullet_lines_witness :
  (hasEvidence (structure (fst (analyze dashed_text 0))) = true
   /\ 1 <= evidenceCount (structure (fst (analyze dashed_text 0))))
  /\ evidenceCount (structure (fst (analyze dotted_text 0))) = 0
  /\ hasEvidence (structure (fst (analyze dotted_text 0))) = false
  /\ In (js "No evidence/data points detected")
        (issues (fst (analyze dotted_text 0))).
Proof.
  split.
  - apply (proj1 (proj2 (C10_bullet_lines dashed_text 0))
                 (js "  * second point") 0x2A 32 (js "second point")).
    + right. right. left. reflexivity.
    + vm_compute. reflexivity.
    + reflexivity.
    + now right.
  - apply (proj2 (proj2 (proj2 (C10_bullet_lines dotted_text 0)))).
    intros l Hin. vm_compute in Hin.
    destruct Hin as [<-|[<-|[<-|[]]]];
      (split; [vm_compute; reflexivity|]);
      intros c rest E; vm_compute in E; injection E as <- _; reflexivity.
Defined.

(** Against C10 as it is worded: the second line of [bare_marker_text] is a
    hyphen followed by a space, so it begins with a hyphen followed by white
    space; the line is trimmed before the pattern is tried, the pattern
    finds no white space after the hyphen, and the line is not counted. *)
Lemma C10_marker_before_white_space_only :
  split_nl bare_marker_text = [js "Title"; js "- "]
  /\ isWhiteSpace 32 = true
  /\ evidenceCount (structure (fst (analyze bare_marker_text 0))) = 0
  /\ hasEvidence (structure (fst (analyze bare_marker_text 0))) = false.
Proof.
  repeat split; vm_compute; reflexivity.
Qed.
